(** * Ethereum anchor validation of js-ceramic, embedded in Rocq

    Shallow embedding of
    [packages/core/src/anchor/ethereum/ethereum-anchor-validator.ts]
    (class [EthereumAnchorValidator]) and of the conflict-resolution scenario
    exercised by [packages/cli/src/__tests__/ceramic-daemon.test.ts].

    The class is stateful (three LRU caches and a configured chain id), it
    throws, and it awaits a JSON-RPC provider.  It is modelled with a small
    monad that threads the validator object, returns either a value or the
    message of the thrown [Error], and records every provider call and every
    logger call in a trace. *)

From Stdlib Require Import ZArith List String Ascii Bool Lia DecimalString.
Import ListNotations.

Local Open Scope string_scope.
Local Open Scope Z_scope.

(** ** JavaScript values used by the validator *)

Module JS.

(** A JavaScript Number as far as [parseInt] can produce one.  [Num z] is
    a finite double whose value is the integer [z] (both zeros are [Num 0]:
    [===] does not tell them apart). *)
Inductive Number : Type :=
| NaN
| Num (z : Z)
| PosInfinity
| NegInfinity.

(** [a === b] on Numbers: [NaN] is different from everything. *)
Definition strict_eq (a b : Number) : bool :=
  match a, b with
  | Num x, Num y => x =? y
  | PosInfinity, PosInfinity => true
  | NegInfinity, NegInfinity => true
  | _, _ => false
  end.

(** [a !== b]. *)
Definition strict_neq (a b : Number) : bool := negb (strict_eq a b).

(** Round a non-negative integer to the nearest double, ties to even
    (the Number conversion that ends [parseInt]). *)
Definition round_to_double (m : Z) : Number :=
  let bits := Z.log2 m + 1 in
  if bits <=? 53 then Num m
  else
    let sh := bits - 53 in
    let q := Z.shiftr m sh in
    let r := m - Z.shiftl q sh in
    let half := Z.shiftl 1 (sh - 1) in
    let q' := if (half <? r) || ((r =? half) && Z.odd q) then q + 1 else q in
    let v := Z.shiftl q' sh in
    if Z.shiftl 1 1024 <=? v then PosInfinity else Num v.

Definition negate (n : Number) : Number :=
  match n with
  | NaN => NaN
  | Num z => Num (- z)
  | PosInfinity => NegInfinity
  | NegInfinity => PosInfinity
  end.

(** Value of one hexadecimal digit. *)
Definition hex_digit (c : ascii) : option Z :=
  let n := Z.of_nat (nat_of_ascii c) in
  if (48 <=? n) && (n <=? 57) then Some (n - 48)
  else if (97 <=? n) && (n <=? 102) then Some (n - 87)
  else if (65 <=? n) && (n <=? 70) then Some (n - 55)
  else None.

(** The longest prefix of hexadecimal digits, read as an integer; [None]
    when the prefix is empty. *)
Fixpoint digits16 (s : string) (acc : Z) (seen : bool) : option Z :=
  match s with
  | EmptyString => if seen then Some acc else None
  | String c s' =>
      match hex_digit c with
      | Some d => digits16 s' (16 * acc + d) true
      | None => if seen then Some acc else None
      end
  end.

Definition is_white_space (c : ascii) : bool :=
  let n := nat_of_ascii c in
  ((9 <=? n) && (n <=? 13))%nat || (n =? 32)%nat.

Fixpoint trim_start (s : string) : string :=
  match s with
  | String c s' => if is_white_space c then trim_start s' else s
  | EmptyString => s
  end.

Definition strip_sign (s : string) : bool * string :=
  match s with
  | String "-" s' => (true, s')
  | String "+" s' => (false, s')
  | _ => (false, s)
  end.

Definition strip_0x (s : string) : string :=
  match s with
  | String "0" (String "x" s') => s'
  | String "0" (String "X" s') => s'
  | _ => s
  end.

(** [parseInt(s, 16)]. *)
Definition parseInt16 (s : string) : Number :=
  let '(neg, s1) := strip_sign (trim_start s) in
  match digits16 (strip_0x s1) 0 false with
  | None => NaN
  | Some m =>
      let n := round_to_double m in
      if neg then negate n else n
  end.

(** [s.startsWith(p)]. *)
Definition startsWith (s p : string) : bool := String.prefix p s.

(** Truthiness of a [string | null | undefined] value. *)
Definition truthy (s : option string) : bool :=
  match s with
  | Some (String _ _) => true
  | _ => false
  end.

(** An integer Number inside a template literal. *)
Definition show_Z (z : Z) : string := NilZero.string_of_int (Z.to_int z).

(** A [string | null | undefined] field inside a template literal. *)
Definition show_nullable (s : option string) : string :=
  match s with
  | Some x => x
  | None => "undefined"
  end.

(** [hay.includes(needle)]. *)
Fixpoint includes (hay needle : string) : bool :=
  String.prefix needle hay ||
  match hay with
  | EmptyString => false
  | String _ hay' => includes hay' needle
  end.

End JS.

(** ** Byte strings and content identifiers

    [uint8arrays.toString(bytes, 'base16')], and the two renderings of a
    [CID] of the multiformats package that the validator asks for. *)

Definition nth_char (alphabet : string) (i : Z) : string :=
  match String.get (Z.to_nat i) alphabet with
  | Some c => String c EmptyString
  | None => EmptyString
  end.

Definition hex_of_byte (b : Byte.byte) : string :=
  let n := Z.of_N (Byte.to_N b) in
  nth_char "0123456789abcdef" (n / 16) ++ nth_char "0123456789abcdef" (n mod 16).

(** [uint8arrays.toString(bytes, 'base16')]. *)
Fixpoint uint8arrays_toString_base16 (bytes : list Byte.byte) : string :=
  match bytes with
  | [] => EmptyString
  | b :: bs => hex_of_byte b ++ uint8arrays_toString_base16 bs
  end.

Definition base32_alphabet : string := "abcdefghijklmnopqrstuvwxyz234567".

(** The inner loop of the RFC 4648 encoder: write out five bits at a time
    while more than five are buffered. *)
Fixpoint base32_drain (fuel : nat) (buffer bits : Z) (out : string) : Z * string :=
  match fuel with
  | O => (bits, out)
  | S fuel' =>
      if 5 <? bits then
        let bits' := bits - 5 in
        base32_drain fuel' buffer bits'
          (out ++ nth_char base32_alphabet (Z.land 31 (Z.shiftr buffer bits')))
      else (bits, out)
  end.

Fixpoint base32_loop (data : list Byte.byte) (buffer bits : Z) (out : string) : string :=
  match data with
  | [] =>
      if bits =? 0 then out
      else out ++ nth_char base32_alphabet (Z.land 31 (Z.shiftl buffer (5 - bits)))
  | b :: data' =>
      let buffer' := Z.lor (Z.shiftl buffer 8) (Z.of_N (Byte.to_N b)) in
      let '(bits', out') := base32_drain 3 buffer' (bits + 8) out in
      base32_loop data' buffer' bits' out'
  end.

Module CID.

(** A version 1 content identifier: its binary form and the digest of its
    multihash.  [decode(cid.multihash.bytes).digest] is [digest] for every
    CID that the multiformats package builds. *)
Record t : Type := mk { bytes : list Byte.byte; digest : list Byte.byte }.

(** [cid.toString(base16)] of a version 1 CID: the multibase prefix [f],
    then the bytes in lower-case hexadecimal.  (For a version 0 CID the
    call throws; the statements about roots are about version 1 CIDs.) *)
Definition toString_base16 (cid : t) : string :=
  "f" ++ uint8arrays_toString_base16 (bytes cid).

(** [cid.toString()]: the multibase prefix [b], then the bytes in
    lower-case base32 without padding. *)
Definition toString (cid : t) : string :=
  "b" ++ base32_loop (bytes cid) 0 0 EmptyString.

End CID.

(** A [Uint8Array] literal. *)
Definition Uint8Array (ns : list N) : list Byte.byte :=
  map (fun n => match Byte.of_N n with Some b => b | None => Byte.x00 end) ns.

(** ** The bounded caches *)

Module LRUMap.

Local Open Scope list_scope.

Section WithValues.

Context {V : Type}.

(** Modelled from the spec: the [LRUMap] class of the lru_map package,
    which the validator imports and which is not part of the sources.
    A cache has a fixed maximum entry count and strict
    least-recently-used eviction: inserting beyond capacity evicts the
    least-recently-touched entry first; a lookup touches the entry it
    finds.  The entries are kept oldest first. *)
Record t : Type := mk { limit : nat; entries : list (string * V) }.

(** Modelled from the spec: [new lru.LRUMap(limit)], an empty cache with a
    fixed maximum entry count. *)
Definition new (limit : nat) : t := mk limit [].

Fixpoint find (key : string) (es : list (string * V)) : option V :=
  match es with
  | [] => None
  | (k, v) :: es' => if String.eqb key k then Some v else find key es'
  end.

Fixpoint remove (key : string) (es : list (string * V)) : list (string * V) :=
  match es with
  | [] => []
  | (k, v) :: es' =>
      if String.eqb key k then remove key es' else (k, v) :: remove key es'
  end.

Definition size (m : t) : nat := List.length (entries m).

Definition keys (m : t) : list string := map fst (entries m).

(** Modelled from the spec: [m.get(key)] of the absent LRUMap class.  The
    value, or [undefined]; a hit becomes the most recently used entry. *)
Definition get (key : string) (m : t) : option V * t :=
  match find key (entries m) with
  | None => (None, m)
  | Some v => (Some v, mk (limit m) (remove key (entries m) ++ [(key, v)]))
  end.

(** Modelled from the spec: [m.set(key, value)] of the absent LRUMap class.
    The entry becomes the most recently used one; when a new key takes the
    cache over its limit, the least recently used entry is dropped.  Any
    value is stored, [null] included. *)
Definition set (key : string) (value : V) (m : t) : t :=
  match find key (entries m) with
  | Some _ => mk (limit m) (remove key (entries m) ++ [(key, value)])
  | None =>
      let es := entries m ++ [(key, value)] in
      if (limit m <? List.length es)%nat then mk (limit m) (tl es)
      else mk (limit m) es
  end.

(** What a lookup would return, without touching the cache. *)
Definition peek (key : string) (m : t) : option V := find key (entries m).

(** The entry that the next eviction removes. *)
Definition oldest (m : t) : option (string * V) := hd_error (entries m).

(** Every key is stored once and the limit is respected. *)
Definition wf (m : t) : Prop :=
  NoDup (keys m) /\ (size m <= limit m)%nat.

End WithValues.

Arguments t : clear implicits.

End LRUMap.

(** ** Chain records and the provider *)

Module TransactionResponse.
(** The fields of an ethers [TransactionResponse] that the validator reads. *)
Record t : Type := mk { data : string; blockHash : string; blockNumber : Z }.
End TransactionResponse.

Module Block.
(** The field of an ethers [Block] that the validator reads. *)
Record t : Type := mk { timestamp : Z }.
End Block.

Module AnchorProof.
Record t : Type := mk {
  chainId : string;
  txHash : CID.t;
  root : CID.t;
  blockNumber : Z;
  blockTimestamp : Z
}.
End AnchorProof.

(** Ethereum network configuration. *)
Record EthNetwork : Type := {
  network : string;
  chain : string;
  chainId : Z;
  networkId : Z;
  type : string
}.

(** Maps some of Ethereum chain IDs to network configuration. *)
Definition ETH_CHAIN_ID_MAPPINGS (key : string) : option EthNetwork :=
  if String.eqb key "eip155:1" then
    Some {| network := "mainnet"; chain := "ETH"; chainId := 1; networkId := 1; type := "Production" |}
  else if String.eqb key "eip155:3" then
    Some {| network := "ropsten"; chain := "ETH"; chainId := 3; networkId := 3; type := "Test" |}
  else if String.eqb key "eip155:4" then
    Some {| network := "rinkeby"; chain := "ETH"; chainId := 4; networkId := 4; type := "Test" |}
  else None.

Definition BASE_CHAIN_ID : string := "eip155".
Definition MAX_PROVIDERS_COUNT : nat := 100.
Definition TRANSACTION_CACHE_SIZE : nat := 50.
Definition BLOCK_CACHE_SIZE : nat := 50.

(** The two ways the validator builds an ethers provider:
    [new providers.JsonRpcProvider(url)] and
    [providers.getDefaultProvider(network)]. *)
Inductive Provider : Type :=
| JsonRpcProvider (url : string)
| DefaultProvider (network : string).

(** What an awaited provider call settles to: a value, or a rejection with
    the message of its error. *)
Inductive Promise (A : Type) : Type :=
| Resolved (a : A)
| Rejected (message : string).
Arguments Resolved {A} a.
Arguments Rejected {A} message.

(** The answers of the chain endpoints during one call of the validator.
    An empty answer ([null]) is [Resolved None]. *)
Record Network : Type := {
  getNetwork : Provider -> Promise Z;
  getTransaction : Provider -> string -> Promise (option TransactionResponse.t);
  getBlock : Provider -> string -> Promise (option Block.t)
}.

(** What a call leaves behind for an observer: the provider calls it made
    and the lines it sent to the logger. *)
Inductive Event : Type :=
| CallGetNetwork (p : Provider)
| CallGetTransaction (p : Provider) (txHash : string)
| CallGetBlock (p : Provider) (blockHash : string)
| LoggerErr (message : string).

Definition is_network_call (e : Event) : bool :=
  match e with
  | LoggerErr _ => false
  | _ => true
  end.

Definition network_calls (trace : list Event) : list Event :=
  filter is_network_call trace.

(** ** The validator object *)

Record EthereumAnchorValidator : Type := {
  ethereumRpcEndpoint : option string;
  _chainId : option string;
  providersCache : LRUMap.t Provider;
  _transactionCache : LRUMap.t (option TransactionResponse.t);
  _blockCache : LRUMap.t (option Block.t)
}.

(** [new EthereumAnchorValidator(ethereumRpcEndpoint, logger)]. *)
Definition constructor (ethereumRpcEndpoint : option string) : EthereumAnchorValidator :=
  {| ethereumRpcEndpoint := ethereumRpcEndpoint;
     _chainId := None;
     providersCache := LRUMap.new MAX_PROVIDERS_COUNT;
     _transactionCache := LRUMap.new TRANSACTION_CACHE_SIZE;
     _blockCache := LRUMap.new BLOCK_CACHE_SIZE |}.

(** ** Method calls: state, exceptions and trace *)

(** How a method call ends: it returns, or it throws an [Error] with a
    message. *)
Inductive Completion (A : Type) : Type :=
| Return (a : A)
| Throw (message : string).
Arguments Return {A} a.
Arguments Throw {A} message.

(** A method of the validator: from the object before the call to the way
    the call ends, the object after the call and the trace of the call.
    The object keeps the changes made before a throw. *)
Definition M (A : Type) : Type :=
  EthereumAnchorValidator -> Completion A * EthereumAnchorValidator * list Event.

Definition ret {A} (a : A) : M A := fun this => (Return a, this, []).

Definition throw {A} (message : string) : M A := fun this => (Throw message, this, []).

Definition bind {A B} (m : M A) (k : A -> M B) : M B :=
  fun this =>
    match m this with
    | (Return a, this', tr) =>
        let '(r, this'', tr') := k a this' in (r, this'', (tr ++ tr')%list)
    | (Throw e, this', tr) => (Throw e, this', tr)
    end.

(** [try { m } catch (e) { handler e }]. *)
Definition try_catch {A} (m : M A) (handler : string -> M A) : M A :=
  fun this =>
    match m this with
    | (Throw e, this', tr) =>
        let '(r, this'', tr') := handler e this' in (r, this'', (tr ++ tr')%list)
    | done => done
    end.

Definition this_ : M EthereumAnchorValidator := fun this => (Return this, this, []).

Definition emit (e : Event) : M unit := fun _this => (Return tt, _this, [e]).

(** [await call]: the call is made, then its promise settles. *)
Definition await {A} (call : Event) (p : Promise A) : M A :=
  fun this =>
    match p with
    | Resolved a => (Return a, this, [call])
    | Rejected message => (Throw message, this, [call])
    end.

Notation "x <- m ;; k" := (bind m (fun x => k))
  (at level 61, m at next level, right associativity).
Notation "m ;;; k" := (bind m (fun _ => k))
  (at level 61, right associativity).

Definition result {A} (o : Completion A * EthereumAnchorValidator * list Event) : Completion A :=
  fst (fst o).
Definition after {A} (o : Completion A * EthereumAnchorValidator * list Event) : EthereumAnchorValidator :=
  snd (fst o).
Definition trace {A} (o : Completion A * EthereumAnchorValidator * list Event) : list Event :=
  snd o.

(** Field updates on [this]. *)
Definition with_chainId (c : option string) (this : EthereumAnchorValidator) :=
  {| ethereumRpcEndpoint := ethereumRpcEndpoint this;
     _chainId := c;
     providersCache := providersCache this;
     _transactionCache := _transactionCache this;
     _blockCache := _blockCache this |}.

Definition with_providersCache (c : LRUMap.t Provider) (this : EthereumAnchorValidator) :=
  {| ethereumRpcEndpoint := ethereumRpcEndpoint this;
     _chainId := _chainId this;
     providersCache := c;
     _transactionCache := _transactionCache this;
     _blockCache := _blockCache this |}.

Definition with_transactionCache (c : LRUMap.t (option TransactionResponse.t))
    (this : EthereumAnchorValidator) :=
  {| ethereumRpcEndpoint := ethereumRpcEndpoint this;
     _chainId := _chainId this;
     providersCache := providersCache this;
     _transactionCache := c;
     _blockCache := _blockCache this |}.

Definition with_blockCache (c : LRUMap.t (option Block.t)) (this : EthereumAnchorValidator) :=
  {| ethereumRpcEndpoint := ethereumRpcEndpoint this;
     _chainId := _chainId this;
     providersCache := providersCache this;
     _transactionCache := _transactionCache this;
     _blockCache := c |}.

Definition providersCache_get (key : string) : M (option Provider) :=
  fun this =>
    let '(v, c) := LRUMap.get key (providersCache this) in
    (Return v, with_providersCache c this, []).

Definition providersCache_set (key : string) (p : Provider) : M unit :=
  fun this => (Return tt, with_providersCache (LRUMap.set key p (providersCache this)) this, []).

Definition _transactionCache_get (key : string) : M (option (option TransactionResponse.t)) :=
  fun this =>
    let '(v, c) := LRUMap.get key (_transactionCache this) in
    (Return v, with_transactionCache c this, []).

Definition _transactionCache_set (key : string) (t : option TransactionResponse.t) : M unit :=
  fun this =>
    (Return tt, with_transactionCache (LRUMap.set key t (_transactionCache this)) this, []).

Definition _blockCache_get (key : string) : M (option (option Block.t)) :=
  fun this =>
    let '(v, c) := LRUMap.get key (_blockCache this) in
    (Return v, with_blockCache c this, []).

Definition _blockCache_set (key : string) (b : option Block.t) : M unit :=
  fun this =>
    (Return tt, with_blockCache (LRUMap.set key b (_blockCache this)) this, []).

(** A cached value that may be [undefined] (no entry) or [null] (an entry
    without a record): both are falsy. *)
Definition nullable {A} (v : option (option A)) : option A :=
  match v with
  | Some (Some a) => Some a
  | _ => None
  end.

(** ** The methods of [EthereumAnchorValidator] *)

Definition unsupported_namespace_message (chain : string) : string :=
  "Unsupported chainId '" ++ chain ++ "' - must be eip155 namespace".

Definition unsupported_chain_message (chain : string) (configured : option string) : string :=
  "Unsupported chainId '" ++ chain ++ "'. Configured anchor service only supports '"
    ++ JS.show_nullable configured ++ "'".

Definition no_provider_message (chain : string) : string :=
  "No ethereum provider available for chainId " ++ chain.

(** Gets Ethereum provider based on chain ID. *)
Definition _getEthProvider (chain : string) : M Provider :=
  fromCache <- providersCache_get chain ;;
  match fromCache with
  | Some p => ret p
  | None =>
      if negb (JS.startsWith chain "eip155") then
        throw (unsupported_namespace_message chain)
      else
        this <- this_ ;;
        if JS.truthy (_chainId this)
           && negb (String.eqb (JS.show_nullable (_chainId this)) chain) then
          throw (unsupported_chain_message chain (_chainId this))
        else if JS.truthy (ethereumRpcEndpoint this) then
          let provider := JsonRpcProvider (JS.show_nullable (ethereumRpcEndpoint this)) in
          providersCache_set chain provider ;;;
          ret provider
        else
          match ETH_CHAIN_ID_MAPPINGS chain with
          | None => throw (no_provider_message chain)
          | Some ethNetwork =>
              let provider := DefaultProvider (network ethNetwork) in
              providersCache_set chain provider ;;;
              ret provider
          end
  end.

Definition wrong_provider_message (provider_chain : string) (configured : option string) : string :=
  "Configured eth provider is for chainId " ++ provider_chain
    ++ ", but our anchor service uses chain " ++ JS.show_nullable configured.

(** [init(chainId)]. *)
Definition init (net : Network) (chainId : option string) : M unit :=
  if negb (JS.truthy chainId) then ret tt
  else
    let chainId := JS.show_nullable chainId in
    provider <- _getEthProvider chainId ;;
    provider_chain_idnum <- await (CallGetNetwork provider) (getNetwork net provider) ;;
    let provider_chain := BASE_CHAIN_ID ++ ":" ++ JS.show_Z provider_chain_idnum in
    this <- this_ ;;
    if negb (String.eqb chainId provider_chain) then
      throw (wrong_provider_message provider_chain (_chainId this))
    else
      fun this => (Return tt, with_chainId (Some chainId) this, []).

Definition try_rpc_endpoint : string := ". Try providing an ethereum rpc endpoint".

Definition failed_transaction_message (txHash : string) : string :=
  "Failed to load transaction data for transaction " ++ txHash.

Definition failed_block_message (transaction : TransactionResponse.t) : string :=
  "Failed to load transaction data for block with block number "
    ++ JS.show_Z (TransactionResponse.blockNumber transaction)
    ++ " and block hash " ++ TransactionResponse.blockHash transaction.

Definition loading_error_message (txHash e : string) : string :=
  "Error loading transaction info for transaction " ++ txHash
    ++ " from Ethereum: Error: " ++ e.

(** Given a chainId and a transaction hash, loads information from ethereum
    about the transaction and block the transaction was included in. *)
Definition _getTransactionAndBlockInfo (net : Network) (chainId txHash : string)
  : M (TransactionResponse.t * Block.t) :=
  try_catch
    (provider <- _getEthProvider chainId ;;
     cached <- _transactionCache_get txHash ;;
     transaction <-
       match nullable cached with
       | Some t => ret (Some t)
       | None =>
           t <- await (CallGetTransaction provider txHash) (getTransaction net provider txHash) ;;
           _transactionCache_set txHash t ;;;
           ret t
       end ;;
     this <- this_ ;;
     match transaction with
     | None =>
         if negb (JS.truthy (ethereumRpcEndpoint this)) then
           throw (failed_transaction_message txHash ++ try_rpc_endpoint)
         else
           throw (failed_transaction_message txHash)
     | Some transaction =>
         cached <- _blockCache_get (TransactionResponse.blockHash transaction) ;;
         block <-
           match nullable cached with
           | Some b => ret (Some b)
           | None =>
               b <- await (CallGetBlock provider (TransactionResponse.blockHash transaction))
                      (getBlock net provider (TransactionResponse.blockHash transaction)) ;;
               _blockCache_set (TransactionResponse.blockHash transaction) b ;;;
               ret b
           end ;;
         match block with
         | None =>
             if negb (JS.truthy (ethereumRpcEndpoint this)) then
               throw (failed_block_message transaction ++ try_rpc_endpoint)
             else
               throw (failed_block_message transaction)
         | Some block => ret (transaction, block)
         end
     end)
    (fun e =>
       emit (LoggerErr (loading_error_message txHash e)) ;;;
       throw e).

Definition root_not_in_transaction_message (anchorProof : AnchorProof.t) : string :=
  "The root CID " ++ CID.toString (AnchorProof.root anchorProof)
    ++ " is not in the transaction".

Definition block_numbers_message (proofBlockNumber txBlockNumber : Z) : string :=
  "Block numbers are not the same. AnchorProof blockNumber: "
    ++ JS.show_Z proofBlockNumber ++ ", eth txn blockNumber: " ++ JS.show_Z txBlockNumber.

Definition block_timestamps_message (proofTimestamp blockTimestamp : Z) : string :=
  "Block timestamps are not the same. AnchorProof blockTimestamp: "
    ++ JS.show_Z proofTimestamp ++ ", eth txn blockTimestamp: " ++ JS.show_Z blockTimestamp.

(** The transaction hash that the validator asks the chain for. *)
Definition txHash_of (anchorProof : AnchorProof.t) : string :=
  "0x" ++ uint8arrays_toString_base16 (CID.digest (AnchorProof.txHash anchorProof)).

Definition txValueHexNumber (transaction : TransactionResponse.t) : JS.Number :=
  JS.parseInt16 (TransactionResponse.data transaction).

Definition rootValueHexNumber (anchorProof : AnchorProof.t) : JS.Number :=
  JS.parseInt16 ("0x" ++ CID.toString_base16 (AnchorProof.root anchorProof)).

(** Validate anchor proof on the chain. *)
Definition validateChainInclusion (net : Network) (anchorProof : AnchorProof.t) : M unit :=
  let txHash := txHash_of anchorProof in
  fetched <- _getTransactionAndBlockInfo net (AnchorProof.chainId anchorProof) txHash ;;
  let '(transaction, block) := fetched in
  if JS.strict_neq (txValueHexNumber transaction) (rootValueHexNumber anchorProof) then
    throw (root_not_in_transaction_message anchorProof)
  else if negb (AnchorProof.blockNumber anchorProof =? TransactionResponse.blockNumber transaction) then
    throw (block_numbers_message (AnchorProof.blockNumber anchorProof)
             (TransactionResponse.blockNumber transaction))
  else if negb (AnchorProof.blockTimestamp anchorProof =? Block.timestamp block) then
    throw (block_timestamps_message (AnchorProof.blockTimestamp anchorProof)
             (Block.timestamp block))
  else ret tt.

(** The validators that a program can hold: a fresh one, and whatever a
    call of [init] or [validateChainInclusion] leaves behind, whether the
    call returned or threw. *)
Inductive reachable : EthereumAnchorValidator -> Prop :=
| reachable_new : forall endpoint, reachable (constructor endpoint)
| reachable_init : forall this net chainId,
    reachable this -> reachable (after (init net chainId this))
| reachable_validate : forall this net anchorProof,
    reachable this -> reachable (after (validateChainInclusion net anchorProof this)).

(** The validators of a service that was configured for the chain [c] at
    init time: [init(c)] returned on the fresh validator; whatever is
    called afterwards, the validator stays one of them. *)
Inductive configured_for (c : string) : EthereumAnchorValidator -> Prop :=
| configured_init : forall endpoint net,
    JS.truthy (Some c) = true ->
    result (init net (Some c) (constructor endpoint)) = Return tt ->
    configured_for c (after (init net (Some c) (constructor endpoint)))
| configured_init_again : forall this net chainId,
    configured_for c this ->
    configured_for c (after (init net chainId this))
| configured_validate : forall this net anchorProof,
    configured_for c this ->
    configured_for c (after (validateChainInclusion net anchorProof this)).

(** ** Streams and conflict resolution *)

Module Stream.

Local Open Scope list_scope.

Inductive AnchorStatus : Type := NOT_REQUESTED | PENDING | ANCHORED | FAILED.

Inductive CommitKind : Type :=
| Signed (payload : string)
| Anchor (proof : AnchorProof.t).

(** A commit: its own address, the link to the previous commit ([None]
    for genesis) and what it carries. *)
Record Commit : Type := {
  address : string;
  prev : option string;
  kind : CommitKind
}.

(** The log of one stream, oldest commit first, and its anchor status. *)
Record StreamState : Type := {
  log : list Commit;
  anchorStatus : AnchorStatus
}.

Definition tip (s : StreamState) : option Commit := last (map Some (log s)) None.

Inductive Decision : Type :=
| Accept
| Reject (reason : string)
| Fork.

Definition stale_tip : string := "stale tip: conflict resolution rejected the commit".

Definition anchor_not_validated : string := "anchor proof did not pass validation".

(** Modelled from the spec: [resolve(localTip, candidateCommit)] of the
    conflict resolver, whose code is not part of the sources (only the
    daemon test that exercises it is).  A candidate is accepted only if
    its previous-commit link equals the address of the local tip;
    otherwise the view of the submitter is stale and the candidate is
    rejected.  An anchor commit is accepted without the link check once
    its proof passed validation. *)
Definition resolve (validated : AnchorProof.t -> bool) (localTip : string)
    (candidate : Commit) : Decision :=
  match kind candidate with
  | Anchor proof =>
      if validated proof then Accept else Reject anchor_not_validated
  | Signed _ =>
      match prev candidate with
      | Some link => if String.eqb link localTip then Accept else Reject stale_tip
      | None => Reject stale_tip
      end
  end.

(** Modelled from the spec: the accept path, which appends the commit and
    updates the derived status in one step; a commit that is not accepted
    leaves the state as it was. *)
Definition applyCommit (validated : AnchorProof.t -> bool) (s : StreamState)
    (candidate : Commit) : Decision * StreamState :=
  match tip s with
  | None => (Reject stale_tip, s)
  | Some t =>
      match resolve validated (address t) candidate with
      | Accept =>
          (Accept,
           {| log := log s ++ [candidate];
              anchorStatus :=
                match kind candidate with
                | Anchor _ => ANCHORED
                | Signed _ => NOT_REQUESTED
                end |})
      | d => (d, s)
      end
  end.

(** An update commit is a signed commit that links to a previous one. *)
Definition is_update (c : Commit) : Prop :=
  (exists payload, kind c = Signed payload) /\ prev c <> None.

End Stream.

(** ** A concrete chain, used to run the validator *)

Module Scenario.

(** A dag-cbor root with a short digest. *)
Definition root : CID.t :=
  CID.mk (Uint8Array [1; 113; 18; 4; 222; 173; 190; 239]%N) (Uint8Array [222; 173; 190; 239]%N).

Definition txCid : CID.t :=
  CID.mk (Uint8Array [1; 147; 1; 27; 2; 171; 205]%N) (Uint8Array [171; 205]%N).

Definition proof : AnchorProof.t :=
  AnchorProof.mk "eip155:1" txCid root 100 1600000000.

Definition transaction : TransactionResponse.t :=
  TransactionResponse.mk "0xf01711204deadbeef" "0xb10c" 100.

Definition block : Block.t := Block.mk 1600000000.

(** The chain holds the transaction and its block. *)
Definition net : Network :=
  {| getNetwork := fun _ => Resolved 1;
     getTransaction := fun _ h =>
       Resolved (if String.eqb h "0xabcd" then Some transaction else None);
     getBlock := fun _ h =>
       Resolved (if String.eqb h "0xb10c" then Some block else None) |}.

(** An endpoint that answers every lookup with an empty result. *)
Definition silent : Network :=
  {| getNetwork := fun _ => Resolved 1;
     getTransaction := fun _ _ => Resolved None;
     getBlock := fun _ _ => Resolved None |}.

(** The transaction is found, its block is not. *)
Definition blockless : Network :=
  {| getNetwork := fun _ => Resolved 1;
     getTransaction := getTransaction net;
     getBlock := fun _ _ => Resolved None |}.

Definition rpc : option string := Some "http://localhost:8545".

(** An endpoint that knows a transaction for every hash. *)
Definition generous : Network :=
  {| getNetwork := fun _ => Resolved 1;
     getTransaction := fun _ _ => Resolved (Some transaction);
     getBlock := fun _ _ => Resolved (Some block) |}.

(** The validator after [n] lookups of different transactions. *)
Fixpoint after_lookups (n : nat) (this : EthereumAnchorValidator) : EthereumAnchorValidator :=
  match n with
  | O => this
  | S n' =>
      after (_getTransactionAndBlockInfo generous "eip155:1"
               ("0x" ++ JS.show_Z (Z.of_nat n)) (after_lookups n' this))
  end.

End Scenario.

Module DaemonTest.

(** The scenario of the test [Throw on rejected update]: the node holds
    the genesis commit and an anchor commit that the stale handle has not
    seen; the handle submits an update that links to the genesis commit. *)
Definition genesis : Stream.Commit :=
  {| Stream.address := "bagcqcera-genesis"; Stream.prev := None;
     Stream.kind := Stream.Signed "{test: 123}" |}.

Definition anchor : Stream.Commit :=
  {| Stream.address := "bafyrei-anchor"; Stream.prev := Some "bagcqcera-genesis";
     Stream.kind := Stream.Anchor Scenario.proof |}.

Definition rejected : Stream.Commit :=
  {| Stream.address := "bagcqcera-update"; Stream.prev := Some "bagcqcera-genesis";
     Stream.kind := Stream.Signed "{test: 'rejected'}" |}.

Definition streamOg : Stream.StreamState :=
  {| Stream.log := [genesis]; Stream.anchorStatus := Stream.NOT_REQUESTED |}.

Definition streamCopy : Stream.StreamState :=
  snd (Stream.applyCommit (fun _ => true) streamOg anchor).

End DaemonTest.

(** ** Notions used in the statements *)

(** The two cache-or-fetch blocks of [_getTransactionAndBlockInfo], named
    so that they can be reasoned about one at a time. *)
Definition load_transaction (net : Network) (provider : Provider) (txHash : string)
  : M (option TransactionResponse.t) :=
  cached <- _transactionCache_get txHash ;;
  match nullable cached with
  | Some t => ret (Some t)
  | None =>
      t <- await (CallGetTransaction provider txHash) (getTransaction net provider txHash) ;;
      _transactionCache_set txHash t ;;;
      ret t
  end.

Definition load_block (net : Network) (provider : Provider) (blockHash : string)
  : M (option Block.t) :=
  cached <- _blockCache_get blockHash ;;
  match nullable cached with
  | Some b => ret (Some b)
  | None =>
      b <- await (CallGetBlock provider blockHash) (getBlock net provider blockHash) ;;
      _blockCache_set blockHash b ;;;
      ret b
  end.

Definition preserves {A} (P : EthereumAnchorValidator -> Prop) (m : M A) : Prop :=
  forall this, P this -> P (after (m this)).

(** What holds of every validator a program can hold: the caches keep their
    limits and store every key once, and the providers cache only holds
    chains that passed the checks of [_getEthProvider]. *)
Definition consistent (this : EthereumAnchorValidator) : Prop :=
  LRUMap.wf (providersCache this) /\
  LRUMap.limit (providersCache this) = MAX_PROVIDERS_COUNT /\
  LRUMap.wf (_transactionCache this) /\
  LRUMap.limit (_transactionCache this) = TRANSACTION_CACHE_SIZE /\
  LRUMap.wf (_blockCache this) /\
  LRUMap.limit (_blockCache this) = BLOCK_CACHE_SIZE /\
  (forall k, In k (LRUMap.keys (providersCache this)) ->
     JS.startsWith k "eip155" = true /\
     (JS.truthy (ethereumRpcEndpoint this) = false -> ETH_CHAIN_ID_MAPPINGS k <> None)).

(** The validator is configured for the chain [c] and holds no provider for
    another chain. *)
Definition serves_only (c : string) (this : EthereumAnchorValidator) : Prop :=
  _chainId this = Some c /\
  JS.truthy (Some c) = true /\
  (forall k, In k (LRUMap.keys (providersCache this)) -> k = c).

(** The transaction that a call serves for a transaction hash: the cached
    record, or else the record that the provider answers. *)
Definition served_transaction (net : Network) (p : Provider) (txHash : string)
    (this : EthereumAnchorValidator) (transaction : TransactionResponse.t) : Prop :=
  nullable (LRUMap.peek txHash (_transactionCache this)) = Some transaction \/
  (nullable (LRUMap.peek txHash (_transactionCache this)) = None /\
   getTransaction net p txHash = Resolved (Some transaction)).

Definition transaction_not_found_message (this : EthereumAnchorValidator) (txHash : string)
  : string :=
  if JS.truthy (ethereumRpcEndpoint this) then failed_transaction_message txHash
  else failed_transaction_message txHash ++ try_rpc_endpoint.

Definition block_not_found_message (this : EthereumAnchorValidator)
    (transaction : TransactionResponse.t) : string :=
  if JS.truthy (ethereumRpcEndpoint this) then failed_block_message transaction
  else failed_block_message transaction ++ try_rpc_endpoint.

(** The namespace part of a [namespace:reference] chain identifier. *)
Fixpoint chain_namespace (chain : string) : string :=
  match chain with
  | EmptyString => EmptyString
  | String c rest =>
      if Ascii.eqb c ":" then EmptyString else String c (chain_namespace rest)
  end.

(** ** Notions used in the further properties *)

(** The lines that a call sent to the logger. *)
Definition logger_lines (trace : list Event) : list Event :=
  filter (fun e => negb (is_network_call e)) trace.

(** The provider that [_getEthProvider] builds for a chain when it builds
    one: the provider of the RPC endpoint if the validator has one, else
    the default provider of the network that the table gives. *)
Definition expected_provider (endpoint : option string) (chain : string) : option Provider :=
  if JS.truthy endpoint then Some (JsonRpcProvider (JS.show_nullable endpoint))
  else
    match ETH_CHAIN_ID_MAPPINGS chain with
    | Some ethNetwork => Some (DefaultProvider (network ethNetwork))
    | None => None
    end.

(** All the providers that a validator can build give the same answers. *)
Definition single_view (endpoint : option string) (net : Network) : Prop :=
  forall chain chain' p p',
    expected_provider endpoint chain = Some p ->
    expected_provider endpoint chain' = Some p' ->
    (forall h, getTransaction net p h = getTransaction net p' h) /\
    (forall h, getBlock net p h = getBlock net p' h).

(** The validators that proofs were validated with, all against the same
    answers of the chain, and that [init] was never called on. *)
Inductive validated_under (net : Network) (endpoint : option string)
  : EthereumAnchorValidator -> Prop :=
| validated_new : validated_under net endpoint (constructor endpoint)
| validated_step : forall this anchorProof,
    validated_under net endpoint this ->
    validated_under net endpoint (after (validateChainInclusion net anchorProof this)).

(** The records that the caches hold for a key; an entry without a record
    counts as none. *)
Definition cached_transaction (this : EthereumAnchorValidator) (txHash : string)
  : option TransactionResponse.t :=
  nullable (LRUMap.peek txHash (_transactionCache this)).

Definition cached_block (this : EthereumAnchorValidator) (blockHash : string)
  : option Block.t :=
  nullable (LRUMap.peek blockHash (_blockCache this)).

(** The call for the block of a transaction, if the block is not cached. *)
Definition block_call (this : EthereumAnchorValidator) (p : Provider)
    (transaction : TransactionResponse.t) : list Event :=
  match cached_block this (TransactionResponse.blockHash transaction) with
  | Some _ => []
  | None => [CallGetBlock p (TransactionResponse.blockHash transaction)]
  end.

(** The provider calls that the caches of a validator leave to be made for
    a chain id and a transaction hash. *)
Definition calls_needed (net : Network) (this : EthereumAnchorValidator)
    (chainId txHash : string) : list Event :=
  match result (_getEthProvider chainId this) with
  | Throw _ => []
  | Return p =>
      match cached_transaction this txHash with
      | Some transaction => block_call this p transaction
      | None =>
          CallGetTransaction p txHash ::
          match getTransaction net p txHash with
          | Resolved (Some transaction) => block_call this p transaction
          | _ => []
          end
      end
  end.

(** The comparisons that end [validateChainInclusion], for a proof and the
    records that were loaded for it. *)
Definition verdict (anchorProof : AnchorProof.t) (transaction : TransactionResponse.t)
    (block : Block.t) : Completion unit :=
  if JS.strict_neq (txValueHexNumber transaction) (rootValueHexNumber anchorProof) then
    Throw (root_not_in_transaction_message anchorProof)
  else if negb (AnchorProof.blockNumber anchorProof =? TransactionResponse.blockNumber transaction) then
    Throw (block_numbers_message (AnchorProof.blockNumber anchorProof)
             (TransactionResponse.blockNumber transaction))
  else if negb (AnchorProof.blockTimestamp anchorProof =? Block.timestamp block) then
    Throw (block_timestamps_message (AnchorProof.blockTimestamp anchorProof)
             (Block.timestamp block))
  else Return tt.

(** Every cached provider is the one that the validator builds for its
    chain. *)
Definition providers_expected (this : EthereumAnchorValidator) : Prop :=
  forall k p,
    In (k, p) (LRUMap.entries (providersCache this)) ->
    expected_provider (ethereumRpcEndpoint this) k = Some p.

(** Every cached record is an answer of the chain for its key. *)
Definition records_from (net : Network) (this : EthereumAnchorValidator) : Prop :=
  (forall h t,
     In (h, Some t) (LRUMap.entries (_transactionCache this)) ->
     exists chain p,
       expected_provider (ethereumRpcEndpoint this) chain = Some p /\
       getTransaction net p h = Resolved (Some t)) /\
  (forall h b,
     In (h, Some b) (LRUMap.entries (_blockCache this)) ->
     exists chain p,
       expected_provider (ethereumRpcEndpoint this) chain = Some p /\
       getBlock net p h = Resolved (Some b)).

(** What a validator without caches and without a configured chain id
    answers to a proof: the checks of the chain id, the answers of the
    provider, the verdict. *)
Definition uncached_result (endpoint : option string) (net : Network)
    (anchorProof : AnchorProof.t) : Completion unit :=
  let chain := AnchorProof.chainId anchorProof in
  let txHash := txHash_of anchorProof in
  if negb (JS.startsWith chain "eip155") then Throw (unsupported_namespace_message chain)
  else
    match expected_provider endpoint chain with
    | None => Throw (no_provider_message chain)
    | Some p =>
        match getTransaction net p txHash with
        | Rejected e => Throw e
        | Resolved None => Throw (transaction_not_found_message (constructor endpoint) txHash)
        | Resolved (Some transaction) =>
            match getBlock net p (TransactionResponse.blockHash transaction) with
            | Rejected e => Throw e
            | Resolved None =>
                Throw (block_not_found_message (constructor endpoint) transaction)
            | Resolved (Some block) => verdict anchorProof transaction block
            end
        end
    end.

Module Cases.

(** An endpoint that cannot be reached: every call is rejected. *)
Definition offline : Network :=
  {| getNetwork := fun _ => Rejected "could not detect network";
     getTransaction := fun _ _ => Rejected "missing response";
     getBlock := fun _ _ => Rejected "missing response" |}.

(** The transaction is found, the call for its block is rejected. *)
Definition block_offline : Network :=
  {| getNetwork := fun _ => Resolved 1;
     getTransaction := getTransaction Scenario.net;
     getBlock := fun _ _ => Rejected "missing response" |}.

(** An endpoint of the ropsten chain. *)
Definition ropsten : Network :=
  {| getNetwork := fun _ => Resolved 3;
     getTransaction := getTransaction Scenario.net;
     getBlock := getBlock Scenario.net |}.

(** The proof of the scenario, claimed for another chain. *)
Definition proof_on (chainId : string) : AnchorProof.t :=
  AnchorProof.mk chainId Scenario.txCid Scenario.root 100 1600000000.

End Cases.

(** ** Notions used in the validation theorem *)

(** A version 1 CID: its binary form begins with the version byte 1.  A
    version 0 CID is a bare sha2-256 multihash, begins with the byte 0x12
    and has no base16 form: [toString(base16)] throws for it.
    [CID.toString_base16] and [CID.toString] are the forms of a version 1
    CID. *)
Definition is_version_1 (cid : CID.t) : bool :=
  match CID.bytes cid with
  | b :: _ => N.eqb (Byte.to_N b) 1
  | [] => false
  end.

(** The integer that [parseInt(s, 16)] reads, before it is converted to a
    Number: the sign and the hexadecimal digits, nothing rounded. *)
Definition mathInt16 (s : string) : option Z :=
  let '(neg, s1) := JS.strip_sign (JS.trim_start s) in
  match JS.digits16 (JS.strip_0x s1) 0 false with
  | None => None
  | Some m => Some (if neg then - m else m)
  end.

(** The block that a call serves for a block hash: the cached record, or
    else the record that the provider answers. *)
Definition served_block (net : Network) (p : Provider) (blockHash : string)
    (this : EthereumAnchorValidator) (block : Block.t) : Prop :=
  cached_block this blockHash = Some block \/
  (cached_block this blockHash = None /\
   getBlock net p blockHash = Resolved (Some block)).

Module Forged.

(** A dag-cbor root with a sha2-256 digest, and a second CID whose digest
    differs from it after the first four bytes. *)
Definition root : CID.t :=
  CID.mk (Uint8Array ([1; 113; 18; 32; 222; 173; 190; 239] ++ repeat 17 28%nat)%list%N)
         (Uint8Array ([222; 173; 190; 239] ++ repeat 17 28%nat)%list%N).

Definition other : CID.t :=
  CID.mk (Uint8Array ([1; 113; 18; 32; 222; 173; 190; 239] ++ repeat 34 28%nat)%list%N)
         (Uint8Array ([222; 173; 190; 239] ++ repeat 34 28%nat)%list%N).

Definition proof : AnchorProof.t :=
  AnchorProof.mk "eip155:1" Scenario.txCid root 100 1600000000.

(** The transaction carries the second CID, not the root. *)
Definition transaction : TransactionResponse.t :=
  TransactionResponse.mk ("0x" ++ CID.toString_base16 other) "0xb10c" 100.

Definition net : Network :=
  {| getNetwork := fun _ => Resolved 1;
     getTransaction := fun _ _ => Resolved (Some transaction);
     getBlock := fun _ _ => Resolved (Some Scenario.block) |}.

(** Only the mainnet knows the transaction of the scenario. *)
Definition mainnet_only : Network :=
  {| getNetwork := fun _ => Resolved 1;
     getTransaction := fun p h =>
       match p with
       | DefaultProvider "mainnet" => getTransaction Scenario.net p h
       | _ => Resolved None
       end;
     getBlock := fun p h =>
       match p with
       | DefaultProvider "mainnet" => getBlock Scenario.net p h
       | _ => Resolved None
       end |}.

End Forged.

(** ** Histories of a cache *)

Module LRUHistory.

Local Open Scope list_scope.

Section WithValues.

Context {V : Type}.

(** The two operations that the validator performs on its caches. *)
Inductive op : Type :=
| Lookup (key : string)
| Store (key : string) (value : V).

Definition apply (o : op) (m : LRUMap.t V) : LRUMap.t V :=
  match o with
  | Lookup k => snd (LRUMap.get k m)
  | Store k v => LRUMap.set k v m
  end.

(** The cache after a sequence of operations, the first one first. *)
Definition run (ops : list op) (m : LRUMap.t V) : LRUMap.t V :=
  fold_left (fun m o => apply o m) ops m.

(** A cache with a history: what a sequence of lookups and stores makes of
    the empty cache. *)
Definition built (limit : nat) (m : LRUMap.t V) : Prop :=
  exists ops, m = run ops (LRUMap.new limit).

(** An operation touches a key when it stores a value under it, or looks
    it up and finds it. *)
Definition touches (m : LRUMap.t V) (o : op) (k : string) : bool :=
  match o with
  | Store k' _ => String.eqb k k'
  | Lookup k' =>
      String.eqb k k' &&
      match LRUMap.peek k' m with
      | Some _ => true
      | None => false
      end
  end.

(** The position, in a history that starts at position [i] on the cache
    [m], of the last operation that touches the key [k]; [acc] when there
    is none. *)
Fixpoint last_touch_from (ops : list op) (m : LRUMap.t V) (i : nat) (acc : option nat)
    (k : string) : option nat :=
  match ops with
  | [] => acc
  | o :: rest =>
      last_touch_from rest (apply o m) (S i) (if touches m o k then Some i else acc) k
  end.

(** When the key [k] was last touched in the history [ops] of a cache that
    started empty. *)
Definition last_touch (limit : nat) (ops : list op) (k : string) : option nat :=
  last_touch_from ops (LRUMap.new limit) 0 None k.

End WithValues.

Arguments op : clear implicits.

(** Both keys were touched, the first one before the second. *)
Definition earlier (a b : option nat) : Prop :=
  match a, b with
  | Some x, Some y => (x < y)%nat
  | _, _ => False
  end.

(** The keys are listed from the one touched least recently to the one
    touched most recently. *)
Fixpoint in_touch_order (T : string -> option nat) (ks : list string) : Prop :=
  match ks with
  | [] => True
  | k :: rest => (forall k', In k' rest -> earlier (T k) (T k')) /\ in_touch_order T rest
  end.

(** Every key is listed once, in the order of the last touches, and every
    listed key was touched before position [i]. *)
Definition touch_invariant (T : string -> option nat) (i : nat) (ks : list string) : Prop :=
  NoDup ks /\
  in_touch_order T ks /\
  (forall k, In k ks -> exists t, T k = Some t /\ (t < i)%nat).

End LRUHistory.

(** The caches of a validator as caches with a history. *)
Definition caches_built (this : EthereumAnchorValidator) : Prop :=
  LRUHistory.built MAX_PROVIDERS_COUNT (providersCache this) /\
  LRUHistory.built TRANSACTION_CACHE_SIZE (_transactionCache this) /\
  LRUHistory.built BLOCK_CACHE_SIZE (_blockCache this).

(** * Properties *)

(** ** The model at work *)

Example parseInt16_ff : JS.parseInt16 "0xff" = JS.Num 255.
Proof. reflexivity. Qed.

Example parseInt16_empty_payload : JS.parseInt16 "0x" = JS.NaN.
Proof. reflexivity. Qed.

Example parseInt16_rounds :
  JS.parseInt16 "0x20000000000001" = JS.Num 9007199254740992.
Proof. vm_compute. reflexivity. Qed.

Example show_Z_1234 : JS.show_Z 1234 = "1234".
Proof. reflexivity. Qed.

Example parseInt16_signed : JS.parseInt16 "  -0x10" = JS.Num (-16).
Proof. reflexivity. Qed.

Example cid_base16 :
  CID.toString_base16 (CID.mk (Uint8Array [1; 113; 18; 32; 255]%N) []) = "f01711220ff".
Proof. reflexivity. Qed.

Example cid_base32 :
  CID.toString (CID.mk (Uint8Array [102; 111; 111; 98; 97; 114]%N) []) = "bmzxw6ytboi".
Proof. reflexivity. Qed.

Example validate_accepts :
  validateChainInclusion Scenario.net Scenario.proof (constructor None)
  = (Return tt,
     {| ethereumRpcEndpoint := None;
        _chainId := None;
        providersCache := LRUMap.mk 100 [("eip155:1", DefaultProvider "mainnet")];
        _transactionCache := LRUMap.mk 50 [("0xabcd", Some Scenario.transaction)];
        _blockCache := LRUMap.mk 50 [("0xb10c", Some Scenario.block)] |},
     [CallGetTransaction (DefaultProvider "mainnet") "0xabcd";
      CallGetBlock (DefaultProvider "mainnet") "0xb10c"]).
Proof. vm_compute. reflexivity. Qed.

Example validate_twice_is_served_from_the_caches :
  trace (validateChainInclusion Scenario.silent Scenario.proof
           (after (validateChainInclusion Scenario.net Scenario.proof (constructor None))))
  = [] /\
  result (validateChainInclusion Scenario.silent Scenario.proof
            (after (validateChainInclusion Scenario.net Scenario.proof (constructor None))))
  = Return tt.
Proof. vm_compute. split; reflexivity. Qed.

Example validate_rejects_wrong_block_number :
  result (validateChainInclusion Scenario.net
            (AnchorProof.mk "eip155:1" Scenario.txCid Scenario.root 101 1600000000)
            (constructor None))
  = Throw "Block numbers are not the same. AnchorProof blockNumber: 101, eth txn blockNumber: 100".
Proof. vm_compute. reflexivity. Qed.

Example validate_rejects_wrong_root :
  result (validateChainInclusion Scenario.net
            (AnchorProof.mk "eip155:1" Scenario.txCid Scenario.txCid 100 1600000000)
            (constructor None))
  = Throw "The root CID bagjqcgycvpgq is not in the transaction".
Proof. vm_compute. reflexivity. Qed.

Example init_configures :
  init Scenario.net (Some "eip155:1") (constructor Scenario.rpc)
  = (Return tt,
     {| ethereumRpcEndpoint := Scenario.rpc;
        _chainId := Some "eip155:1";
        providersCache := LRUMap.mk 100 [("eip155:1", JsonRpcProvider "http://localhost:8545")];
        _transactionCache := LRUMap.mk 50 [];
        _blockCache := LRUMap.mk 50 [] |},
     [CallGetNetwork (JsonRpcProvider "http://localhost:8545")]).
Proof. vm_compute. reflexivity. Qed.

Example init_rejects_other_network :
  result (init Scenario.net (Some "eip155:3") (constructor Scenario.rpc))
  = Throw "Configured eth provider is for chainId eip155:1, but our anchor service uses chain undefined".
Proof. vm_compute. reflexivity. Qed.


(** ** The caches *)

Module LRUFacts.

Import LRUMap.
Local Open Scope list_scope.
Local Open Scope nat_scope.

Section WithValues.

Context {V : Type}.
Implicit Types (m : LRUMap.t V) (es : list (string * V)) (k : string) (v : V).

Lemma find_app k es es' :
  find k (es ++ es') =
  match find k es with Some v => Some v | None => find k es' end.
Proof.
  induction es as [|[k0 v0] es IH]; simpl; [reflexivity|].
  destruct (String.eqb k k0); auto.
Qed.

Lemma find_remove_same k es : find k (remove k es) = None.
Proof.
  induction es as [|[k0 v0] es IH]; simpl; [reflexivity|].
  destruct (String.eqb k k0) eqn:E; simpl; [assumption|].
  rewrite E; assumption.
Qed.

Lemma find_remove_other k k' es : k' <> k -> find k' (remove k es) = find k' es.
Proof.
  intros Hne.
  induction es as [|[k0 v0] es IH]; simpl; [reflexivity|].
  destruct (String.eqb k k0) eqn:E; simpl.
  - apply String.eqb_eq in E; subst k0.
    destruct (String.eqb k' k) eqn:E'; [|assumption].
    apply String.eqb_eq in E'; contradiction.
  - rewrite IH; reflexivity.
Qed.

Lemma find_None_not_In k es : find k es = None <-> ~ In k (map fst es).
Proof.
  induction es as [|[k0 v0] es IH]; simpl.
  - split; auto.
  - destruct (String.eqb k k0) eqn:E.
    + apply String.eqb_eq in E; subst; split; [discriminate|intros H; exfalso; auto].
    + apply String.eqb_neq in E. rewrite IH. split.
      * intros H [H1|H1]; [congruence|auto].
      * intros H H1; apply H; auto.
Qed.

Lemma find_Some_In k v es : find k es = Some v -> In k (map fst es).
Proof.
  intros H. destruct (in_dec string_dec k (map fst es)) as [Hin|Hout]; [assumption|].
  apply find_None_not_In in Hout; congruence.
Qed.

Lemma In_remove k k' es : In k' (map fst (remove k es)) <-> k' <> k /\ In k' (map fst es).
Proof.
  induction es as [|[k0 v0] es IH]; simpl.
  - tauto.
  - destruct (String.eqb k k0) eqn:E.
    + apply String.eqb_eq in E; subst k0. rewrite IH.
      split; [tauto|]. intros [Hne [H|H]]; [congruence|tauto].
    + apply String.eqb_neq in E. simpl. rewrite IH.
      split.
      * intros [H|H]; [subst; split; [congruence|auto]|tauto].
      * tauto.
Qed.

Lemma NoDup_remove k es : NoDup (map fst es) -> NoDup (map fst (remove k es)).
Proof.
  induction es as [|[k0 v0] es IH]; simpl; intros H; [constructor|].
  inversion H as [|? ? Hout Hnd]; subst.
  destruct (String.eqb k k0); [auto|].
  simpl; constructor; [|auto].
  rewrite In_remove; tauto.
Qed.

Lemma length_remove_absent k es : find k es = None -> remove k es = es.
Proof.
  induction es as [|[k0 v0] es IH]; simpl; [reflexivity|].
  destruct (String.eqb k k0); [discriminate|].
  intros H; rewrite IH; auto.
Qed.

Lemma length_remove_present k v es :
  NoDup (map fst es) -> find k es = Some v ->
  S (List.length (remove k es)) = List.length es.
Proof.
  induction es as [|[k0 v0] es IH]; simpl; [discriminate|].
  intros Hnd. inversion Hnd as [|? ? Hout Hnd']; subst.
  destruct (String.eqb k k0) eqn:E.
  - apply String.eqb_eq in E; subst k0. intros _.
    rewrite length_remove_absent; [reflexivity|].
    apply find_None_not_In; assumption.
  - intros H; simpl; rewrite (IH Hnd' H); reflexivity.
Qed.

Lemma NoDup_snoc k v es :
  NoDup (map fst es) -> ~ In k (map fst es) -> NoDup (map fst (es ++ [(k, v)])).
Proof.
  intros Hnd Hout. rewrite map_app; simpl.
  apply NoDup_app; [assumption|repeat constructor; simpl; tauto|].
  intros x Hx [Hk|[]]; subst; contradiction.
Qed.

Lemma NoDup_tl (l : list string) : NoDup l -> NoDup (tl l).
Proof. destruct l; simpl; [auto|]. inversion 1; assumption. Qed.

(** A lookup returns what is stored and keeps the limit. *)
Lemma get_value k m : fst (get k m) = peek k m.
Proof. unfold get, peek. destruct (find k (entries m)); reflexivity. Qed.

Lemma get_limit k m : limit (snd (get k m)) = limit m.
Proof. unfold get. destruct (find k (entries m)); reflexivity. Qed.

Lemma get_miss k m : peek k m = None -> get k m = (None, m).
Proof. unfold get, peek. intros ->; reflexivity. Qed.

Lemma set_limit k v m : limit (set k v m) = limit m.
Proof.
  unfold set. destruct (find k (entries m)); [reflexivity|].
  destruct (limit m <? _); reflexivity.
Qed.

(** A lookup moves the entry, it does not change what is stored. *)
Lemma peek_get k k' m : peek k' (snd (get k m)) = peek k' m.
Proof.
  unfold get, peek. destruct (find k (entries m)) as [v|] eqn:E; simpl; [|reflexivity].
  rewrite find_app. destruct (string_dec k' k) as [->|Hne].
  - rewrite find_remove_same; simpl. rewrite String.eqb_refl. congruence.
  - rewrite find_remove_other by assumption.
    destruct (find k' (entries m)); [reflexivity|]. simpl.
    apply String.eqb_neq in Hne. rewrite Hne. reflexivity.
Qed.

Lemma keys_get k k' m : In k' (keys (snd (get k m))) <-> In k' (keys m).
Proof.
  unfold get, keys. destruct (find k (entries m)) as [v|] eqn:E; simpl; [|tauto].
  rewrite map_app, in_app_iff, In_remove. simpl.
  apply find_Some_In in E.
  destruct (string_dec k' k) as [->|Hne]; intuition congruence.
Qed.

Lemma keys_set k v k' m : In k' (keys (set k v m)) -> k' = k \/ In k' (keys m).
Proof.
  unfold set, keys. destruct (find k (entries m)) as [v0|] eqn:E; simpl.
  - rewrite map_app, in_app_iff, In_remove. simpl. intuition.
  - destruct (limit m <? _); simpl.
    + intros H. assert (H' : In k' (map fst (entries m ++ [(k, v)]))).
      { destruct (entries m ++ [(k, v)]); simpl in *; auto. }
      rewrite map_app, in_app_iff in H'. simpl in H'. intuition.
    + rewrite map_app, in_app_iff. simpl. intuition.
Qed.

(** What was just stored is what a lookup finds, whenever the cache can
    hold an entry at all. *)
Lemma peek_set_same k v m : 0 < limit m -> NoDup (keys m) -> peek k (set k v m) = Some v.
Proof.
  unfold set, peek, keys. intros Hlim Hnd.
  destruct (find k (entries m)) as [v0|] eqn:E; simpl.
  - rewrite find_app, find_remove_same. simpl. rewrite String.eqb_refl. reflexivity.
  - destruct (limit m <? _) eqn:L; simpl.
    + destruct (entries m) as [|[k0 v0] es] eqn:Ees; simpl in *.
      * apply Nat.ltb_lt in L. lia.
      * destruct (String.eqb k k0); [discriminate|].
        rewrite find_app, E. simpl. rewrite String.eqb_refl. reflexivity.
    + rewrite find_app, E. simpl. rewrite String.eqb_refl. reflexivity.
Qed.

Lemma wf_new n : wf (@new V n).
Proof. split; simpl; [constructor|unfold size; simpl; lia]. Qed.

Lemma wf_get k m : wf m -> wf (snd (get k m)).
Proof.
  unfold wf, get, keys, size. intros [Hnd Hsz].
  destruct (find k (entries m)) as [v|] eqn:E; simpl; [|auto].
  split.
  - apply NoDup_snoc; [apply NoDup_remove; assumption|].
    rewrite In_remove; tauto.
  - rewrite length_app; simpl.
    pose proof (length_remove_present k v (entries m) Hnd E). lia.
Qed.

Lemma wf_set k v m : wf m -> wf (set k v m).
Proof.
  unfold wf, set, keys, size. intros [Hnd Hsz].
  destruct (find k (entries m)) as [v0|] eqn:E; simpl.
  - split.
    + apply NoDup_snoc; [apply NoDup_remove; assumption|].
      rewrite In_remove; tauto.
    + rewrite length_app; simpl.
      pose proof (length_remove_present k v0 (entries m) Hnd E). lia.
  - assert (Hnd' : NoDup (map fst (entries m ++ [(k, v)]))).
    { apply NoDup_snoc; [assumption|]. apply find_None_not_In; assumption. }
    destruct (limit m <? _) eqn:L; simpl.
    + split.
      * replace (map fst (tl (entries m ++ [(k, v)])))
          with (tl (map fst (entries m ++ [(k, v)])))
          by (destruct (entries m ++ [(k, v)]); reflexivity).
        apply NoDup_tl; assumption.
      * destruct (entries m ++ [(k, v)]) eqn:Ees; simpl; [lia|].
        apply (f_equal (@List.length _)) in Ees.
        rewrite length_app in Ees; simpl in Ees. lia.
    + split; [assumption|]. apply Nat.ltb_ge in L. assumption.
Qed.

End WithValues.

End LRUFacts.

(** ** Provider resolution *)

Lemma with_providersCache_same this : with_providersCache (providersCache this) this = this.
Proof. destruct this; reflexivity. Qed.

Lemma with_transactionCache_same this :
  with_transactionCache (_transactionCache this) this = this.
Proof. destruct this; reflexivity. Qed.

Lemma with_blockCache_same this : with_blockCache (_blockCache this) this = this.
Proof. destruct this; reflexivity. Qed.

Ltac unfold_methods :=
  unfold _getEthProvider, providersCache_get, providersCache_set,
    _transactionCache_get, _transactionCache_set, _blockCache_get, _blockCache_set,
    bind, ret, throw, this_, emit, await, try_catch, result, after, trace in *.

(** A cached provider is returned as it is; the lookup only refreshes the
    entry. *)
Lemma _getEthProvider_hit chain this p :
  LRUMap.peek chain (providersCache this) = Some p ->
  _getEthProvider chain this
  = (Return p,
     with_providersCache (snd (LRUMap.get chain (providersCache this))) this,
     []).
Proof.
  unfold LRUMap.peek. intros H. unfold_methods. unfold LRUMap.get.
  rewrite H. reflexivity.
Qed.

(** Without a cached provider the checks run in the order of the source. *)
Lemma _getEthProvider_miss chain this :
  LRUMap.peek chain (providersCache this) = None ->
  _getEthProvider chain this =
  if negb (JS.startsWith chain "eip155") then
    (Throw (unsupported_namespace_message chain), this, [])
  else if JS.truthy (_chainId this)
          && negb (String.eqb (JS.show_nullable (_chainId this)) chain) then
    (Throw (unsupported_chain_message chain (_chainId this)), this, [])
  else if JS.truthy (ethereumRpcEndpoint this) then
    (Return (JsonRpcProvider (JS.show_nullable (ethereumRpcEndpoint this))),
     with_providersCache
       (LRUMap.set chain (JsonRpcProvider (JS.show_nullable (ethereumRpcEndpoint this)))
          (providersCache this)) this,
     [])
  else
    match ETH_CHAIN_ID_MAPPINGS chain with
    | None => (Throw (no_provider_message chain), this, [])
    | Some ethNetwork =>
        (Return (DefaultProvider (network ethNetwork)),
         with_providersCache
           (LRUMap.set chain (DefaultProvider (network ethNetwork)) (providersCache this))
           this,
         [])
    end.
Proof.
  unfold LRUMap.peek. intros H. unfold_methods. unfold LRUMap.get.
  rewrite H. rewrite with_providersCache_same.
  destruct (negb (JS.startsWith chain "eip155")); [reflexivity|].
  destruct (JS.truthy (_chainId this) && _); [reflexivity|].
  destruct (JS.truthy (ethereumRpcEndpoint this)); [reflexivity|].
  destruct (ETH_CHAIN_ID_MAPPINGS chain); reflexivity.
Qed.

(** Provider resolution makes no call and touches nothing but the providers
    cache; when it throws, the validator is as before. *)
Lemma _getEthProvider_frame chain this :
  let o := _getEthProvider chain this in
  trace o = [] /\
  ethereumRpcEndpoint (after o) = ethereumRpcEndpoint this /\
  _chainId (after o) = _chainId this /\
  _transactionCache (after o) = _transactionCache this /\
  _blockCache (after o) = _blockCache this /\
  (forall e, result o = Throw e -> after o = this).
Proof.
  destruct (LRUMap.peek chain (providersCache this)) as [p|] eqn:E.
  - rewrite (_getEthProvider_hit _ _ _ E). simpl.
    repeat split; discriminate.
  - rewrite (_getEthProvider_miss _ _ E).
    destruct (negb (JS.startsWith chain "eip155")); [simpl; auto 10|].
    destruct (JS.truthy (_chainId this) && _); [simpl; auto 10|].
    destruct (JS.truthy (ethereumRpcEndpoint this)); [simpl; repeat split; discriminate|].
    destruct (ETH_CHAIN_ID_MAPPINGS chain); simpl; repeat split; auto; discriminate.
Qed.

(** How the providers cache changes: a lookup keeps the keys, and a key is
    added only for a chain that passed every check. *)
Lemma _getEthProvider_keys chain this k :
  In k (LRUMap.keys (providersCache (after (_getEthProvider chain this)))) ->
  In k (LRUMap.keys (providersCache this)) \/
  (k = chain /\
   JS.startsWith chain "eip155" = true /\
   (JS.truthy (_chainId this) = true -> _chainId this = Some chain) /\
   (JS.truthy (ethereumRpcEndpoint this) = false -> ETH_CHAIN_ID_MAPPINGS chain <> None)).
Proof.
  destruct (LRUMap.peek chain (providersCache this)) as [p|] eqn:E.
  - rewrite (_getEthProvider_hit _ _ _ E). simpl.
    rewrite LRUFacts.keys_get. auto.
  - rewrite (_getEthProvider_miss _ _ E).
    destruct (JS.startsWith chain "eip155") eqn:Hns; simpl; [|auto].
    destruct (JS.truthy (_chainId this)) eqn:Hc; simpl.
    + destruct (_chainId this) as [c|] eqn:Hcid; [|discriminate]. simpl.
      destruct (String.eqb c chain) eqn:Heq; simpl; [|auto].
      apply String.eqb_eq in Heq; subst c.
      destruct (JS.truthy (ethereumRpcEndpoint this)) eqn:He; simpl.
      * intros H; apply LRUFacts.keys_set in H. destruct H; [right|left]; auto.
        repeat split; auto; discriminate.
      * destruct (ETH_CHAIN_ID_MAPPINGS chain) eqn:Hm; simpl; [|auto].
        intros H; apply LRUFacts.keys_set in H. destruct H; [right|left]; auto.
        repeat split; auto; discriminate.
    + destruct (JS.truthy (ethereumRpcEndpoint this)) eqn:He; simpl.
      * intros H; apply LRUFacts.keys_set in H. destruct H; [right|left]; auto.
        repeat split; auto; discriminate.
      * destruct (ETH_CHAIN_ID_MAPPINGS chain) eqn:Hm; simpl; [|auto].
        intros H; apply LRUFacts.keys_set in H. destruct H; [right|left]; auto.
        repeat split; auto; discriminate.
Qed.

Lemma _getEthProvider_wf chain this :
  LRUMap.wf (providersCache this) ->
  LRUMap.wf (providersCache (after (_getEthProvider chain this))) /\
  LRUMap.limit (providersCache (after (_getEthProvider chain this)))
  = LRUMap.limit (providersCache this).
Proof.
  intros Hwf.
  destruct (LRUMap.peek chain (providersCache this)) as [p|] eqn:E.
  - rewrite (_getEthProvider_hit _ _ _ E). simpl.
    split; [apply LRUFacts.wf_get; assumption|apply LRUFacts.get_limit].
  - rewrite (_getEthProvider_miss _ _ E).
    destruct (negb (JS.startsWith chain "eip155")); [simpl; auto|].
    destruct (JS.truthy (_chainId this) && _); [simpl; auto|].
    destruct (JS.truthy (ethereumRpcEndpoint this)); simpl.
    + split; [apply LRUFacts.wf_set; assumption|apply LRUFacts.set_limit].
    + destruct (ETH_CHAIN_ID_MAPPINGS chain); simpl; [|auto].
      split; [apply LRUFacts.wf_set; assumption|apply LRUFacts.set_limit].
Qed.

(** ** Loading the transaction and the block *)

Lemma bind_assoc {A B C} (m : M A) (k : A -> M B) (h : B -> M C) this :
  bind (bind m k) h this = bind m (fun a => bind (k a) h) this.
Proof.
  unfold bind. destruct (m this) as [[[a|e] this1] tr1]; [|reflexivity].
  destruct (k a this1) as [[[b|e] this2] tr2]; [|reflexivity].
  destruct (h b this2) as [[r this3] tr3]. rewrite app_assoc. reflexivity.
Qed.

Lemma bind_ext {A B} (m : M A) (k k' : A -> M B) this :
  (forall a this', k a this' = k' a this') -> bind m k this = bind m k' this.
Proof.
  intros H. unfold bind. destruct (m this) as [[[a|e] this1] tr1]; [|reflexivity].
  rewrite H. reflexivity.
Qed.

Lemma try_catch_ext {A} (m m' : M A) (h : string -> M A) this :
  m this = m' this -> try_catch m h this = try_catch m' h this.
Proof. intros H. unfold try_catch. rewrite H. reflexivity. Qed.

Lemma _getTransactionAndBlockInfo_blocks net chainId txHash this :
  _getTransactionAndBlockInfo net chainId txHash this =
  try_catch
    (provider <- _getEthProvider chainId ;;
     transaction <- load_transaction net provider txHash ;;
     this <- this_ ;;
     match transaction with
     | None =>
         if negb (JS.truthy (ethereumRpcEndpoint this)) then
           throw (failed_transaction_message txHash ++ try_rpc_endpoint)
         else
           throw (failed_transaction_message txHash)
     | Some transaction =>
         block <- load_block net provider (TransactionResponse.blockHash transaction) ;;
         match block with
         | None =>
             if negb (JS.truthy (ethereumRpcEndpoint this)) then
               throw (failed_block_message transaction ++ try_rpc_endpoint)
             else
               throw (failed_block_message transaction)
         | Some block => ret (transaction, block)
         end
     end)
    (fun e =>
       emit (LoggerErr (loading_error_message txHash e)) ;;;
       throw e) this.
Proof.
  unfold _getTransactionAndBlockInfo. apply try_catch_ext.
  apply bind_ext. intros provider this1.
  unfold load_transaction. rewrite bind_assoc.
  apply bind_ext. intros cached this2.
  apply bind_ext. intros transaction this3.
  apply bind_ext. intros this4 this5.
  destruct transaction as [transaction|]; [|reflexivity].
  unfold load_block. rewrite bind_assoc. reflexivity.
Qed.

(** A record that is cached is served without a call. *)
Lemma load_transaction_cached net p txHash this t :
  nullable (LRUMap.peek txHash (_transactionCache this)) = Some t ->
  load_transaction net p txHash this
  = (Return (Some t),
     with_transactionCache (snd (LRUMap.get txHash (_transactionCache this))) this,
     []).
Proof.
  unfold load_transaction, LRUMap.peek. unfold_methods. unfold LRUMap.get.
  destruct (LRUMap.find txHash _) as [[t'|]|]; simpl; try discriminate.
  intros [= ->]. reflexivity.
Qed.

(** Without a cached record the provider is asked, and whatever it answers
    is stored under the key, an empty answer included. *)
Lemma load_transaction_fetched net p txHash this t :
  nullable (LRUMap.peek txHash (_transactionCache this)) = None ->
  getTransaction net p txHash = Resolved t ->
  load_transaction net p txHash this
  = (Return t,
     with_transactionCache
       (LRUMap.set txHash t (snd (LRUMap.get txHash (_transactionCache this)))) this,
     [CallGetTransaction p txHash]).
Proof.
  unfold load_transaction, LRUMap.peek. unfold_methods. unfold LRUMap.get.
  intros Hc Hn.
  destruct (LRUMap.find txHash _) as [[t'|]|]; simpl in *; try discriminate;
    rewrite Hn; simpl; destruct this; reflexivity.
Qed.

(** A call that is rejected stores nothing. *)
Lemma load_transaction_rejected net p txHash this e :
  nullable (LRUMap.peek txHash (_transactionCache this)) = None ->
  getTransaction net p txHash = Rejected e ->
  load_transaction net p txHash this
  = (Throw e,
     with_transactionCache (snd (LRUMap.get txHash (_transactionCache this))) this,
     [CallGetTransaction p txHash]).
Proof.
  unfold load_transaction, LRUMap.peek. unfold_methods. unfold LRUMap.get.
  intros Hc Hn.
  destruct (LRUMap.find txHash _) as [[t'|]|]; simpl in *; try discriminate;
    rewrite Hn; simpl; reflexivity.
Qed.

Lemma load_block_cached net p blockHash this b :
  nullable (LRUMap.peek blockHash (_blockCache this)) = Some b ->
  load_block net p blockHash this
  = (Return (Some b),
     with_blockCache (snd (LRUMap.get blockHash (_blockCache this))) this,
     []).
Proof.
  unfold load_block, LRUMap.peek. unfold_methods. unfold LRUMap.get.
  destruct (LRUMap.find blockHash _) as [[b'|]|]; simpl; try discriminate.
  intros [= ->]. reflexivity.
Qed.

Lemma load_block_fetched net p blockHash this b :
  nullable (LRUMap.peek blockHash (_blockCache this)) = None ->
  getBlock net p blockHash = Resolved b ->
  load_block net p blockHash this
  = (Return b,
     with_blockCache
       (LRUMap.set blockHash b (snd (LRUMap.get blockHash (_blockCache this)))) this,
     [CallGetBlock p blockHash]).
Proof.
  unfold load_block, LRUMap.peek. unfold_methods. unfold LRUMap.get.
  intros Hc Hn.
  destruct (LRUMap.find blockHash _) as [[b'|]|]; simpl in *; try discriminate;
    rewrite Hn; simpl; destruct this; reflexivity.
Qed.

Lemma load_block_rejected net p blockHash this e :
  nullable (LRUMap.peek blockHash (_blockCache this)) = None ->
  getBlock net p blockHash = Rejected e ->
  load_block net p blockHash this
  = (Throw e,
     with_blockCache (snd (LRUMap.get blockHash (_blockCache this))) this,
     [CallGetBlock p blockHash]).
Proof.
  unfold load_block, LRUMap.peek. unfold_methods. unfold LRUMap.get.
  intros Hc Hn.
  destruct (LRUMap.find blockHash _) as [[b'|]|]; simpl in *; try discriminate;
    rewrite Hn; simpl; reflexivity.
Qed.

(** ** Properties kept by every method *)

Section Preservation.

Variable P : EthereumAnchorValidator -> Prop.

Lemma preserves_ret {A} (a : A) : preserves P (ret a).
Proof. intros this H; exact H. Qed.

Lemma preserves_throw {A} e : preserves P (@throw A e).
Proof. intros this H; exact H. Qed.

Lemma preserves_this : preserves P this_.
Proof. intros this H; exact H. Qed.

Lemma preserves_emit e : preserves P (emit e).
Proof. intros this H; exact H. Qed.

Lemma preserves_await {A} e (p : Promise A) : preserves P (await e p).
Proof. intros this H; unfold await, after; destruct p; exact H. Qed.

Lemma preserves_bind {A B} (m : M A) (k : A -> M B) :
  preserves P m -> (forall a, preserves P (k a)) -> preserves P (bind m k).
Proof.
  intros Hm Hk this H. unfold bind, after.
  specialize (Hm this H). unfold after in Hm.
  destruct (m this) as [[[a|e] this'] tr]; simpl in *; [|exact Hm].
  specialize (Hk a this' Hm). unfold after in Hk.
  destruct (k a this') as [[r this''] tr']; exact Hk.
Qed.

Lemma preserves_try_catch {A} (m : M A) (h : string -> M A) :
  preserves P m -> (forall e, preserves P (h e)) -> preserves P (try_catch m h).
Proof.
  intros Hm Hh this H. unfold try_catch, after.
  specialize (Hm this H). unfold after in Hm.
  destruct (m this) as [[[a|e] this'] tr]; simpl in *; [exact Hm|].
  specialize (Hh e this' Hm). unfold after in Hh.
  destruct (h e this') as [[r this''] tr']; exact Hh.
Qed.

Hypothesis P_getEthProvider : forall chain, preserves P (_getEthProvider chain).
Hypothesis P_transactionCache :
  forall this c,
    P this ->
    LRUMap.limit c = LRUMap.limit (_transactionCache this) ->
    (LRUMap.wf (_transactionCache this) -> LRUMap.wf c) ->
    P (with_transactionCache c this).
Hypothesis P_blockCache :
  forall this c,
    P this ->
    LRUMap.limit c = LRUMap.limit (_blockCache this) ->
    (LRUMap.wf (_blockCache this) -> LRUMap.wf c) ->
    P (with_blockCache c this).

Lemma preserves_load_transaction net p txHash : preserves P (load_transaction net p txHash).
Proof.
  intros this H. unfold load_transaction. unfold_methods. unfold LRUMap.get.
  assert (Hget : P (with_transactionCache
                      (snd (LRUMap.get txHash (_transactionCache this))) this)).
  { apply P_transactionCache;
      [assumption|apply LRUFacts.get_limit|apply LRUFacts.wf_get]. }
  unfold LRUMap.get in Hget.
  destruct (LRUMap.find txHash _) as [[t|]|]; simpl in *; try exact Hget;
    destruct (getTransaction net p txHash); simpl; try exact Hget;
    (apply (P_transactionCache _ (LRUMap.set txHash a _) Hget);
     [apply LRUFacts.set_limit|intros; apply LRUFacts.wf_set; assumption]).
Qed.

Lemma preserves_load_block net p blockHash : preserves P (load_block net p blockHash).
Proof.
  intros this H. unfold load_block. unfold_methods. unfold LRUMap.get.
  assert (Hget : P (with_blockCache (snd (LRUMap.get blockHash (_blockCache this))) this)).
  { apply P_blockCache; [assumption|apply LRUFacts.get_limit|apply LRUFacts.wf_get]. }
  unfold LRUMap.get in Hget.
  destruct (LRUMap.find blockHash _) as [[t|]|]; simpl in *; try exact Hget;
    destruct (getBlock net p blockHash); simpl; try exact Hget;
    (apply (P_blockCache _ (LRUMap.set blockHash a _) Hget);
     [apply LRUFacts.set_limit|intros; apply LRUFacts.wf_set; assumption]).
Qed.

Lemma preserves_getTransactionAndBlockInfo net chainId txHash :
  preserves P (_getTransactionAndBlockInfo net chainId txHash).
Proof.
  intros this0 H0. rewrite _getTransactionAndBlockInfo_blocks. revert this0 H0.
  apply preserves_try_catch.
  - apply preserves_bind; [apply P_getEthProvider|]. intros p.
    apply preserves_bind; [apply preserves_load_transaction|]. intros [t|].
    + apply preserves_bind; [apply preserves_this|]. intros this.
      apply preserves_bind; [apply preserves_load_block|]. intros [b|].
      * apply preserves_ret.
      * destruct (negb _); apply preserves_throw.
    + apply preserves_bind; [apply preserves_this|]. intros this.
      destruct (negb _); apply preserves_throw.
  - intros e. apply preserves_bind; [apply preserves_emit|]. intros _.
    apply preserves_throw.
Qed.

Lemma preserves_validateChainInclusion net anchorProof :
  preserves P (validateChainInclusion net anchorProof).
Proof.
  unfold validateChainInclusion.
  apply preserves_bind; [apply preserves_getTransactionAndBlockInfo|].
  intros [transaction block].
  destruct (JS.strict_neq _ _); [apply preserves_throw|].
  destruct (negb _); [apply preserves_throw|].
  destruct (negb _); [apply preserves_throw|apply preserves_ret].
Qed.

End Preservation.

(** ** What every reachable validator satisfies *)

Lemma consistent_new endpoint : consistent (constructor endpoint).
Proof.
  unfold consistent, constructor; simpl.
  repeat match goal with |- _ /\ _ => split end;
    try apply LRUFacts.wf_new; try reflexivity.
  intros k [].
Qed.

Lemma consistent_getEthProvider chain : preserves consistent (_getEthProvider chain).
Proof.
  intros this (Hp & Hpl & Ht & Htl & Hb & Hbl & Hk).
  destruct (_getEthProvider_frame chain this) as (_ & He & _ & Htc & Hbc & _).
  destruct (_getEthProvider_wf chain this Hp) as [Hp' Hpl'].
  unfold consistent. rewrite He, Htc, Hbc, Hpl'.
  repeat match goal with |- _ /\ _ => split end; try assumption.
  intros k H. apply _getEthProvider_keys in H.
  destruct H as [H|(-> & Hns & _ & Hm)]; [apply Hk; assumption|].
  split; assumption.
Qed.

Lemma consistent_with_transactionCache this c :
  consistent this ->
  LRUMap.limit c = LRUMap.limit (_transactionCache this) ->
  (LRUMap.wf (_transactionCache this) -> LRUMap.wf c) ->
  consistent (with_transactionCache c this).
Proof.
  intros (Hp & Hpl & Ht & Htl & Hb & Hbl & Hk) Hl Hw.
  unfold consistent; simpl. rewrite Hl. auto 10.
Qed.

Lemma consistent_with_blockCache this c :
  consistent this ->
  LRUMap.limit c = LRUMap.limit (_blockCache this) ->
  (LRUMap.wf (_blockCache this) -> LRUMap.wf c) ->
  consistent (with_blockCache c this).
Proof.
  intros (Hp & Hpl & Ht & Htl & Hb & Hbl & Hk) Hl Hw.
  unfold consistent; simpl. rewrite Hl. auto 10.
Qed.

Lemma consistent_validateChainInclusion net anchorProof :
  preserves consistent (validateChainInclusion net anchorProof).
Proof.
  apply preserves_validateChainInclusion.
  - apply consistent_getEthProvider.
  - apply consistent_with_transactionCache.
  - apply consistent_with_blockCache.
Qed.

Lemma consistent_init net chainId : preserves consistent (init net chainId).
Proof.
  unfold init. destruct (negb (JS.truthy chainId)); [apply preserves_ret|].
  apply preserves_bind; [apply consistent_getEthProvider|]. intros p.
  apply preserves_bind; [apply preserves_await|]. intros n.
  apply preserves_bind; [apply preserves_this|]. intros this.
  destruct (negb _); [apply preserves_throw|].
  intros this' H. exact H.
Qed.

Lemma reachable_consistent this : reachable this -> consistent this.
Proof.
  induction 1.
  - apply consistent_new.
  - apply consistent_init; assumption.
  - apply consistent_validateChainInclusion; assumption.
Qed.

Lemma serves_only_getEthProvider c chain : preserves (serves_only c) (_getEthProvider chain).
Proof.
  intros this (Hc & Ht & Hk).
  destruct (_getEthProvider_frame chain this) as (_ & _ & Hcid & _ & _ & _).
  unfold serves_only. rewrite Hcid.
  repeat match goal with |- _ /\ _ => split end; try assumption.
  intros k H. apply _getEthProvider_keys in H.
  destruct H as [H|(-> & _ & Hconf & _)]; [auto|].
  rewrite Hc in Hconf. specialize (Hconf Ht). congruence.
Qed.

Lemma serves_only_validateChainInclusion c net anchorProof :
  preserves (serves_only c) (validateChainInclusion net anchorProof).
Proof.
  apply preserves_validateChainInclusion.
  - apply serves_only_getEthProvider.
  - intros this t H _ _. exact H.
  - intros this b H _ _. exact H.
Qed.

(** When [init] returns for a chain id, it has resolved the provider of
    that chain and recorded the chain id, and nothing else. *)
Lemma init_returns net c this :
  JS.truthy (Some c) = true ->
  result (init net (Some c) this) = Return tt ->
  after (init net (Some c) this)
  = with_chainId (Some c) (after (_getEthProvider c this)).
Proof.
  intros Ht. unfold init. rewrite Ht. cbv beta iota zeta delta [negb].
  change (JS.show_nullable (Some c)) with c.
  unfold bind, result, after.
  destruct (_getEthProvider c this) as [[[p|e] this1] tr]; simpl; [|discriminate].
  unfold await, this_, throw.
  destruct (getNetwork net p) as [n|e]; simpl; [|discriminate].
  destruct (String.eqb c _); simpl; [|discriminate].
  reflexivity.
Qed.

(** A validator that serves one chain resolves a provider for that chain
    only. *)
Lemma serves_only_resolves c chain this p :
  serves_only c this ->
  result (_getEthProvider chain this) = Return p ->
  chain = c.
Proof.
  intros (Hc & Ht & Hk).
  destruct (LRUMap.peek chain (providersCache this)) as [q|] eqn:E.
  - intros _. apply Hk. exact (LRUFacts.find_Some_In _ _ _ E).
  - rewrite (_getEthProvider_miss _ _ E). rewrite Hc, Ht. simpl.
    destruct (negb (JS.startsWith chain "eip155")); [discriminate|].
    destruct (String.eqb c chain) eqn:Heq; simpl; [|discriminate].
    intros _. apply String.eqb_eq in Heq. congruence.
Qed.

Lemma serves_only_init c net chainId : preserves (serves_only c) (init net chainId).
Proof.
  intros this H. unfold init.
  destruct (JS.truthy chainId); [|exact H].
  change (negb true) with false. cbv beta iota zeta.
  remember (JS.show_nullable chainId) as cid eqn:Hcid. clear Hcid.
  pose proof (serves_only_getEthProvider c cid this H) as H1.
  pose proof (serves_only_resolves c cid this) as Hres.
  unfold bind, after, result in *.
  destruct (_getEthProvider cid this) as [[[p|e] this1] tr]; [|exact H1].
  specialize (Hres p H eq_refl). subst cid.
  unfold await, this_, throw.
  destruct (getNetwork net p) as [n|e]; [|exact H1].
  destruct (negb (String.eqb c _)); [exact H1|].
  destruct H1 as (Hc & Ht & Hk).
  unfold serves_only; simpl. auto.
Qed.

Lemma configured_for_serves_only c this : configured_for c this -> serves_only c this.
Proof.
  induction 1 as [endpoint net Ht Hr|this net chainId _ IH|this net anchorProof _ IH];
    [|apply serves_only_init; assumption|].
  - rewrite (init_returns _ _ _ Ht Hr).
    unfold serves_only; simpl.
    repeat match goal with |- _ /\ _ => split end; try assumption; try reflexivity.
    intros k H. apply _getEthProvider_keys in H.
    destruct H as [[]|(-> & _)]. reflexivity.
  - apply serves_only_validateChainInclusion; assumption.
Qed.

(** ** Numeric reading of the root and of the payload *)

Lemma digits16_seen s acc : JS.digits16 s acc true <> None.
Proof.
  revert acc. induction s as [|c s IH]; intros acc; simpl; [discriminate|].
  destruct (JS.hex_digit c); [apply IH|discriminate].
Qed.

Lemma round_to_double_not_NaN m : JS.round_to_double m <> JS.NaN.
Proof.
  unfold JS.round_to_double.
  destruct (Z.log2 m + 1 <=? 53); [discriminate|].
  cbv zeta. destruct (Z.shiftl 1 1024 <=? _); discriminate.
Qed.

(** The root always reads as a number: its base16 form starts with the
    multibase prefix [f], which is a hexadecimal digit. *)
Lemma rootValueHexNumber_not_NaN anchorProof : rootValueHexNumber anchorProof <> JS.NaN.
Proof.
  unfold rootValueHexNumber, CID.toString_base16, JS.parseInt16. simpl.
  destruct (JS.digits16 _ 15 true) as [m|] eqn:E.
  - apply round_to_double_not_NaN.
  - exfalso. exact (digits16_seen _ _ E).
Qed.

Lemma strict_neq_false a b : b <> JS.NaN -> JS.strict_neq a b = false <-> b = a.
Proof.
  unfold JS.strict_neq, JS.strict_eq. intros Hb.
  destruct a, b; simpl; try tauto;
    try (split; [discriminate|intros ?; congruence]);
    try (split; [reflexivity|reflexivity]).
  rewrite negb_false_iff, Z.eqb_eq. split; [intros ->; reflexivity|intros [= ->]; reflexivity].
Qed.

(** ** Validation against the fetched records *)

(** The records are the ones of the chain: on a fresh validator, what
    [_getTransactionAndBlockInfo] returns is what the provider of the chain
    answers for the transaction hash, and for the block hash of that
    transaction. *)
Lemma fresh_validator_fetches net chainId txHash endpoint p this1 tr transaction block :
  _getEthProvider chainId (constructor endpoint) = (Return p, this1, tr) ->
  result (_getTransactionAndBlockInfo net chainId txHash (constructor endpoint))
  = Return (transaction, block) ->
  getTransaction net p txHash = Resolved (Some transaction) /\
  getBlock net p (TransactionResponse.blockHash transaction) = Resolved (Some block).
Proof.
  intros Hp. rewrite _getTransactionAndBlockInfo_blocks.
  unfold try_catch. unfold bind at 1. rewrite Hp.
  destruct (_getEthProvider_frame chainId (constructor endpoint)) as (_ & _ & _ & Htc & Hbc & _).
  rewrite Hp in Htc, Hbc. unfold after in Htc, Hbc. simpl in Htc, Hbc.
  assert (Hnt : nullable (LRUMap.peek txHash (_transactionCache this1)) = None)
    by (rewrite Htc; reflexivity).
  destruct (getTransaction net p txHash) as [t|e] eqn:Ht.
  - unfold bind at 1. rewrite (load_transaction_fetched _ _ _ _ _ Hnt Ht).
    unfold bind at 1. unfold this_ at 1.
    destruct t as [t|].
    + assert (Hnb : forall this2 : EthereumAnchorValidator,
                _blockCache this2 = _blockCache this1 ->
                nullable (LRUMap.peek (TransactionResponse.blockHash t) (_blockCache this2)) = None)
        by (intros this2 ->; rewrite Hbc; reflexivity).
      destruct (getBlock net p (TransactionResponse.blockHash t)) as [b|e] eqn:Hb.
      * unfold bind at 1.
        match goal with
        | |- context [load_block _ _ _ ?s] =>
            rewrite (load_block_fetched net p _ s b (Hnb s eq_refl) Hb)
        end.
        destruct b as [b|].
        -- unfold ret, result. simpl. intros [= <- <-]. split; [reflexivity|assumption].
        -- destruct (negb _); unfold throw, bind, emit, result; simpl; discriminate.
      * unfold bind at 1.
        match goal with
        | |- context [load_block _ _ _ ?s] =>
            rewrite (load_block_rejected net p _ s e (Hnb s eq_refl) Hb)
        end.
        unfold throw, bind, emit, result; simpl; discriminate.
    + destruct (negb _); unfold throw, bind, emit, result; simpl; discriminate.
  - unfold bind at 1. rewrite (load_transaction_rejected _ _ _ _ _ Hnt Ht).
    unfold throw, bind, emit, result; simpl; discriminate.
Qed.

(** ** The configured chain *)

(** When provider resolution throws, the error is logged and thrown again
    before any provider call, and the validator is as it was. *)
Lemma validateChainInclusion_provider_throws net anchorProof this e :
  result (_getEthProvider (AnchorProof.chainId anchorProof) this) = Throw e ->
  validateChainInclusion net anchorProof this
  = (Throw e, this, [LoggerErr (loading_error_message (txHash_of anchorProof) e)]).
Proof.
  intros Hr.
  destruct (_getEthProvider_frame (AnchorProof.chainId anchorProof) this)
    as (Htr & _ & _ & _ & _ & Hsame).
  specialize (Hsame e Hr).
  unfold validateChainInclusion. unfold bind at 1.
  unfold _getTransactionAndBlockInfo, try_catch. unfold bind at 1.
  unfold result, after, trace in *.
  destruct (_getEthProvider (AnchorProof.chainId anchorProof) this) as [[r this1] tr].
  simpl in *. subst. reflexivity.
Qed.

(** C4. On a validator that [init] configured for the chain id [c] when it
    was fresh, a proof for any other chain id makes
    [validateChainInclusion] throw at provider resolution: the validator
    is unchanged and no provider call is made, the only trace being the
    line sent to the logger. *)
Theorem validateChainInclusion_other_chain net anchorProof c this :
  configured_for c this ->
  AnchorProof.chainId anchorProof <> c ->
  exists e,
    validateChainInclusion net anchorProof this
    = (Throw e, this, [LoggerErr (loading_error_message (txHash_of anchorProof) e)]) /\
    (e = unsupported_namespace_message (AnchorProof.chainId anchorProof) \/
     e = unsupported_chain_message (AnchorProof.chainId anchorProof) (Some c)) /\
    network_calls (trace (validateChainInclusion net anchorProof this)) = [].
Proof.
  intros Hconf Hother.
  destruct (configured_for_serves_only _ _ Hconf) as (Hc & Ht & Hk).
  assert (Hmiss : LRUMap.peek (AnchorProof.chainId anchorProof) (providersCache this) = None).
  { apply LRUFacts.find_None_not_In. intros Hin. apply Hother. apply Hk. exact Hin. }
  pose proof (_getEthProvider_miss _ _ Hmiss) as Hres.
  rewrite Hc, Ht in Hres. simpl JS.show_nullable in Hres.
  assert (Hneq : String.eqb c (AnchorProof.chainId anchorProof) = false)
    by (apply String.eqb_neq; congruence).
  rewrite Hneq in Hres. simpl in Hres.
  destruct (JS.startsWith (AnchorProof.chainId anchorProof) "eip155"); simpl in Hres.
  - exists (unsupported_chain_message (AnchorProof.chainId anchorProof) (Some c)).
    assert (Hr : result (_getEthProvider (AnchorProof.chainId anchorProof) this)
                 = Throw (unsupported_chain_message (AnchorProof.chainId anchorProof) (Some c)))
      by (rewrite Hres; reflexivity).
    rewrite (validateChainInclusion_provider_throws net _ _ _ Hr).
    repeat split. right; reflexivity.
  - exists (unsupported_namespace_message (AnchorProof.chainId anchorProof)).
    assert (Hr : result (_getEthProvider (AnchorProof.chainId anchorProof) this)
                 = Throw (unsupported_namespace_message (AnchorProof.chainId anchorProof)))
      by (rewrite Hres; reflexivity).
    rewrite (validateChainInclusion_provider_throws net _ _ _ Hr).
    repeat split. left; reflexivity.
Qed.

Lemma validateChainInclusion_other_chain_witness :
  configured_for "eip155:1" (after (init Scenario.net (Some "eip155:1") (constructor Scenario.rpc))) /\
  "eip155:3" <> "eip155:1" /\
  exists e,
    validateChainInclusion Scenario.net
      (AnchorProof.mk "eip155:3" Scenario.txCid Scenario.root 100 1600000000)
      (after (init Scenario.net (Some "eip155:1") (constructor Scenario.rpc)))
    = (Throw e,
       after (init Scenario.net (Some "eip155:1") (constructor Scenario.rpc)),
       [LoggerErr (loading_error_message "0xabcd" e)]) /\
    (e = unsupported_namespace_message "eip155:3" \/
     e = unsupported_chain_message "eip155:3" (Some "eip155:1")) /\
    network_calls
      (trace (validateChainInclusion Scenario.net
                (AnchorProof.mk "eip155:3" Scenario.txCid Scenario.root 100 1600000000)
                (after (init Scenario.net (Some "eip155:1") (constructor Scenario.rpc)))))
    = [].
Proof.
  assert (Hc : configured_for "eip155:1"
                 (after (init Scenario.net (Some "eip155:1") (constructor Scenario.rpc))))
    by (apply configured_init; reflexivity).
  assert (Hn : "eip155:3" <> "eip155:1") by discriminate.
  split; [exact Hc|]. split; [exact Hn|].
  exact (validateChainInclusion_other_chain Scenario.net
           (AnchorProof.mk "eip155:3" Scenario.txCid Scenario.root 100 1600000000)
           "eip155:1" _ Hc Hn).
Defined.

(** What the configured validator answers to a proof for another chain. *)
Example other_chain_message :
  result (validateChainInclusion Scenario.net
            (AnchorProof.mk "eip155:3" Scenario.txCid Scenario.root 100 1600000000)
            (after (init Scenario.net (Some "eip155:1") (constructor Scenario.rpc))))
  = Throw "Unsupported chainId 'eip155:3'. Configured anchor service only supports 'eip155:1'".
Proof. vm_compute. reflexivity. Qed.

(** The order of the calls matters: a provider that was cached before
    [init] configured another chain is still served afterwards. *)
Example provider_cached_before_init_is_still_served :
  result (validateChainInclusion Scenario.net
            (AnchorProof.mk "eip155:3" Scenario.txCid Scenario.root 100 1600000000)
            (after (init Scenario.net (Some "eip155:1")
                      (after (validateChainInclusion Scenario.net
                                (AnchorProof.mk "eip155:3" Scenario.txCid Scenario.root 100 1600000000)
                                (constructor Scenario.rpc))))))
  = Return tt.
Proof. vm_compute. reflexivity. Qed.

(** ** Initialisation without a chain id *)

(** C9. [init(null)] returns at once: the validator, its caches included,
    is unchanged and no call is made.  On a fresh validator the configured
    chain id stays unset, and a validator without a configured chain id
    resolves a provider for every eip155 chain for which one is available,
    whichever chain it is. *)
Theorem init_null net this :
  init net None this = (Return tt, this, []) /\
  (forall endpoint, _chainId (after (init net None (constructor endpoint))) = None) /\
  (forall chain,
     _chainId this = None ->
     JS.startsWith chain "eip155" = true ->
     JS.truthy (ethereumRpcEndpoint this) = true \/ ETH_CHAIN_ID_MAPPINGS chain <> None ->
     exists p, result (_getEthProvider chain (after (init net None this))) = Return p).
Proof.
  split; [reflexivity|]. split; [reflexivity|].
  intros chain Hc Hns Hav. change (after (init net None this)) with this.
  destruct (LRUMap.peek chain (providersCache this)) as [p|] eqn:E.
  - exists p. rewrite (_getEthProvider_hit _ _ _ E). reflexivity.
  - rewrite (_getEthProvider_miss _ _ E). rewrite Hns, Hc. simpl.
    destruct (JS.truthy (ethereumRpcEndpoint this)).
    + eexists; reflexivity.
    + destruct Hav as [Hav|Hav]; [discriminate|].
      destruct (ETH_CHAIN_ID_MAPPINGS chain); [eexists; reflexivity|contradiction].
Qed.

Lemma init_null_witness :
  _chainId (constructor Scenario.rpc) = None /\
  JS.startsWith "eip155:1337" "eip155" = true /\
  exists p,
    result (_getEthProvider "eip155:1337"
              (after (init Scenario.net None (constructor Scenario.rpc))))
    = Return p.
Proof.
  split; [reflexivity|]. split; [reflexivity|].
  exact (proj2 (proj2 (init_null Scenario.net (constructor Scenario.rpc)))
           "eip155:1337" eq_refl eq_refl (or_introl eq_refl)).
Defined.

Example init_null_then_two_chains :
  let this1 := after (init Scenario.net None (constructor Scenario.rpc)) in
  let this2 := after (validateChainInclusion Scenario.net Scenario.proof this1) in
  result (validateChainInclusion Scenario.net Scenario.proof this1) = Return tt /\
  result (validateChainInclusion Scenario.net
            (AnchorProof.mk "eip155:3" Scenario.txCid Scenario.root 100 1600000000) this2)
  = Return tt.
Proof. vm_compute. split; reflexivity. Qed.

(** ** Cached providers *)

(** C10. A chain identifier that has a provider in the providers cache is
    answered with that provider: [_getEthProvider] returns it without
    throwing and without a call, whatever the identifier looks like and
    whatever chain id is configured; the lookup only marks the entry as the
    most recently used one. *)
Theorem _getEthProvider_cached chain this p :
  LRUMap.peek chain (providersCache this) = Some p ->
  _getEthProvider chain this
  = (Return p,
     with_providersCache (snd (LRUMap.get chain (providersCache this))) this,
     []) /\
  (forall k, LRUMap.peek k (providersCache (after (_getEthProvider chain this)))
             = LRUMap.peek k (providersCache this)).
Proof.
  intros H. rewrite (_getEthProvider_hit _ _ _ H). split; [reflexivity|].
  intros k. simpl. apply LRUFacts.peek_get.
Qed.

Lemma _getEthProvider_cached_witness :
  let this :=
    {| ethereumRpcEndpoint := None;
       _chainId := Some "eip155:1";
       providersCache :=
         LRUMap.mk 100 [("cosmos:cosmoshub-4", DefaultProvider "mainnet");
                        ("eip155:3", DefaultProvider "ropsten")];
       _transactionCache := LRUMap.new 50;
       _blockCache := LRUMap.new 50 |} in
  JS.startsWith "cosmos:cosmoshub-4" "eip155" = false /\
  _chainId this <> Some "cosmos:cosmoshub-4" /\
  LRUMap.peek "cosmos:cosmoshub-4" (providersCache this) = Some (DefaultProvider "mainnet") /\
  result (_getEthProvider "cosmos:cosmoshub-4" this) = Return (DefaultProvider "mainnet").
Proof.
  cbv zeta.
  split; [reflexivity|]. split; [discriminate|]. split; [reflexivity|].
  match goal with
  | |- result (_getEthProvider ?c ?s) = Return ?p =>
      rewrite (proj1 (_getEthProvider_cached c s p eq_refl))
  end.
  reflexivity.
Defined.

(** ** Bounded caches with least-recently-used eviction *)

Lemma reachable_caches_bounded this :
  reachable this ->
  LRUMap.limit (providersCache this) = 100%nat /\
  (LRUMap.size (providersCache this) <= 100)%nat /\
  LRUMap.limit (_transactionCache this) = 50%nat /\
  (LRUMap.size (_transactionCache this) <= 50)%nat /\
  LRUMap.limit (_blockCache this) = 50%nat /\
  (LRUMap.size (_blockCache this) <= 50)%nat.
Proof.
  intros H. apply reachable_consistent in H.
  destruct H as ([_ Hp] & Hpl & [_ Ht] & Htl & [_ Hb] & Hbl & _).
  rewrite Hpl in Hp. rewrite Htl in Ht. rewrite Hbl in Hb.
  unfold MAX_PROVIDERS_COUNT, TRANSACTION_CACHE_SIZE, BLOCK_CACHE_SIZE in *.
  auto 10.
Qed.

Lemma set_on_full_cache {V} (m : LRUMap.t V) k v k0 v0 :
  LRUMap.wf m ->
  LRUMap.size m = LRUMap.limit m ->
  LRUMap.oldest m = Some (k0, v0) ->
  LRUMap.peek k m = None ->
  LRUMap.entries (LRUMap.set k v m) = (tl (LRUMap.entries m) ++ [(k, v)])%list.
Proof.
  unfold LRUMap.wf, LRUMap.size, LRUMap.oldest, LRUMap.peek, LRUMap.set.
  intros [Hnd _] Hfull Hold Hnew. rewrite Hnew.
  rewrite length_app. simpl List.length.
  destruct (Nat.ltb_spec (LRUMap.limit m) (List.length (LRUMap.entries m) + 1)) as [_|Hge];
    [|lia].
  destruct (LRUMap.entries m); [discriminate|reflexivity].
Qed.

(** In a cache that is full, storing a value under a new key drops the
    entry at the head of the list and nothing else. *)
Lemma full_cache_eviction {V} (m : LRUMap.t V) k v k0 v0 :
  LRUMap.wf m ->
  LRUMap.size m = LRUMap.limit m ->
  LRUMap.oldest m = Some (k0, v0) ->
  LRUMap.peek k m = None ->
  LRUMap.size (LRUMap.set k v m) = LRUMap.limit m /\
  LRUMap.keys (LRUMap.set k v m) = (tl (LRUMap.keys m) ++ [k])%list /\
  fst (LRUMap.get k0 (LRUMap.set k v m)) = None /\
  fst (LRUMap.get k (LRUMap.set k v m)) = Some v /\
  (forall k' v',
     k' <> k0 ->
     fst (LRUMap.get k' m) = Some v' ->
     fst (LRUMap.get k' (LRUMap.set k v m)) = Some v').
Proof.
  intros Hwf Hfull Hold Hnew.
  pose proof (set_on_full_cache m k v k0 v0 Hwf Hfull Hold Hnew) as Hes.
  destruct Hwf as [Hnd Hsz].
  unfold LRUMap.size, LRUMap.keys, LRUMap.oldest, LRUMap.peek in *.
  rewrite !LRUFacts.get_value. unfold LRUMap.peek. rewrite Hes.
  destruct (LRUMap.entries m) as [|[k1 v1] es] eqn:Ees; [discriminate|].
  injection Hold as -> ->. simpl in *.
  inversion Hnd as [|? ? Hout Hnd']; subst.
  destruct (String.eqb k k0) eqn:Ek; [discriminate|].
  repeat match goal with |- _ /\ _ => split end.
  - rewrite length_app. simpl. lia.
  - rewrite map_app. reflexivity.
  - rewrite LRUFacts.find_app.
    apply LRUFacts.find_None_not_In in Hout. rewrite Hout. simpl.
    rewrite String.eqb_sym, Ek. reflexivity.
  - rewrite LRUFacts.find_app, Hnew. simpl. rewrite String.eqb_refl. reflexivity.
  - intros k' v' Hne. rewrite !LRUFacts.get_value. unfold LRUMap.peek.
    rewrite Hes, Ees. simpl.
    destruct (String.eqb k' k0) eqn:Ek'; [apply String.eqb_eq in Ek'; contradiction|].
    intros Hf. rewrite LRUFacts.find_app, Hf. reflexivity.
Qed.

(** A lookup touches: the entry that was read last is not the one that the
    next insertion drops. *)
Example lookup_refreshes :
  let m := LRUMap.mk 2 [("0xa", 1); ("0xb", 2)] in
  LRUMap.keys (LRUMap.set "0xc" 3 (snd (LRUMap.get "0xa" m))) = ["0xa"; "0xc"] /\
  LRUMap.keys (LRUMap.set "0xc" 3 m) = ["0xb"; "0xc"].
Proof. split; reflexivity. Qed.

(** ** Conflict resolution *)

(** C7. For a stream whose tip is [T], an update commit whose
    previous-commit link is another address than that of [T] is rejected
    as stale, and the state of the stream, the length of its log included,
    is what it was. *)
Theorem stale_update_is_rejected validated s T c T' :
  Stream.tip s = Some T ->
  Stream.is_update c ->
  Stream.prev c = Some T' ->
  T' <> Stream.address T ->
  Stream.applyCommit validated s c = (Stream.Reject Stream.stale_tip, s) /\
  List.length (Stream.log (snd (Stream.applyCommit validated s c)))
  = List.length (Stream.log s).
Proof.
  intros Htip [[payload Hkind] _] Hprev Hne.
  assert (H : Stream.applyCommit validated s c = (Stream.Reject Stream.stale_tip, s)).
  { unfold Stream.applyCommit, Stream.resolve. rewrite Htip, Hkind, Hprev.
    apply String.eqb_neq in Hne. rewrite Hne. reflexivity. }
  rewrite H. split; reflexivity.
Qed.

Lemma stale_update_is_rejected_witness :
  Stream.tip DaemonTest.streamCopy = Some DaemonTest.anchor /\
  Stream.is_update DaemonTest.rejected /\
  List.length (Stream.log DaemonTest.streamCopy) = 2%nat /\
  Stream.applyCommit (fun _ => true) DaemonTest.streamCopy DaemonTest.rejected
  = (Stream.Reject Stream.stale_tip, DaemonTest.streamCopy) /\
  List.length
    (Stream.log (snd (Stream.applyCommit (fun _ => true) DaemonTest.streamCopy
                        DaemonTest.rejected)))
  = 2%nat.
Proof.
  assert (Hu : Stream.is_update DaemonTest.rejected).
  { split; [eexists; reflexivity|discriminate]. }
  assert (Hne : "bagcqcera-genesis" <> Stream.address DaemonTest.anchor) by discriminate.
  split; [reflexivity|]. split; [exact Hu|]. split; [reflexivity|].
  exact (stale_update_is_rejected (fun _ => true) DaemonTest.streamCopy DaemonTest.anchor
           DaemonTest.rejected "bagcqcera-genesis" eq_refl Hu eq_refl Hne).
Defined.

(** ** The course of [_getTransactionAndBlockInfo] *)

Lemma load_transaction_endpoint net p txHash this :
  ethereumRpcEndpoint (after (load_transaction net p txHash this)) = ethereumRpcEndpoint this.
Proof.
  unfold load_transaction. unfold_methods.
  destruct (LRUMap.get txHash (_transactionCache this)) as [[[t|]|] c]; simpl;
    try reflexivity; destruct (getTransaction net p txHash); reflexivity.
Qed.

(** The method step by step: provider, transaction, block; every throw
    passes through the handler, which logs and throws again. *)
Lemma _getTransactionAndBlockInfo_course net chainId txHash this :
  match _getEthProvider chainId this with
  | (Throw e, this1, tr1) =>
      _getTransactionAndBlockInfo net chainId txHash this
      = (Throw e, this1, tr1 ++ [LoggerErr (loading_error_message txHash e)])%list
  | (Return p, this1, tr1) =>
      match load_transaction net p txHash this1 with
      | (Throw e, this2, tr2) =>
          _getTransactionAndBlockInfo net chainId txHash this
          = (Throw e, this2,
             tr1 ++ tr2 ++ [LoggerErr (loading_error_message txHash e)])%list
      | (Return None, this2, tr2) =>
          _getTransactionAndBlockInfo net chainId txHash this
          = (Throw (transaction_not_found_message this2 txHash), this2,
             tr1 ++ tr2 ++
             [LoggerErr (loading_error_message txHash
                           (transaction_not_found_message this2 txHash))])%list
      | (Return (Some transaction), this2, tr2) =>
          match load_block net p (TransactionResponse.blockHash transaction) this2 with
          | (Throw e, this3, tr3) =>
              _getTransactionAndBlockInfo net chainId txHash this
              = (Throw e, this3,
                 tr1 ++ tr2 ++ tr3 ++ [LoggerErr (loading_error_message txHash e)])%list
          | (Return None, this3, tr3) =>
              _getTransactionAndBlockInfo net chainId txHash this
              = (Throw (block_not_found_message this2 transaction), this3,
                 tr1 ++ tr2 ++ tr3 ++
                 [LoggerErr (loading_error_message txHash
                               (block_not_found_message this2 transaction))])%list
          | (Return (Some block), this3, tr3) =>
              _getTransactionAndBlockInfo net chainId txHash this
              = (Return (transaction, block), this3, tr1 ++ tr2 ++ tr3)%list
          end
      end
  end.
Proof.
  destruct (_getEthProvider chainId this) as [[[p|e] this1] tr1] eqn:Ep.
  - destruct (load_transaction net p txHash this1)
      as [[[[transaction|]|e] this2] tr2] eqn:Et.
    + destruct (load_block net p (TransactionResponse.blockHash transaction) this2)
        as [[[[block|]|e] this3] tr3] eqn:Eb;
        rewrite _getTransactionAndBlockInfo_blocks; unfold try_catch;
        unfold bind at 1; rewrite Ep; unfold bind at 1; rewrite Et;
        unfold bind at 1; unfold this_ at 1; unfold bind at 1; rewrite Eb.
      * unfold ret. simpl. rewrite app_nil_r. reflexivity.
      * unfold block_not_found_message.
        destruct (JS.truthy (ethereumRpcEndpoint this2));
          unfold throw, bind, emit; simpl;
          rewrite ?app_nil_r, <- ?app_assoc; reflexivity.
      * unfold throw, bind, emit; simpl. rewrite ?app_nil_r, <- ?app_assoc. reflexivity.
    + rewrite _getTransactionAndBlockInfo_blocks; unfold try_catch.
      unfold bind at 1; rewrite Ep; unfold bind at 1; rewrite Et.
      unfold bind at 1. unfold this_ at 1. unfold transaction_not_found_message.
      destruct (JS.truthy (ethereumRpcEndpoint this2));
        unfold throw, bind, emit; simpl;
        rewrite ?app_nil_r, <- ?app_assoc; reflexivity.
    + rewrite _getTransactionAndBlockInfo_blocks; unfold try_catch.
      unfold bind at 1; rewrite Ep; unfold bind at 1; rewrite Et.
      unfold throw, bind, emit; simpl. rewrite ?app_nil_r, <- ?app_assoc. reflexivity.
  - rewrite _getTransactionAndBlockInfo_blocks; unfold try_catch.
    unfold bind at 1; rewrite Ep. reflexivity.
Qed.

(** [validateChainInclusion] throws whatever [_getTransactionAndBlockInfo]
    throws. *)
Lemma validateChainInclusion_rethrows net anchorProof this e :
  result (_getTransactionAndBlockInfo net (AnchorProof.chainId anchorProof)
            (txHash_of anchorProof) this) = Throw e ->
  result (validateChainInclusion net anchorProof this) = Throw e.
Proof.
  unfold validateChainInclusion, bind, result.
  destruct (_getTransactionAndBlockInfo net _ _ this) as [[[fetched|e'] this1] tr]; simpl.
  - discriminate.
  - intros [= ->]; reflexivity.
Qed.

Lemma _getEthProvider_frame_eq chain this r this1 tr :
  _getEthProvider chain this = (r, this1, tr) ->
  tr = [] /\
  ethereumRpcEndpoint this1 = ethereumRpcEndpoint this /\
  _chainId this1 = _chainId this /\
  _transactionCache this1 = _transactionCache this /\
  _blockCache this1 = _blockCache this.
Proof.
  intros H. pose proof (_getEthProvider_frame chain this) as F.
  rewrite H in F. unfold trace, after in F; simpl in F. tauto.
Qed.

(** A provider that was just resolved is in the cache. *)
Lemma resolved_provider_is_cached chain this p this1 tr :
  consistent this ->
  _getEthProvider chain this = (Return p, this1, tr) ->
  LRUMap.peek chain (providersCache this1) = Some p.
Proof.
  intros ([Hnd _] & Hlim & _) H.
  destruct (LRUMap.peek chain (providersCache this)) as [q|] eqn:E.
  - rewrite (_getEthProvider_hit _ _ _ E) in H. injection H as <- <- _.
    simpl. rewrite LRUFacts.peek_get. exact E.
  - rewrite (_getEthProvider_miss _ _ E) in H.
    assert (Hpos : (0 < LRUMap.limit (providersCache this))%nat)
      by (rewrite Hlim; unfold MAX_PROVIDERS_COUNT; lia).
    destruct (negb (JS.startsWith chain "eip155")); [discriminate|].
    destruct (JS.truthy (_chainId this) && _); [discriminate|].
    destruct (JS.truthy (ethereumRpcEndpoint this)).
    + injection H as <- <- _. simpl. apply LRUFacts.peek_set_same; assumption.
    + destruct (ETH_CHAIN_ID_MAPPINGS chain); [|discriminate].
      injection H as <- <- _. simpl. apply LRUFacts.peek_set_same; assumption.
Qed.

(** Loading a transaction that is served returns it, leaves it cached and
    touches nothing but the transaction cache. *)
Lemma load_transaction_served net p txHash this transaction :
  LRUMap.wf (_transactionCache this) ->
  (0 < LRUMap.limit (_transactionCache this))%nat ->
  served_transaction net p txHash this transaction ->
  exists this2 tr2,
    load_transaction net p txHash this = (Return (Some transaction), this2, tr2) /\
    nullable (LRUMap.peek txHash (_transactionCache this2)) = Some transaction /\
    ethereumRpcEndpoint this2 = ethereumRpcEndpoint this /\
    providersCache this2 = providersCache this /\
    _blockCache this2 = _blockCache this.
Proof.
  intros Hwf Hpos [Hc|[Hc Hf]].
  - rewrite (load_transaction_cached _ _ _ _ _ Hc).
    do 2 eexists. split; [reflexivity|]. simpl.
    rewrite LRUFacts.peek_get. auto.
  - rewrite (load_transaction_fetched _ _ _ _ _ Hc Hf).
    do 2 eexists. split; [reflexivity|]. simpl.
    rewrite LRUFacts.peek_set_same.
    + auto.
    + rewrite LRUFacts.get_limit. assumption.
    + apply LRUFacts.wf_get. assumption.
Qed.

(** Without a cached record the provider is asked for the transaction. *)
Lemma asks_for_transaction net chainId txHash this p this1 tr1 :
  _getEthProvider chainId this = (Return p, this1, tr1) ->
  nullable (LRUMap.peek txHash (_transactionCache this)) = None ->
  In (CallGetTransaction p txHash)
     (trace (_getTransactionAndBlockInfo net chainId txHash this)).
Proof.
  intros Hp Hc.
  destruct (_getEthProvider_frame_eq _ _ _ _ _ Hp) as (_ & _ & _ & Htc & _).
  rewrite <- Htc in Hc.
  pose proof (_getTransactionAndBlockInfo_course net chainId txHash this) as C.
  rewrite Hp in C.
  destruct (getTransaction net p txHash) as [t|e] eqn:Ht.
  - rewrite (load_transaction_fetched _ _ _ _ _ Hc Ht) in C.
    destruct t as [t|].
    + destruct (load_block net p (TransactionResponse.blockHash t) _) as [[[[b|]|e] this3] tr3];
        rewrite C; unfold trace; simpl; rewrite in_app_iff; right; left; reflexivity.
    + rewrite C; unfold trace; simpl; rewrite in_app_iff; right; left; reflexivity.
  - rewrite (load_transaction_rejected _ _ _ _ _ Hc Ht) in C.
    rewrite C; unfold trace; simpl; rewrite in_app_iff; right; left; reflexivity.
Qed.

(** With the transaction at hand and without a cached block, the provider
    is asked for the block. *)
Lemma asks_for_block net chainId txHash this p this1 tr1 transaction this2 tr2 :
  _getEthProvider chainId this = (Return p, this1, tr1) ->
  load_transaction net p txHash this1 = (Return (Some transaction), this2, tr2) ->
  nullable (LRUMap.peek (TransactionResponse.blockHash transaction) (_blockCache this2)) = None ->
  In (CallGetBlock p (TransactionResponse.blockHash transaction))
     (trace (_getTransactionAndBlockInfo net chainId txHash this)).
Proof.
  intros Hp Ht Hc.
  pose proof (_getTransactionAndBlockInfo_course net chainId txHash this) as C.
  rewrite Hp, Ht in C.
  destruct (getBlock net p (TransactionResponse.blockHash transaction)) as [b|e] eqn:Hb.
  - rewrite (load_block_fetched _ _ _ _ _ Hc Hb) in C.
    destruct b as [b|]; rewrite C; unfold trace; simpl;
      rewrite !in_app_iff; right; right; left; reflexivity.
  - rewrite (load_block_rejected _ _ _ _ _ Hc Hb) in C.
    rewrite C; unfold trace; simpl;
      rewrite !in_app_iff; right; right; left; reflexivity.
Qed.

(** ** Records that are not found *)

Lemma transaction_not_found net chainId txHash this p this1 tr1 :
  _getEthProvider chainId this = (Return p, this1, tr1) ->
  nullable (LRUMap.peek txHash (_transactionCache this)) = None ->
  getTransaction net p txHash = Resolved None ->
  result (_getTransactionAndBlockInfo net chainId txHash this)
  = Throw (transaction_not_found_message this txHash) /\
  after (_getTransactionAndBlockInfo net chainId txHash this)
  = with_transactionCache
      (LRUMap.set txHash None (snd (LRUMap.get txHash (_transactionCache this)))) this1.
Proof.
  intros Hp Hc Hn.
  destruct (_getEthProvider_frame_eq _ _ _ _ _ Hp) as (_ & He & _ & Htc & _).
  pose proof (_getTransactionAndBlockInfo_course net chainId txHash this) as C.
  rewrite Hp in C. rewrite <- Htc in Hc.
  rewrite (load_transaction_fetched _ _ _ _ _ Hc Hn) in C.
  rewrite C. unfold result, after; simpl. rewrite Htc.
  unfold transaction_not_found_message; simpl. rewrite He. split; reflexivity.
Qed.

Lemma block_not_found net chainId txHash this p this1 tr1 transaction :
  LRUMap.wf (_transactionCache this) ->
  (0 < LRUMap.limit (_transactionCache this))%nat ->
  _getEthProvider chainId this = (Return p, this1, tr1) ->
  served_transaction net p txHash this transaction ->
  nullable (LRUMap.peek (TransactionResponse.blockHash transaction) (_blockCache this)) = None ->
  getBlock net p (TransactionResponse.blockHash transaction) = Resolved None ->
  exists this2 tr2,
    load_transaction net p txHash this1 = (Return (Some transaction), this2, tr2) /\
    nullable (LRUMap.peek txHash (_transactionCache this2)) = Some transaction /\
    providersCache this2 = providersCache this1 /\
    result (_getTransactionAndBlockInfo net chainId txHash this)
    = Throw (block_not_found_message this transaction) /\
    after (_getTransactionAndBlockInfo net chainId txHash this)
    = with_blockCache
        (LRUMap.set (TransactionResponse.blockHash transaction) None
           (snd (LRUMap.get (TransactionResponse.blockHash transaction) (_blockCache this))))
        this2.
Proof.
  intros Hwf Hpos Hp Hs Hc Hn.
  destruct (_getEthProvider_frame_eq _ _ _ _ _ Hp) as (_ & He & _ & Htc & Hbc).
  assert (Hs1 : served_transaction net p txHash this1 transaction)
    by (unfold served_transaction in *; rewrite Htc; exact Hs).
  rewrite <- Htc in Hwf, Hpos.
  destruct (load_transaction_served net p txHash this1 transaction Hwf Hpos Hs1)
    as (this2 & tr2 & Ht & Hcached & He2 & Hp2 & Hb2).
  exists this2, tr2.
  pose proof (_getTransactionAndBlockInfo_course net chainId txHash this) as C.
  rewrite Hp, Ht in C.
  rewrite <- Hbc, <- Hb2 in Hc.
  rewrite (load_block_fetched _ _ _ _ _ Hc Hn) in C.
  rewrite C. unfold result, after; simpl. rewrite Hb2, Hbc.
  unfold block_not_found_message. rewrite He2, He. auto.
Qed.

Lemma prefix_append a b : String.prefix a (a ++ b) = true.
Proof.
  induction a as [|c a IH]; simpl; [destruct b; reflexivity|].
  destruct (ascii_dec c c); [assumption|contradiction].
Qed.

Lemma includes_prefix hay needle : String.prefix needle hay = true -> JS.includes hay needle = true.
Proof. intros H. destruct hay; simpl in *; rewrite H; reflexivity. Qed.

Lemma includes_append_l pre hay needle :
  JS.includes hay needle = true -> JS.includes (pre ++ hay) needle = true.
Proof.
  intros H. induction pre as [|c pre IH]; simpl; [assumption|].
  rewrite IH. apply orb_true_r.
Qed.

Lemma includes_middle pre needle post : JS.includes (pre ++ needle ++ post) needle = true.
Proof. apply includes_append_l, includes_prefix, prefix_append. Qed.

Lemma includes_end pre needle : JS.includes (pre ++ needle) needle = true.
Proof.
  apply includes_append_l, includes_prefix.
  induction needle as [|c s IH]; simpl; [reflexivity|].
  destruct (ascii_dec c c); [assumption|contradiction].
Qed.

(** C6, as the code has it.  When the provider answers a lookup with an
    empty result, [validateChainInclusion] throws a "Failed to load
    transaction data" error, for the transaction or for the block.  The
    error ends with "Try providing an ethereum rpc endpoint" exactly when
    the validator was built without an RPC endpoint; with an endpoint the
    message stops after the hash. *)
Theorem not_found_errors net anchorProof this p this1 tr1 :
  reachable this ->
  _getEthProvider (AnchorProof.chainId anchorProof) this = (Return p, this1, tr1) ->
  (nullable (LRUMap.peek (txHash_of anchorProof) (_transactionCache this)) = None ->
   getTransaction net p (txHash_of anchorProof) = Resolved None ->
   result (validateChainInclusion net anchorProof this)
   = Throw (if JS.truthy (ethereumRpcEndpoint this)
            then failed_transaction_message (txHash_of anchorProof)
            else failed_transaction_message (txHash_of anchorProof)
                 ++ ". Try providing an ethereum rpc endpoint")) /\
  (forall transaction,
     served_transaction net p (txHash_of anchorProof) this transaction ->
     nullable (LRUMap.peek (TransactionResponse.blockHash transaction) (_blockCache this)) = None ->
     getBlock net p (TransactionResponse.blockHash transaction) = Resolved None ->
     result (validateChainInclusion net anchorProof this)
     = Throw (if JS.truthy (ethereumRpcEndpoint this)
              then failed_block_message transaction
              else failed_block_message transaction
                   ++ ". Try providing an ethereum rpc endpoint")) /\
  (forall message,
     JS.includes (message ++ ". Try providing an ethereum rpc endpoint")
       "Try providing an ethereum rpc endpoint" = true).
Proof.
  intros Hreach Hp.
  apply reachable_consistent in Hreach.
  destruct Hreach as (_ & _ & Hwf & Hlim & _).
  repeat match goal with |- _ /\ _ => split end.
  - intros Hc Hn. apply validateChainInclusion_rethrows.
    apply (transaction_not_found _ _ _ _ _ _ _ Hp Hc Hn).
  - intros transaction Hs Hc Hn. apply validateChainInclusion_rethrows.
    assert (Hpos : (0 < LRUMap.limit (_transactionCache this))%nat)
      by (rewrite Hlim; unfold TRANSACTION_CACHE_SIZE; lia).
    destruct (block_not_found _ _ _ _ _ _ _ _ Hwf Hpos Hp Hs Hc Hn)
      as (this2 & tr2 & _ & _ & _ & Hr & _).
    exact Hr.
  - intros message.
    change (". Try providing an ethereum rpc endpoint")
      with (". " ++ "Try providing an ethereum rpc endpoint").
    apply includes_append_l, includes_end.
Qed.

Lemma not_found_errors_witness :
  reachable (constructor None) /\
  _getEthProvider "eip155:1" (constructor None)
  = (Return (DefaultProvider "mainnet"),
     with_providersCache
       (LRUMap.set "eip155:1" (DefaultProvider "mainnet") (LRUMap.new 100))
       (constructor None),
     []) /\
  result (validateChainInclusion Scenario.silent Scenario.proof (constructor None))
  = Throw "Failed to load transaction data for transaction 0xabcd. Try providing an ethereum rpc endpoint" /\
  result (validateChainInclusion Scenario.blockless Scenario.proof (constructor None))
  = Throw "Failed to load transaction data for block with block number 100 and block hash 0xb10c. Try providing an ethereum rpc endpoint".
Proof.
  assert (Hr : reachable (constructor None)) by constructor.
  assert (Hp : _getEthProvider (AnchorProof.chainId Scenario.proof) (constructor None)
               = (Return (DefaultProvider "mainnet"),
                  with_providersCache
                    (LRUMap.set "eip155:1" (DefaultProvider "mainnet") (LRUMap.new 100))
                    (constructor None),
                  [])) by reflexivity.
  split; [exact Hr|]. split; [exact Hp|]. split.
  - exact (proj1 (not_found_errors Scenario.silent Scenario.proof _ _ _ _ Hr Hp)
             eq_refl eq_refl).
  - exact (proj1 (proj2 (not_found_errors Scenario.blockless Scenario.proof _ _ _ _ Hr Hp))
             Scenario.transaction (or_intror (conj eq_refl eq_refl)) eq_refl eq_refl).
Defined.

(** C6 as stated does not hold: a validator that was given an RPC endpoint
    reports a transaction, or a block, that is not found without suggesting
    an endpoint. *)
Lemma not_found_with_endpoint_has_no_suggestion :
  result (validateChainInclusion Scenario.silent Scenario.proof (constructor Scenario.rpc))
  = Throw "Failed to load transaction data for transaction 0xabcd" /\
  JS.includes "Failed to load transaction data for transaction 0xabcd" "endpoint" = false /\
  result (validateChainInclusion Scenario.blockless Scenario.proof (constructor Scenario.rpc))
  = Throw "Failed to load transaction data for block with block number 100 and block hash 0xb10c" /\
  JS.includes
    "Failed to load transaction data for block with block number 100 and block hash 0xb10c"
    "endpoint" = false.
Proof. vm_compute. repeat split; reflexivity. Qed.

(** ** What a failed fetch leaves in the caches *)

Lemma peek_set_after_get {V} (m : LRUMap.t V) k v :
  LRUMap.wf m -> (0 < LRUMap.limit m)%nat ->
  LRUMap.peek k (LRUMap.set k v (snd (LRUMap.get k m))) = Some v.
Proof.
  intros Hwf Hpos. apply LRUFacts.peek_set_same.
  - rewrite LRUFacts.get_limit. assumption.
  - apply LRUFacts.wf_get. assumption.
Qed.

Lemma cached_provider_resolves chain this p :
  LRUMap.peek chain (providersCache this) = Some p ->
  exists this1,
    _getEthProvider chain this = (Return p, this1, []) /\
    _transactionCache this1 = _transactionCache this /\
    _blockCache this1 = _blockCache this.
Proof.
  intros H. rewrite (_getEthProvider_hit _ _ _ H). eexists. repeat split.
Qed.

(** C2, as the code has it.  When the provider answers with an empty
    transaction, or with an empty block, [_getTransactionAndBlockInfo]
    throws after it has stored the empty answer under the key that failed.
    The stored entry holds no record and is never served: the next call for
    the same key asks the provider again.  An empty transaction leaves the
    block cache as it was, and an empty block leaves the transaction
    cached. *)
Theorem empty_answer_is_stored_but_not_served net chainId txHash this p this1 tr1 :
  reachable this ->
  _getEthProvider chainId this = (Return p, this1, tr1) ->
  (nullable (LRUMap.peek txHash (_transactionCache this)) = None ->
   getTransaction net p txHash = Resolved None ->
   result (_getTransactionAndBlockInfo net chainId txHash this)
   = Throw (transaction_not_found_message this txHash) /\
   LRUMap.peek txHash
     (_transactionCache (after (_getTransactionAndBlockInfo net chainId txHash this)))
   = Some None /\
   _blockCache (after (_getTransactionAndBlockInfo net chainId txHash this))
   = _blockCache this /\
   (forall net',
      In (CallGetTransaction p txHash)
         (trace (_getTransactionAndBlockInfo net' chainId txHash
                   (after (_getTransactionAndBlockInfo net chainId txHash this)))))) /\
  (forall transaction,
     served_transaction net p txHash this transaction ->
     nullable (LRUMap.peek (TransactionResponse.blockHash transaction) (_blockCache this)) = None ->
     getBlock net p (TransactionResponse.blockHash transaction) = Resolved None ->
     result (_getTransactionAndBlockInfo net chainId txHash this)
     = Throw (block_not_found_message this transaction) /\
     LRUMap.peek (TransactionResponse.blockHash transaction)
       (_blockCache (after (_getTransactionAndBlockInfo net chainId txHash this)))
     = Some None /\
     nullable
       (LRUMap.peek txHash
          (_transactionCache (after (_getTransactionAndBlockInfo net chainId txHash this))))
     = Some transaction /\
     (forall net',
        In (CallGetBlock p (TransactionResponse.blockHash transaction))
           (trace (_getTransactionAndBlockInfo net' chainId txHash
                     (after (_getTransactionAndBlockInfo net chainId txHash this)))))).
Proof.
  intros Hreach Hp.
  apply reachable_consistent in Hreach.
  pose proof (resolved_provider_is_cached _ _ _ _ _ Hreach Hp) as Hcached.
  destruct (_getEthProvider_frame_eq _ _ _ _ _ Hp) as (_ & He & _ & Htc & Hbc).
  destruct Hreach as (_ & _ & Hwt & Hlt & Hwb & Hlb & _).
  assert (Hpt : (0 < LRUMap.limit (_transactionCache this))%nat)
    by (rewrite Hlt; unfold TRANSACTION_CACHE_SIZE; lia).
  assert (Hpb : (0 < LRUMap.limit (_blockCache this))%nat)
    by (rewrite Hlb; unfold BLOCK_CACHE_SIZE; lia).
  split.
  - intros Hc Hn.
    destruct (transaction_not_found _ _ _ _ _ _ _ Hp Hc Hn) as [Hr Ha].
    rewrite Ha. simpl.
    repeat match goal with |- _ /\ _ => split end.
    + exact Hr.
    + apply peek_set_after_get; assumption.
    + exact Hbc.
    + intros net'.
      match goal with
      | |- context [_getTransactionAndBlockInfo net' chainId txHash ?s] =>
          destruct (cached_provider_resolves chainId s p Hcached) as (s1 & Hhit & _)
      end.
      eapply asks_for_transaction; [exact Hhit|].
      simpl. rewrite peek_set_after_get by assumption. reflexivity.
  - intros transaction Hs Hc Hn.
    destruct (block_not_found _ _ _ _ _ _ _ _ Hwt Hpt Hp Hs Hc Hn)
      as (this2 & tr2 & Ht & Htx & Hprov & Hr & Ha).
    rewrite Ha. simpl.
    repeat match goal with |- _ /\ _ => split end.
    + exact Hr.
    + apply peek_set_after_get; assumption.
    + exact Htx.
    + intros net'.
      rewrite <- Hprov in Hcached.
      match goal with
      | |- context [_getTransactionAndBlockInfo net' chainId txHash ?s] =>
          destruct (cached_provider_resolves chainId s p Hcached) as (s1 & Hhit & Hst & Hsb)
      end.
      simpl in Hst, Hsb.
      assert (Hserved : nullable (LRUMap.peek txHash (_transactionCache s1)) = Some transaction)
        by (rewrite Hst; exact Htx).
      eapply asks_for_block;
        [exact Hhit|exact (load_transaction_cached net' p txHash s1 transaction Hserved)|].
      simpl. rewrite Hsb. rewrite peek_set_after_get by assumption. reflexivity.
Qed.

Lemma empty_answer_is_stored_but_not_served_witness :
  reachable (constructor None) /\
  _getEthProvider "eip155:1" (constructor None)
  = (Return (DefaultProvider "mainnet"),
     with_providersCache
       (LRUMap.set "eip155:1" (DefaultProvider "mainnet") (LRUMap.new 100))
       (constructor None),
     []) /\
  LRUMap.peek "0xabcd"
    (_transactionCache
       (after (_getTransactionAndBlockInfo Scenario.silent "eip155:1" "0xabcd" (constructor None))))
  = Some None /\
  LRUMap.peek "0xb10c"
    (_blockCache
       (after (_getTransactionAndBlockInfo Scenario.blockless "eip155:1" "0xabcd"
                 (constructor None))))
  = Some None.
Proof.
  assert (Hr : reachable (constructor None)) by constructor.
  assert (Hp : _getEthProvider "eip155:1" (constructor None)
               = (Return (DefaultProvider "mainnet"),
                  with_providersCache
                    (LRUMap.set "eip155:1" (DefaultProvider "mainnet") (LRUMap.new 100))
                    (constructor None),
                  [])) by reflexivity.
  split; [exact Hr|]. split; [exact Hp|]. split.
  - exact (proj1 (proj2
             (proj1 (empty_answer_is_stored_but_not_served Scenario.silent
                       "eip155:1" "0xabcd" _ _ _ _ Hr Hp)
                eq_refl eq_refl))).
  - exact (proj1 (proj2
             (proj2 (empty_answer_is_stored_but_not_served Scenario.blockless
                       "eip155:1" "0xabcd" _ _ _ _ Hr Hp)
                Scenario.transaction (or_intror (conj eq_refl eq_refl)) eq_refl eq_refl))).
Defined.

(** C2 as stated does not hold: after a lookup that the provider answered
    with an empty result, the cache that was empty before holds an entry
    for the failed key. *)
Lemma failed_fetch_adds_a_cache_entry :
  (let o := _getTransactionAndBlockInfo Scenario.silent "eip155:1" "0xabcd" (constructor None) in
   result o = Throw "Failed to load transaction data for transaction 0xabcd. Try providing an ethereum rpc endpoint" /\
   LRUMap.entries (_transactionCache (constructor None)) = [] /\
   LRUMap.entries (_transactionCache (after o)) = [("0xabcd", None)] /\
   _transactionCache (after o) <> _transactionCache (constructor None)) /\
  (let o := _getTransactionAndBlockInfo Scenario.blockless "eip155:1" "0xabcd" (constructor None) in
   result o = Throw "Failed to load transaction data for block with block number 100 and block hash 0xb10c. Try providing an ethereum rpc endpoint" /\
   LRUMap.entries (_blockCache (constructor None)) = [] /\
   LRUMap.entries (_blockCache (after o)) = [("0xb10c", None)] /\
   _blockCache (after o) <> _blockCache (constructor None)).
Proof.
  vm_compute. repeat split; try reflexivity; discriminate.
Qed.

(** The rounding of [parseInt] agrees with the doubles of a JavaScript
    engine on these payloads. *)
Example parseInt16_payload :
  JS.parseInt16 "0xf01711204deadbeef" = JS.Num 276805045184174587904 /\
  JS.parseInt16 "0xff667c02a94b1b16a05a3cdebd4e05135c122c23a5f05b94fd08374510c448582d4b2b410"
  = JS.Num 7938532410664729286935038359381261306133437248771548697893835395619159482753286181748736 /\
  JS.parseInt16 "0x4c1c10c4fb7be94810dcdf92079c054427aaef36d5f6cbb5d27fcc6a6677da59d5217f90"
  = JS.Num 147855812312639053456641739196355711237425838651120670758812533909014163633580070141952.
Proof. vm_compute. repeat split; reflexivity. Qed.

(** The numeric reading keeps 53 significant bits: a payload that differs
    from the root in its low bits has the same reading and is accepted. *)
Example validate_accepts_payload_with_other_low_bits :
  TransactionResponse.data Scenario.transaction = "0xf01711204deadbeef" /\
  result (validateChainInclusion
            {| getNetwork := fun _ => Resolved 1;
               getTransaction := fun _ _ =>
                 Resolved (Some (TransactionResponse.mk "0xf01711204deadbe00" "0xb10c" 100));
               getBlock := fun _ _ => Resolved (Some Scenario.block) |}
            Scenario.proof (constructor None))
  = Return tt.
Proof. vm_compute. split; reflexivity. Qed.

(** A failed lookup takes a place in a full cache: the record that was
    touched least recently is dropped for it. *)
Example failed_fetch_evicts_a_record :
  let full := Scenario.after_lookups 50 (constructor None) in
  let o := _getTransactionAndBlockInfo Scenario.silent "eip155:1" "0xdead" full in
  LRUMap.size (_transactionCache full) = 50%nat /\
  LRUMap.peek "0x1" (_transactionCache full) = Some (Some Scenario.transaction) /\
  LRUMap.peek "0x1" (_transactionCache (after o)) = None /\
  LRUMap.peek "0xdead" (_transactionCache (after o)) = Some None.
Proof. vm_compute. repeat split; reflexivity. Qed.

(** ** Chain identifiers *)

(** C3, as the code has it.  On every validator that a program can hold, a
    chain identifier that does not begin with [eip155] fails provider
    resolution, and with it [validateChainInclusion], with the
    unsupported-namespace error.  When the validator was built without an
    RPC endpoint and its configured chain id, if any, is the identifier
    itself, an identifier that begins with [eip155] and is not a key of
    [ETH_CHAIN_ID_MAPPINGS] fails with "No ethereum provider available for
    chainId" followed by the identifier.  Neither failure makes a provider
    call. *)
Theorem provider_resolution_failures net anchorProof this :
  reachable this ->
  (JS.startsWith (AnchorProof.chainId anchorProof) "eip155" = false ->
   result (_getEthProvider (AnchorProof.chainId anchorProof) this)
   = Throw (unsupported_namespace_message (AnchorProof.chainId anchorProof)) /\
   result (validateChainInclusion net anchorProof this)
   = Throw (unsupported_namespace_message (AnchorProof.chainId anchorProof)) /\
   network_calls (trace (validateChainInclusion net anchorProof this)) = []) /\
  (JS.startsWith (AnchorProof.chainId anchorProof) "eip155" = true ->
   JS.truthy (ethereumRpcEndpoint this) = false ->
   _chainId this = None \/ _chainId this = Some (AnchorProof.chainId anchorProof) ->
   ETH_CHAIN_ID_MAPPINGS (AnchorProof.chainId anchorProof) = None ->
   result (_getEthProvider (AnchorProof.chainId anchorProof) this)
   = Throw (no_provider_message (AnchorProof.chainId anchorProof)) /\
   result (validateChainInclusion net anchorProof this)
   = Throw (no_provider_message (AnchorProof.chainId anchorProof)) /\
   network_calls (trace (validateChainInclusion net anchorProof this)) = []).
Proof.
  intros Hreach. apply reachable_consistent in Hreach.
  destruct Hreach as (_ & _ & _ & _ & _ & _ & Hk).
  set (chain := AnchorProof.chainId anchorProof).
  assert (Hdone : forall e,
            result (_getEthProvider chain this) = Throw e ->
            result (_getEthProvider chain this) = Throw e /\
            result (validateChainInclusion net anchorProof this) = Throw e /\
            network_calls (trace (validateChainInclusion net anchorProof this)) = []).
  { intros e He. split; [exact He|].
    rewrite (validateChainInclusion_provider_throws net anchorProof this e He).
    split; reflexivity. }
  split.
  - intros Hns. apply Hdone.
    assert (Hmiss : LRUMap.peek chain (providersCache this) = None).
    { apply LRUFacts.find_None_not_In. intros Hin.
      destruct (Hk _ Hin) as [Hns' _]. congruence. }
    rewrite (_getEthProvider_miss _ _ Hmiss). rewrite Hns. reflexivity.
  - intros Hns He Hc Hm. apply Hdone.
    assert (Hmiss : LRUMap.peek chain (providersCache this) = None).
    { apply LRUFacts.find_None_not_In. intros Hin.
      destruct (Hk _ Hin) as [_ Htable]. exact (Htable He Hm). }
    rewrite (_getEthProvider_miss _ _ Hmiss). rewrite Hns, He, Hm. simpl.
    destruct Hc as [-> | ->]; simpl; [reflexivity|].
    rewrite String.eqb_refl. rewrite andb_false_r. reflexivity.
Qed.

Lemma provider_resolution_failures_witness :
  reachable (constructor None) /\
  result (validateChainInclusion Scenario.net
            (AnchorProof.mk "cosmos:cosmoshub-4" Scenario.txCid Scenario.root 100 1600000000)
            (constructor None))
  = Throw "Unsupported chainId 'cosmos:cosmoshub-4' - must be eip155 namespace" /\
  result (validateChainInclusion Scenario.net
            (AnchorProof.mk "eip155:1337" Scenario.txCid Scenario.root 100 1600000000)
            (constructor None))
  = Throw "No ethereum provider available for chainId eip155:1337".
Proof.
  assert (Hr : reachable (constructor None)) by constructor.
  split; [exact Hr|]. split.
  - exact (proj1 (proj2
             (proj1 (provider_resolution_failures Scenario.net
                       (AnchorProof.mk "cosmos:cosmoshub-4" Scenario.txCid Scenario.root
                          100 1600000000)
                       (constructor None) Hr)
                eq_refl))).
  - exact (proj1 (proj2
             (proj2 (provider_resolution_failures Scenario.net
                       (AnchorProof.mk "eip155:1337" Scenario.txCid Scenario.root
                          100 1600000000)
                       (constructor None) Hr)
                eq_refl eq_refl (or_introl eq_refl) eq_refl))).
Defined.

(** C3 as stated does not hold.  The namespace check is a prefix check, so
    an identifier of another namespace that begins with [eip155] passes
    it; and a validator that was given an RPC endpoint does not consult
    the table, so an eip155 identifier that the table does not know gets
    the provider of that endpoint and is validated. *)
Lemma provider_resolution_accepts_unlisted_chains :
  chain_namespace "eip1559:1" <> "eip155" /\
  result (_getEthProvider "eip1559:1" (constructor Scenario.rpc))
  = Return (JsonRpcProvider "http://localhost:8545") /\
  chain_namespace "eip155:1337" = "eip155" /\
  ETH_CHAIN_ID_MAPPINGS "eip155:1337" = None /\
  result (_getEthProvider "eip155:1337" (constructor Scenario.rpc))
  = Return (JsonRpcProvider "http://localhost:8545") /\
  result (validateChainInclusion Scenario.net
            (AnchorProof.mk "eip155:1337" Scenario.txCid Scenario.root 100 1600000000)
            (constructor Scenario.rpc))
  = Return tt.
Proof.
  split; [discriminate|]. vm_compute. repeat split; reflexivity.
Qed.

(** ** The mismatch errors *)

Lemma mismatch_messages_distinct anchorProof a b c d :
  root_not_in_transaction_message anchorProof <> block_numbers_message a b /\
  root_not_in_transaction_message anchorProof <> block_timestamps_message c d /\
  block_numbers_message a b <> block_timestamps_message c d.
Proof.
  unfold root_not_in_transaction_message, block_numbers_message, block_timestamps_message.
  simpl. repeat split; discriminate.
Qed.

(** C5, as the code has it.  A proof that disagrees with the fetched
    records is rejected with an error for the first field that disagrees:
    root, then block number, then block timestamp.  The three errors differ
    from one another and name their field.  The block-number and the
    block-timestamp error contain the value of the proof and the value of
    the chain; the root error contains the root of the proof. *)
Theorem mismatch_errors net anchorProof this transaction block :
  result (_getTransactionAndBlockInfo net (AnchorProof.chainId anchorProof)
            (txHash_of anchorProof) this) = Return (transaction, block) ->
  (rootValueHexNumber anchorProof <> txValueHexNumber transaction ->
   result (validateChainInclusion net anchorProof this)
   = Throw (root_not_in_transaction_message anchorProof) /\
   JS.startsWith (root_not_in_transaction_message anchorProof) "The root CID " = true /\
   JS.includes (root_not_in_transaction_message anchorProof)
     (CID.toString (AnchorProof.root anchorProof)) = true) /\
  (rootValueHexNumber anchorProof = txValueHexNumber transaction ->
   AnchorProof.blockNumber anchorProof <> TransactionResponse.blockNumber transaction ->
   let message :=
     block_numbers_message (AnchorProof.blockNumber anchorProof)
       (TransactionResponse.blockNumber transaction) in
   result (validateChainInclusion net anchorProof this) = Throw message /\
   JS.startsWith message "Block numbers are not the same" = true /\
   JS.includes message (JS.show_Z (AnchorProof.blockNumber anchorProof)) = true /\
   JS.includes message (JS.show_Z (TransactionResponse.blockNumber transaction)) = true) /\
  (rootValueHexNumber anchorProof = txValueHexNumber transaction ->
   AnchorProof.blockNumber anchorProof = TransactionResponse.blockNumber transaction ->
   AnchorProof.blockTimestamp anchorProof <> Block.timestamp block ->
   let message :=
     block_timestamps_message (AnchorProof.blockTimestamp anchorProof)
       (Block.timestamp block) in
   result (validateChainInclusion net anchorProof this) = Throw message /\
   JS.startsWith message "Block timestamps are not the same" = true /\
   JS.includes message (JS.show_Z (AnchorProof.blockTimestamp anchorProof)) = true /\
   JS.includes message (JS.show_Z (Block.timestamp block)) = true) /\
  (forall a b c d,
     root_not_in_transaction_message anchorProof <> block_numbers_message a b /\
     root_not_in_transaction_message anchorProof <> block_timestamps_message c d /\
     block_numbers_message a b <> block_timestamps_message c d).
Proof.
  intros Hinfo.
  pose proof (strict_neq_false (txValueHexNumber transaction)
                (rootValueHexNumber anchorProof)
                (rootValueHexNumber_not_NaN anchorProof)) as Hroot.
  assert (Hrun : result (validateChainInclusion net anchorProof this) =
                 if JS.strict_neq (txValueHexNumber transaction) (rootValueHexNumber anchorProof)
                 then Throw (root_not_in_transaction_message anchorProof)
                 else if negb (AnchorProof.blockNumber anchorProof
                               =? TransactionResponse.blockNumber transaction)
                 then Throw (block_numbers_message (AnchorProof.blockNumber anchorProof)
                               (TransactionResponse.blockNumber transaction))
                 else if negb (AnchorProof.blockTimestamp anchorProof =? Block.timestamp block)
                 then Throw (block_timestamps_message (AnchorProof.blockTimestamp anchorProof)
                               (Block.timestamp block))
                 else Return tt).
  { unfold validateChainInclusion, bind, result in *.
    destruct (_getTransactionAndBlockInfo net _ _ this) as [[r this1] tr].
    simpl in Hinfo. subst r. simpl.
    destruct (JS.strict_neq _ _); [reflexivity|].
    destruct (negb (AnchorProof.blockNumber anchorProof =? _)); [reflexivity|].
    destruct (negb (AnchorProof.blockTimestamp anchorProof =? _)); reflexivity. }
  split; [|split; [|split]].
  - intros Hne. split; [|split].
    + rewrite Hrun. destruct (JS.strict_neq _ _); [reflexivity|].
      exfalso. apply Hne. apply (proj1 Hroot). reflexivity.
    + reflexivity.
    + apply includes_middle.
  - intros Heq Hne message. subst message. split; [|split; [|split]].
    + rewrite Hrun.
      destruct (JS.strict_neq _ _) eqn:E;
        [discriminate (proj2 Hroot Heq)|].
      apply Z.eqb_neq in Hne. rewrite Hne. reflexivity.
    + reflexivity.
    + apply includes_middle.
    + unfold block_numbers_message.
      do 2 apply includes_append_l. apply includes_end.
  - intros Heq Hbn Hne message. subst message. split; [|split; [|split]].
    + rewrite Hrun.
      destruct (JS.strict_neq _ _) eqn:E;
        [discriminate (proj2 Hroot Heq)|].
      apply Z.eqb_eq in Hbn. rewrite Hbn. apply Z.eqb_neq in Hne. rewrite Hne. reflexivity.
    + reflexivity.
    + apply includes_middle.
    + unfold block_timestamps_message.
      do 2 apply includes_append_l. apply includes_end.
  - intros a b c d. apply mismatch_messages_distinct.
Qed.

Lemma mismatch_errors_witness :
  result (_getTransactionAndBlockInfo Scenario.net "eip155:1" "0xabcd" (constructor None))
  = Return (Scenario.transaction, Scenario.block) /\
  result (validateChainInclusion Scenario.net
            (AnchorProof.mk "eip155:1" Scenario.txCid Scenario.root 101 1600000000)
            (constructor None))
  = Throw "Block numbers are not the same. AnchorProof blockNumber: 101, eth txn blockNumber: 100" /\
  result (validateChainInclusion Scenario.net
            (AnchorProof.mk "eip155:1" Scenario.txCid Scenario.root 100 1600000001)
            (constructor None))
  = Throw "Block timestamps are not the same. AnchorProof blockTimestamp: 1600000001, eth txn blockTimestamp: 1600000000" /\
  result (validateChainInclusion Scenario.net
            (AnchorProof.mk "eip155:1" Scenario.txCid Scenario.txCid 100 1600000000)
            (constructor None))
  = Throw "The root CID bagjqcgycvpgq is not in the transaction".
Proof.
  split; [reflexivity|]. split; [|split].
  - refine (proj1 (proj1 (proj2
              (mismatch_errors Scenario.net
                 (AnchorProof.mk "eip155:1" Scenario.txCid Scenario.root 101 1600000000)
                 (constructor None) Scenario.transaction Scenario.block
                 eq_refl)) _ _)).
    + vm_compute. reflexivity.
    + simpl. lia.
  - refine (proj1 (proj1 (proj2 (proj2
              (mismatch_errors Scenario.net
                 (AnchorProof.mk "eip155:1" Scenario.txCid Scenario.root 100 1600000001)
                 (constructor None) Scenario.transaction Scenario.block
                 eq_refl))) _ _ _)).
    + vm_compute. reflexivity.
    + reflexivity.
    + simpl. lia.
  - refine (proj1 (proj1
              (mismatch_errors Scenario.net
                 (AnchorProof.mk "eip155:1" Scenario.txCid Scenario.txCid 100 1600000000)
                 (constructor None) Scenario.transaction Scenario.block
                 eq_refl) _)).
    vm_compute. discriminate.
Defined.

(** C5 as stated does not hold for the root: the error for a root that is
    not in the transaction shows the root of the proof and nothing of the
    payload of the transaction, neither its text nor its numeric
    reading. *)
Lemma root_error_omits_the_chain_value :
  let anchorProof := AnchorProof.mk "eip155:1" Scenario.txCid Scenario.txCid 100 1600000000 in
  let message := "The root CID bagjqcgycvpgq is not in the transaction" in
  result (validateChainInclusion Scenario.net anchorProof (constructor None)) = Throw message /\
  TransactionResponse.data Scenario.transaction = "0xf01711204deadbeef" /\
  txValueHexNumber Scenario.transaction = JS.Num 276805045184174587904 /\
  JS.includes message "0xf01711204deadbeef" = false /\
  JS.includes message "f01711204deadbeef" = false /\
  JS.includes message "276805045184174587904" = false /\
  JS.includes message "2768" = false.
Proof. vm_compute. repeat split; reflexivity. Qed.

(** * Further properties of the validator *)

(** ** The course of [init] *)

(** [init] for a chain id step by step: provider, network, comparison. *)
Lemma init_course net c this :
  JS.truthy (Some c) = true ->
  match _getEthProvider c this with
  | (Throw e, this1, tr1) => init net (Some c) this = (Throw e, this1, tr1)
  | (Return p, this1, tr1) =>
      match getNetwork net p with
      | Rejected e =>
          init net (Some c) this = (Throw e, this1, tr1 ++ [CallGetNetwork p])%list
      | Resolved n =>
          if String.eqb c (BASE_CHAIN_ID ++ ":" ++ JS.show_Z n) then
            init net (Some c) this
            = (Return tt, with_chainId (Some c) this1, tr1 ++ [CallGetNetwork p])%list
          else
            init net (Some c) this
            = (Throw (wrong_provider_message (BASE_CHAIN_ID ++ ":" ++ JS.show_Z n)
                        (_chainId this1)),
               this1, tr1 ++ [CallGetNetwork p])%list
      end
  end.
Proof.
  intros Ht.
  assert (E : init net (Some c) this =
              (provider <- _getEthProvider c ;;
               provider_chain_idnum <- await (CallGetNetwork provider) (getNetwork net provider) ;;
               this <- this_ ;;
               if negb (String.eqb c (BASE_CHAIN_ID ++ ":" ++ JS.show_Z provider_chain_idnum))
               then throw (wrong_provider_message
                             (BASE_CHAIN_ID ++ ":" ++ JS.show_Z provider_chain_idnum)
                             (_chainId this))
               else fun this0 => (Return tt, with_chainId (Some c) this0, [])) this).
  { unfold init. rewrite Ht. reflexivity. }
  destruct (_getEthProvider c this) as [[[p|e] this1] tr1] eqn:Ep.
  - destruct (getNetwork net p) as [n|e] eqn:En.
    + destruct (String.eqb c (BASE_CHAIN_ID ++ ":" ++ JS.show_Z n)) eqn:Ec;
        rewrite E; unfold bind at 1; rewrite Ep; unfold bind at 1; unfold await;
        rewrite En; unfold bind at 1; unfold this_ at 1; rewrite Ec; reflexivity.
    + rewrite E; unfold bind at 1; rewrite Ep; unfold bind at 1; unfold await;
        rewrite En; reflexivity.
  - rewrite E; unfold bind at 1; rewrite Ep; reflexivity.
Qed.

(** X1. [init] for a chain id returns exactly when a provider is resolved
    for it, the provider answers [getNetwork], and the chain id is
    [eip155:] followed by the number of the network of the provider.  It
    then has made that one call, has recorded the chain id, and has left
    the provider in the cache of a reachable validator. *)
Theorem init_returns_iff net c this :
  JS.truthy (Some c) = true ->
  (result (init net (Some c) this) = Return tt <->
   exists p n,
     result (_getEthProvider c this) = Return p /\
     getNetwork net p = Resolved n /\
     c = "eip155:" ++ JS.show_Z n) /\
  (result (init net (Some c) this) = Return tt ->
   _chainId (after (init net (Some c) this)) = Some c /\
   exists p,
     trace (init net (Some c) this) = [CallGetNetwork p] /\
     (reachable this ->
      LRUMap.peek c (providersCache (after (init net (Some c) this))) = Some p)).
Proof.
  intros Ht. pose proof (init_course net c this Ht) as C.
  destruct (_getEthProvider c this) as [[[p|e] this1] tr1] eqn:Ep.
  - destruct (_getEthProvider_frame_eq _ _ _ _ _ Ep) as (-> & _).
    destruct (getNetwork net p) as [n|e] eqn:En.
    + change (BASE_CHAIN_ID ++ ":" ++ JS.show_Z n) with ("eip155:" ++ JS.show_Z n) in C.
      destruct (String.eqb_spec c ("eip155:" ++ JS.show_Z n)) as [Heq|Hne]; rewrite C.
      * split.
        -- split; [|reflexivity]. intros _. exists p, n. rewrite En. auto.
        -- intros _. split; [reflexivity|]. exists p. split; [reflexivity|].
           intros Hr. simpl.
           exact (resolved_provider_is_cached _ _ _ _ _ (reachable_consistent _ Hr) Ep).
      * split; [|discriminate]. split; [discriminate|].
        intros (p' & n' & [= <-] & Hn & Hc). rewrite En in Hn.
        injection Hn as <-. contradiction.
    + rewrite C. split; [|discriminate]. split; [discriminate|].
      intros (p' & n' & [= <-] & Hn & _). rewrite En in Hn. discriminate.
  - rewrite C. split; [|discriminate]. split; [discriminate|].
    intros (p' & n' & Hr & _). discriminate.
Qed.

Lemma init_returns_iff_witness :
  JS.truthy (Some "eip155:1") = true /\
  result (init Scenario.net (Some "eip155:1") (constructor Scenario.rpc)) = Return tt /\
  _chainId (after (init Scenario.net (Some "eip155:1") (constructor Scenario.rpc)))
  = Some "eip155:1" /\
  result (init Cases.ropsten (Some "eip155:1") (constructor Scenario.rpc)) <> Return tt.
Proof.
  pose proof (init_returns_iff Scenario.net "eip155:1" (constructor Scenario.rpc) eq_refl)
    as [Hiff Heff].
  assert (Hr : result (init Scenario.net (Some "eip155:1") (constructor Scenario.rpc))
               = Return tt).
  { apply (proj2 Hiff). exists (JsonRpcProvider "http://localhost:8545"), 1.
    repeat split. }
  split; [reflexivity|]. split; [exact Hr|]. split; [exact (proj1 (Heff Hr))|].
  intros Hbad.
  destruct (proj1 (proj1 (init_returns_iff Cases.ropsten "eip155:1"
                            (constructor Scenario.rpc) eq_refl)) Hbad)
    as (p & n & _ & Hn & Hc).
  injection Hn as <-. discriminate Hc.
Defined.

(** X2. When the provider answers [getNetwork] with the number of another
    chain, [init] throws the configuration error.  The error shows the
    chain of the provider and the chain id that was configured before the
    call (not the one that was asked for); the configured chain id is
    unchanged, and on a reachable validator the provider stays cached. *)
Theorem init_wrong_network net c this p n :
  JS.truthy (Some c) = true ->
  result (_getEthProvider c this) = Return p ->
  getNetwork net p = Resolved n ->
  c <> "eip155:" ++ JS.show_Z n ->
  result (init net (Some c) this)
  = Throw ("Configured eth provider is for chainId eip155:" ++ JS.show_Z n
           ++ ", but our anchor service uses chain " ++ JS.show_nullable (_chainId this)) /\
  trace (init net (Some c) this) = [CallGetNetwork p] /\
  _chainId (after (init net (Some c) this)) = _chainId this /\
  (reachable this ->
   LRUMap.peek c (providersCache (after (init net (Some c) this))) = Some p).
Proof.
  intros Ht Hp Hn Hne. pose proof (init_course net c this Ht) as C.
  destruct (_getEthProvider c this) as [[[q|e] this1] tr1] eqn:Ep; [|discriminate].
  injection Hp as ->.
  destruct (_getEthProvider_frame_eq _ _ _ _ _ Ep) as (-> & _ & Hc & _).
  rewrite Hn in C.
  change (BASE_CHAIN_ID ++ ":" ++ JS.show_Z n) with ("eip155:" ++ JS.show_Z n) in C.
  apply String.eqb_neq in Hne. rewrite Hne in C. rewrite C.
  unfold result, trace, after; simpl. rewrite Hc.
  repeat match goal with |- _ /\ _ => split end; try reflexivity.
  intros Hr.
  exact (resolved_provider_is_cached _ _ _ _ _ (reachable_consistent _ Hr) Ep).
Qed.

Lemma init_wrong_network_witness :
  result (init Cases.ropsten (Some "eip155:1") (constructor Scenario.rpc))
  = Throw "Configured eth provider is for chainId eip155:3, but our anchor service uses chain undefined" /\
  _chainId (after (init Cases.ropsten (Some "eip155:1") (constructor Scenario.rpc))) = None /\
  LRUMap.peek "eip155:1"
    (providersCache (after (init Cases.ropsten (Some "eip155:1") (constructor Scenario.rpc))))
  = Some (JsonRpcProvider "http://localhost:8545").
Proof.
  assert (Hne : "eip155:1" <> "eip155:" ++ JS.show_Z 3) by discriminate.
  destruct (init_wrong_network Cases.ropsten "eip155:1" (constructor Scenario.rpc)
              (JsonRpcProvider "http://localhost:8545") 3 eq_refl eq_refl eq_refl Hne)
    as (Hr & _ & Hc & Hp).
  split; [exact Hr|]. split; [exact Hc|]. exact (Hp (reachable_new Scenario.rpc)).
Defined.

(** X3. Whatever its argument and whatever the chain answers, [init]
    leaves the transaction cache, the block cache and the endpoint as they
    were, and makes no call or the single call [getNetwork]; when it
    throws, the configured chain id is the one from before. *)
Theorem init_frame net chainId this :
  _transactionCache (after (init net chainId this)) = _transactionCache this /\
  _blockCache (after (init net chainId this)) = _blockCache this /\
  ethereumRpcEndpoint (after (init net chainId this)) = ethereumRpcEndpoint this /\
  (trace (init net chainId this) = [] \/
   exists p, trace (init net chainId this) = [CallGetNetwork p]) /\
  (forall e, result (init net chainId this) = Throw e ->
             _chainId (after (init net chainId this)) = _chainId this).
Proof.
  destruct (JS.truthy chainId) eqn:Ht.
  - destruct chainId as [c|]; [|discriminate].
    pose proof (init_course net c this Ht) as C.
    destruct (_getEthProvider c this) as [[[p|e] this1] tr1] eqn:Ep;
      destruct (_getEthProvider_frame_eq _ _ _ _ _ Ep) as (-> & He & Hc & Htc & Hbc).
    + destruct (getNetwork net p) as [n|e].
      * destruct (String.eqb c _); rewrite C; unfold result, after, trace; simpl;
          repeat match goal with |- _ /\ _ => split end; eauto; discriminate.
      * rewrite C; unfold result, after, trace; simpl;
          repeat match goal with |- _ /\ _ => split end; eauto.
    + rewrite C; unfold result, after, trace; simpl;
        repeat match goal with |- _ /\ _ => split end; eauto.
  - unfold init. rewrite Ht. unfold ret, result, after, trace; simpl.
    repeat match goal with |- _ /\ _ => split end; auto.
Qed.

(** X4. A validator that was configured for a chain cannot be configured
    for another one: [init] for another chain id throws at provider
    resolution, without a call and without changing the validator. *)
Theorem init_cannot_reconfigure net c c' this :
  configured_for c this ->
  JS.truthy (Some c') = true ->
  c' <> c ->
  exists e,
    init net (Some c') this = (Throw e, this, []) /\
    (e = unsupported_namespace_message c' \/ e = unsupported_chain_message c' (Some c)).
Proof.
  intros Hconf Ht Hne.
  destruct (configured_for_serves_only _ _ Hconf) as (Hc & Htc & Hk).
  assert (Hmiss : LRUMap.peek c' (providersCache this) = None).
  { apply LRUFacts.find_None_not_In. intros Hin. apply Hne. apply Hk. exact Hin. }
  pose proof (init_course net c' this Ht) as C.
  rewrite (_getEthProvider_miss _ _ Hmiss) in C.
  rewrite Hc, Htc in C. simpl JS.show_nullable in C.
  assert (Hneq : String.eqb c c' = false) by (apply String.eqb_neq; congruence).
  rewrite Hneq in C. simpl in C.
  destruct (JS.startsWith c' "eip155"); simpl in C; rewrite C; eauto.
Qed.

Lemma init_cannot_reconfigure_witness :
  configured_for "eip155:1" (after (init Scenario.net (Some "eip155:1") (constructor Scenario.rpc))) /\
  exists e,
    init Cases.ropsten (Some "eip155:3")
      (after (init Scenario.net (Some "eip155:1") (constructor Scenario.rpc)))
    = (Throw e, after (init Scenario.net (Some "eip155:1") (constructor Scenario.rpc)), []) /\
    (e = unsupported_namespace_message "eip155:3" \/
     e = unsupported_chain_message "eip155:3" (Some "eip155:1")).
Proof.
  assert (Hc : configured_for "eip155:1"
                 (after (init Scenario.net (Some "eip155:1") (constructor Scenario.rpc))))
    by (apply configured_init; reflexivity).
  assert (Hn : "eip155:3" <> "eip155:1") by discriminate.
  split; [exact Hc|].
  exact (init_cannot_reconfigure Cases.ropsten "eip155:1" "eip155:3" _ Hc eq_refl Hn).
Defined.

(** ** What a validation asks and what it logs *)

Lemma validateChainInclusion_trace net anchorProof this :
  trace (validateChainInclusion net anchorProof this)
  = trace (_getTransactionAndBlockInfo net (AnchorProof.chainId anchorProof)
             (txHash_of anchorProof) this) /\
  after (validateChainInclusion net anchorProof this)
  = after (_getTransactionAndBlockInfo net (AnchorProof.chainId anchorProof)
             (txHash_of anchorProof) this).
Proof.
  unfold validateChainInclusion, bind, trace, after.
  destruct (_getTransactionAndBlockInfo net _ _ this) as [[[[transaction block]|e] this1] tr];
    simpl; [|split; reflexivity].
  destruct (JS.strict_neq _ _); [simpl; rewrite app_nil_r; split; reflexivity|].
  destruct (negb (AnchorProof.blockNumber anchorProof =? _));
    [simpl; rewrite app_nil_r; split; reflexivity|].
  destruct (negb (AnchorProof.blockTimestamp anchorProof =? _));
    simpl; rewrite app_nil_r; split; reflexivity.
Qed.

(** Loading a block, case by case. *)
Lemma load_block_cases net p blockHash this :
  match cached_block this blockHash with
  | Some b =>
      load_block net p blockHash this
      = (Return (Some b),
         with_blockCache (snd (LRUMap.get blockHash (_blockCache this))) this, [])
  | None =>
      match getBlock net p blockHash with
      | Resolved b =>
          load_block net p blockHash this
          = (Return b,
             with_blockCache
               (LRUMap.set blockHash b (snd (LRUMap.get blockHash (_blockCache this)))) this,
             [CallGetBlock p blockHash])
      | Rejected e =>
          load_block net p blockHash this
          = (Throw e,
             with_blockCache (snd (LRUMap.get blockHash (_blockCache this))) this,
             [CallGetBlock p blockHash])
      end
  end.
Proof.
  unfold cached_block.
  destruct (nullable (LRUMap.peek blockHash (_blockCache this))) as [b|] eqn:Ec.
  - apply load_block_cached; assumption.
  - destruct (getBlock net p blockHash) as [b|e] eqn:Eb.
    + apply load_block_fetched; assumption.
    + apply load_block_rejected; assumption.
Qed.

Lemma load_transaction_cases net p txHash this :
  match cached_transaction this txHash with
  | Some t =>
      load_transaction net p txHash this
      = (Return (Some t),
         with_transactionCache (snd (LRUMap.get txHash (_transactionCache this))) this, [])
  | None =>
      match getTransaction net p txHash with
      | Resolved t =>
          load_transaction net p txHash this
          = (Return t,
             with_transactionCache
               (LRUMap.set txHash t (snd (LRUMap.get txHash (_transactionCache this)))) this,
             [CallGetTransaction p txHash])
      | Rejected e =>
          load_transaction net p txHash this
          = (Throw e,
             with_transactionCache (snd (LRUMap.get txHash (_transactionCache this))) this,
             [CallGetTransaction p txHash])
      end
  end.
Proof.
  unfold cached_transaction.
  destruct (nullable (LRUMap.peek txHash (_transactionCache this))) as [t|] eqn:Ec.
  - apply load_transaction_cached; assumption.
  - destruct (getTransaction net p txHash) as [t|e] eqn:Et.
    + apply load_transaction_fetched; assumption.
    + apply load_transaction_rejected; assumption.
Qed.

(** The trace of [_getTransactionAndBlockInfo]: the calls for what is not
    cached, then the line for the logger if the method throws. *)
Lemma _getTransactionAndBlockInfo_trace net chainId txHash this :
  trace (_getTransactionAndBlockInfo net chainId txHash this)
  = (calls_needed net this chainId txHash ++
     match result (_getTransactionAndBlockInfo net chainId txHash this) with
     | Throw e => [LoggerErr (loading_error_message txHash e)]
     | Return _ => []
     end)%list.
Proof.
  pose proof (_getTransactionAndBlockInfo_course net chainId txHash this) as C.
  unfold calls_needed.
  destruct (_getEthProvider chainId this) as [[[p|e] this1] tr1] eqn:Ep.
  2: { rewrite C. destruct (_getEthProvider_frame_eq _ _ _ _ _ Ep) as (-> & _).
       reflexivity. }
  destruct (_getEthProvider_frame_eq _ _ _ _ _ Ep) as (-> & _ & _ & Htc & Hbc).
  change (result (Return p, this1, @nil Event)) with (Return p).
  pose proof (load_transaction_cases net p txHash this1) as Lt.
  unfold cached_transaction in *. rewrite Htc in Lt.
  assert (Hblock : forall t this2 tr2,
            _blockCache this2 = _blockCache this ->
            load_transaction net p txHash this1 = (Return (Some t), this2, tr2) ->
            trace (_getTransactionAndBlockInfo net chainId txHash this)
            = (tr2 ++ block_call this p t ++
               match result (_getTransactionAndBlockInfo net chainId txHash this) with
               | Throw e => [LoggerErr (loading_error_message txHash e)]
               | Return _ => []
               end)%list).
  { intros t this2 tr2 Hb2 Hl. rewrite Hl in C.
    pose proof (load_block_cases net p (TransactionResponse.blockHash t) this2) as Lb.
    unfold block_call, cached_block in *. rewrite Hb2 in Lb.
    destruct (nullable (LRUMap.peek (TransactionResponse.blockHash t) (_blockCache this)))
      as [b|].
    - rewrite Lb in C. rewrite C. unfold trace, result; simpl.
      rewrite !app_nil_r. reflexivity.
    - destruct (getBlock net p (TransactionResponse.blockHash t)) as [[b|]|e];
        rewrite Lb in C; rewrite C; unfold trace, result; simpl;
        rewrite ?app_nil_r; reflexivity. }
  destruct (nullable (LRUMap.peek txHash (_transactionCache this))) as [t|].
  - pose proof (fun H => Hblock t _ _ H Lt) as Hb'. simpl in Hb'.
    rewrite (Hb' Hbc). reflexivity.
  - destruct (getTransaction net p txHash) as [[t|]|e].
    + pose proof (fun H => Hblock t _ _ H Lt) as Hb'. simpl in Hb'.
      rewrite (Hb' Hbc). reflexivity.
    + rewrite Lt in C. rewrite C. reflexivity.
    + rewrite Lt in C. rewrite C. reflexivity.
Qed.

Lemma network_calls_of_calls_needed net this chainId txHash :
  network_calls (calls_needed net this chainId txHash) = calls_needed net this chainId txHash /\
  logger_lines (calls_needed net this chainId txHash) = [].
Proof.
  unfold calls_needed, block_call.
  destruct (result (_getEthProvider chainId this)) as [p|e]; [|split; reflexivity].
  destruct (cached_transaction this txHash) as [t|].
  - destruct (cached_block this _); split; reflexivity.
  - destruct (getTransaction net p txHash) as [[t|]|e]; try (split; reflexivity).
    destruct (cached_block this _); split; reflexivity.
Qed.

(** X5. [validateChainInclusion] asks the chain exactly for what its
    caches do not hold: nothing when no provider is resolved; otherwise the
    transaction unless a record is cached for the transaction hash, and
    then the block of the transaction that is served unless a record is
    cached for its block hash.  It never asks for the network. *)
Theorem validateChainInclusion_asks_what_is_not_cached net anchorProof this :
  network_calls (trace (validateChainInclusion net anchorProof this))
  = calls_needed net this (AnchorProof.chainId anchorProof) (txHash_of anchorProof) /\
  (forall p, ~ In (CallGetNetwork p) (trace (validateChainInclusion net anchorProof this))).
Proof.
  destruct (validateChainInclusion_trace net anchorProof this) as [-> _].
  rewrite _getTransactionAndBlockInfo_trace.
  destruct (network_calls_of_calls_needed net this (AnchorProof.chainId anchorProof)
              (txHash_of anchorProof)) as [Hn _].
  split.
  - unfold network_calls in *. rewrite filter_app, Hn.
    destruct (result _); simpl; apply app_nil_r.
  - intros p Hin. apply in_app_iff in Hin. destruct Hin as [Hin|Hin].
    + unfold calls_needed, block_call in Hin.
      destruct (result (_getEthProvider _ this)) as [q|e]; [|contradiction].
      destruct (cached_transaction this _) as [t|].
      * destruct (cached_block this _); simpl in Hin; intuition discriminate.
      * destruct (getTransaction net q _) as [[t|]|e]; simpl in Hin;
          try (intuition discriminate).
        destruct (cached_block this _); simpl in Hin; intuition discriminate.
    + destruct (result _); simpl in Hin; intuition discriminate.
Qed.

(** X6. The logger is called exactly when [_getTransactionAndBlockInfo]
    throws, once, with the transaction hash and the error, after the
    provider calls.  A proof that is rejected for its root, block number or
    block timestamp is not logged. *)
Theorem validateChainInclusion_logs_loading_errors net anchorProof this :
  logger_lines (trace (validateChainInclusion net anchorProof this))
  = match result (_getTransactionAndBlockInfo net (AnchorProof.chainId anchorProof)
                    (txHash_of anchorProof) this) with
    | Throw e => [LoggerErr (loading_error_message (txHash_of anchorProof) e)]
    | Return _ => []
    end /\
  trace (validateChainInclusion net anchorProof this)
  = (network_calls (trace (validateChainInclusion net anchorProof this)) ++
     logger_lines (trace (validateChainInclusion net anchorProof this)))%list.
Proof.
  destruct (validateChainInclusion_trace net anchorProof this) as [-> _].
  rewrite _getTransactionAndBlockInfo_trace.
  destruct (network_calls_of_calls_needed net this (AnchorProof.chainId anchorProof)
              (txHash_of anchorProof)) as [Hn Hl].
  unfold network_calls, logger_lines in *. rewrite !filter_app, Hn, Hl.
  destruct (result _); simpl; rewrite ?app_nil_r; split; reflexivity.
Qed.

(** ** Calls that the provider rejects *)

(** X7. When the call for the transaction, or for the block, is rejected,
    [_getTransactionAndBlockInfo] throws the error of the provider as it
    is, and the cache of the record that was asked for holds what it held
    before, for every key.  A rejected call for the block leaves the
    transaction that was served cached. *)
Theorem rejected_call_stores_nothing net chainId txHash this p this1 tr1 e :
  reachable this ->
  _getEthProvider chainId this = (Return p, this1, tr1) ->
  (cached_transaction this txHash = None ->
   getTransaction net p txHash = Rejected e ->
   result (_getTransactionAndBlockInfo net chainId txHash this) = Throw e /\
   (forall k,
      LRUMap.peek k (_transactionCache (after (_getTransactionAndBlockInfo net chainId txHash this)))
      = LRUMap.peek k (_transactionCache this)) /\
   _blockCache (after (_getTransactionAndBlockInfo net chainId txHash this))
   = _blockCache this) /\
  (forall transaction,
     served_transaction net p txHash this transaction ->
     cached_block this (TransactionResponse.blockHash transaction) = None ->
     getBlock net p (TransactionResponse.blockHash transaction) = Rejected e ->
     result (_getTransactionAndBlockInfo net chainId txHash this) = Throw e /\
     (forall k,
        LRUMap.peek k (_blockCache (after (_getTransactionAndBlockInfo net chainId txHash this)))
        = LRUMap.peek k (_blockCache this)) /\
     cached_transaction (after (_getTransactionAndBlockInfo net chainId txHash this)) txHash
     = Some transaction).
Proof.
  intros Hreach Hp.
  apply reachable_consistent in Hreach.
  destruct Hreach as (_ & _ & Hwt & Hlt & _).
  destruct (_getEthProvider_frame_eq _ _ _ _ _ Hp) as (_ & _ & _ & Htc & Hbc).
  pose proof (_getTransactionAndBlockInfo_course net chainId txHash this) as C.
  rewrite Hp in C. unfold cached_transaction, cached_block.
  split.
  - intros Hc Hn. rewrite <- Htc in Hc.
    rewrite (load_transaction_rejected _ _ _ _ _ Hc Hn) in C. rewrite C.
    unfold result, after; simpl. rewrite Htc.
    repeat match goal with |- _ /\ _ => split end; auto.
    intros k. apply LRUFacts.peek_get.
  - intros transaction Hs Hc Hn.
    assert (Hs1 : served_transaction net p txHash this1 transaction)
      by (unfold served_transaction in *; rewrite Htc; exact Hs).
    assert (Hpos : (0 < LRUMap.limit (_transactionCache this1))%nat)
      by (rewrite Htc, Hlt; unfold TRANSACTION_CACHE_SIZE; lia).
    rewrite <- Htc in Hwt.
    destruct (load_transaction_served net p txHash this1 transaction Hwt Hpos Hs1)
      as (this2 & tr2 & Ht & Hcached & _ & _ & Hb2).
    rewrite Ht in C. rewrite <- Hbc, <- Hb2 in Hc.
    rewrite (load_block_rejected _ _ _ _ _ Hc Hn) in C. rewrite C.
    unfold result, after; simpl. rewrite Hb2, Hbc.
    repeat match goal with |- _ /\ _ => split end; auto.
    intros k. apply LRUFacts.peek_get.
Qed.

Lemma rejected_call_stores_nothing_witness :
  reachable (constructor None) /\
  result (_getTransactionAndBlockInfo Cases.offline "eip155:1" "0xabcd" (constructor None))
  = Throw "missing response" /\
  LRUMap.peek "0xabcd"
    (_transactionCache
       (after (_getTransactionAndBlockInfo Cases.offline "eip155:1" "0xabcd" (constructor None))))
  = None /\
  result (_getTransactionAndBlockInfo Cases.block_offline "eip155:1" "0xabcd" (constructor None))
  = Throw "missing response" /\
  cached_transaction
    (after (_getTransactionAndBlockInfo Cases.block_offline "eip155:1" "0xabcd"
              (constructor None))) "0xabcd"
  = Some Scenario.transaction.
Proof.
  assert (Hr : reachable (constructor None)) by constructor.
  assert (Hp : _getEthProvider "eip155:1" (constructor None)
               = (Return (DefaultProvider "mainnet"),
                  with_providersCache
                    (LRUMap.set "eip155:1" (DefaultProvider "mainnet") (LRUMap.new 100))
                    (constructor None),
                  [])) by reflexivity.
  destruct (proj1 (rejected_call_stores_nothing Cases.offline "eip155:1" "0xabcd"
                     _ _ _ _ "missing response" Hr Hp) eq_refl eq_refl)
    as (H1 & H2 & _).
  destruct (proj2 (rejected_call_stores_nothing Cases.block_offline "eip155:1" "0xabcd"
                     _ _ _ _ "missing response" Hr Hp)
              Scenario.transaction (or_intror (conj eq_refl eq_refl)) eq_refl eq_refl)
    as (H3 & _ & H4).
  split; [exact Hr|]. split; [exact H1|]. split; [exact (H2 "0xabcd")|].
  split; [exact H3|exact H4].
Defined.

(** ** Records that were fetched stay at hand *)

Lemma load_block_served net p blockHash this block :
  LRUMap.wf (_blockCache this) ->
  (0 < LRUMap.limit (_blockCache this))%nat ->
  load_block net p blockHash this = (Return (Some block), after (load_block net p blockHash this),
                                     trace (load_block net p blockHash this)) ->
  cached_block (after (load_block net p blockHash this)) blockHash = Some block /\
  (cached_block this blockHash = Some block \/
   (cached_block this blockHash = None /\ getBlock net p blockHash = Resolved (Some block))) /\
  ethereumRpcEndpoint (after (load_block net p blockHash this)) = ethereumRpcEndpoint this /\
  providersCache (after (load_block net p blockHash this)) = providersCache this /\
  _transactionCache (after (load_block net p blockHash this)) = _transactionCache this.
Proof.
  intros Hwf Hpos. pose proof (load_block_cases net p blockHash this) as L.
  unfold cached_block in *.
  destruct (nullable (LRUMap.peek blockHash (_blockCache this))) as [b|] eqn:Ec.
  - rewrite L. unfold after, trace; simpl. intros [= ->].
    rewrite LRUFacts.peek_get, Ec. auto 10.
  - destruct (getBlock net p blockHash) as [b|e]; rewrite L; unfold after, trace; simpl;
      [|discriminate].
    intros [= ->]. rewrite peek_set_after_get by assumption. simpl. auto 10.
Qed.

Lemma load_transaction_returned net p txHash this transaction :
  LRUMap.wf (_transactionCache this) ->
  (0 < LRUMap.limit (_transactionCache this))%nat ->
  result (load_transaction net p txHash this) = Return (Some transaction) ->
  served_transaction net p txHash this transaction /\
  cached_transaction (after (load_transaction net p txHash this)) txHash = Some transaction /\
  ethereumRpcEndpoint (after (load_transaction net p txHash this)) = ethereumRpcEndpoint this /\
  providersCache (after (load_transaction net p txHash this)) = providersCache this /\
  _blockCache (after (load_transaction net p txHash this)) = _blockCache this.
Proof.
  intros Hwf Hpos. pose proof (load_transaction_cases net p txHash this) as L.
  unfold cached_transaction, served_transaction in *.
  destruct (nullable (LRUMap.peek txHash (_transactionCache this))) as [t|] eqn:Ec.
  - rewrite L. unfold result, after; simpl. intros [= ->].
    rewrite LRUFacts.peek_get, Ec. auto 10.
  - destruct (getTransaction net p txHash) as [t|e]; rewrite L; unfold result, after; simpl;
      [|discriminate].
    intros [= ->]. rewrite peek_set_after_get by assumption. simpl. auto 10.
Qed.

(** What [_getTransactionAndBlockInfo] returns is cached when it returns,
    together with the provider that was used. *)
Lemma returned_records_are_cached net chainId txHash this transaction block :
  consistent this ->
  result (_getTransactionAndBlockInfo net chainId txHash this) = Return (transaction, block) ->
  exists p,
    result (_getEthProvider chainId this) = Return p /\
    served_transaction net p txHash this transaction /\
    LRUMap.peek chainId
      (providersCache (after (_getTransactionAndBlockInfo net chainId txHash this))) = Some p /\
    cached_transaction (after (_getTransactionAndBlockInfo net chainId txHash this)) txHash
    = Some transaction /\
    cached_block (after (_getTransactionAndBlockInfo net chainId txHash this))
      (TransactionResponse.blockHash transaction) = Some block.
Proof.
  intros Hcons Hr.
  pose proof (_getTransactionAndBlockInfo_course net chainId txHash this) as C.
  destruct (_getEthProvider chainId this) as [[[p|e] this1] tr1] eqn:Ep.
  2: { rewrite C in Hr. discriminate. }
  pose proof (resolved_provider_is_cached _ _ _ _ _ Hcons Ep) as Hprov.
  destruct (_getEthProvider_frame_eq _ _ _ _ _ Ep) as (_ & _ & _ & Htc & Hbc).
  destruct Hcons as (_ & _ & Hwt & Hlt & Hwb & Hlb & _).
  assert (Hpt : (0 < LRUMap.limit (_transactionCache this1))%nat)
    by (rewrite Htc, Hlt; unfold TRANSACTION_CACHE_SIZE; lia).
  assert (Hpb : (0 < LRUMap.limit (_blockCache this1))%nat)
    by (rewrite Hbc, Hlb; unfold BLOCK_CACHE_SIZE; lia).
  rewrite <- Htc in Hwt. rewrite <- Hbc in Hwb.
  pose proof (load_transaction_returned net p txHash this1) as Lt.
  unfold result, after in Lt.
  destruct (load_transaction net p txHash this1) as [[[[t|]|e] this2] tr2];
    simpl in Lt; try (rewrite C in Hr; discriminate).
  destruct (Lt t Hwt Hpt eq_refl) as (Hs & Hct & _ & Hp2 & Hb2).
  pose proof (load_block_served net p (TransactionResponse.blockHash t) this2) as Lb.
  unfold after, trace in Lb.
  destruct (load_block net p (TransactionResponse.blockHash t) this2)
    as [[[[b|]|e] this3] tr3]; simpl in Lb; try (rewrite C in Hr; discriminate).
  rewrite <- Hb2 in Hwb, Hpb.
  destruct (Lb b Hwb Hpb eq_refl) as (Hcb & _ & _ & Hp3 & Ht3).
  rewrite C in Hr. unfold result in Hr; simpl in Hr. injection Hr as <- <-.
  rewrite C. unfold after; simpl.
  exists p. split; [reflexivity|]. split.
  - unfold served_transaction in *. rewrite <- Htc. exact Hs.
  - unfold cached_transaction in *. rewrite Hp3, Hp2, Ht3. auto.
Qed.

(** With the provider, the transaction and the block at hand, the method
    returns them without a call. *)
Lemma served_from_the_caches net chainId txHash this p transaction block :
  result (_getEthProvider chainId this) = Return p ->
  cached_transaction this txHash = Some transaction ->
  cached_block this (TransactionResponse.blockHash transaction) = Some block ->
  result (_getTransactionAndBlockInfo net chainId txHash this) = Return (transaction, block) /\
  trace (_getTransactionAndBlockInfo net chainId txHash this) = [].
Proof.
  intros Hp Hct Hcb.
  pose proof (_getTransactionAndBlockInfo_trace net chainId txHash this) as T.
  pose proof (_getTransactionAndBlockInfo_course net chainId txHash this) as C.
  unfold calls_needed, block_call in T. rewrite Hp, Hct, Hcb in T.
  destruct (_getEthProvider chainId this) as [[[q|e] this1] tr1] eqn:Ep; [|discriminate].
  injection Hp as ->.
  destruct (_getEthProvider_frame_eq _ _ _ _ _ Ep) as (-> & _ & _ & Htc & Hbc).
  unfold cached_transaction, cached_block in *.
  rewrite <- Htc in Hct. rewrite (load_transaction_cached net p _ _ _ Hct) in C.
  assert (Hcb' : nullable (LRUMap.peek (TransactionResponse.blockHash transaction)
                   (_blockCache (with_transactionCache
                      (snd (LRUMap.get txHash (_transactionCache this1))) this1)))
                 = Some block) by (simpl; rewrite Hbc; exact Hcb).
  rewrite (load_block_cached net p _ _ _ Hcb') in C.
  rewrite C in *. split; reflexivity.
Qed.

(** The result of a validation: the error of the loading step, or the
    verdict on the records that were loaded. *)
Lemma validateChainInclusion_result net anchorProof this :
  result (validateChainInclusion net anchorProof this)
  = match result (_getTransactionAndBlockInfo net (AnchorProof.chainId anchorProof)
                    (txHash_of anchorProof) this) with
    | Throw e => Throw e
    | Return (transaction, block) => verdict anchorProof transaction block
    end.
Proof.
  unfold validateChainInclusion, bind, result, verdict.
  destruct (_getTransactionAndBlockInfo net _ _ this) as [[[[transaction block]|e] this1] tr];
    simpl; [|reflexivity].
  destruct (JS.strict_neq _ _); [reflexivity|].
  destruct (negb (AnchorProof.blockNumber anchorProof =? _)); [reflexivity|].
  destruct (negb (AnchorProof.blockTimestamp anchorProof =? _)); reflexivity.
Qed.

Lemma decided_from_the_caches net anchorProof this p transaction block :
  result (_getEthProvider (AnchorProof.chainId anchorProof) this) = Return p ->
  cached_transaction this (txHash_of anchorProof) = Some transaction ->
  cached_block this (TransactionResponse.blockHash transaction) = Some block ->
  result (validateChainInclusion net anchorProof this) = verdict anchorProof transaction block /\
  trace (validateChainInclusion net anchorProof this) = [].
Proof.
  intros Hp Hct Hcb.
  destruct (served_from_the_caches net _ _ _ _ _ _ Hp Hct Hcb) as [Hr Ht].
  rewrite validateChainInclusion_result, Hr.
  destruct (validateChainInclusion_trace net anchorProof this) as [-> _].
  auto.
Qed.

(** X8. Whenever the transaction and the block of a proof are loaded, the
    validation leaves them in the caches under the transaction hash and the
    block hash, and leaves a provider cached for the chain id, whether the
    proof is then accepted or rejected for a mismatch. *)
Theorem loaded_records_are_cached net anchorProof this transaction block :
  reachable this ->
  result (_getTransactionAndBlockInfo net (AnchorProof.chainId anchorProof)
            (txHash_of anchorProof) this) = Return (transaction, block) ->
  (exists p,
     result (_getEthProvider (AnchorProof.chainId anchorProof) this) = Return p /\
     LRUMap.peek (AnchorProof.chainId anchorProof)
       (providersCache (after (validateChainInclusion net anchorProof this))) = Some p) /\
  LRUMap.peek (txHash_of anchorProof)
    (_transactionCache (after (validateChainInclusion net anchorProof this)))
  = Some (Some transaction) /\
  LRUMap.peek (TransactionResponse.blockHash transaction)
    (_blockCache (after (validateChainInclusion net anchorProof this)))
  = Some (Some block).
Proof.
  intros Hreach Hr.
  destruct (validateChainInclusion_trace net anchorProof this) as [_ ->].
  destruct (returned_records_are_cached net _ _ _ _ _ (reachable_consistent _ Hreach) Hr)
    as (p & Hp & _ & Hprov & Hct & Hcb).
  unfold cached_transaction, cached_block in *.
  split; [exists p; auto|]. split.
  - destruct (LRUMap.peek (txHash_of anchorProof) _) as [[t|]|]; simpl in Hct; congruence.
  - destruct (LRUMap.peek (TransactionResponse.blockHash transaction) _) as [[b|]|];
      simpl in Hcb; congruence.
Qed.

Lemma loaded_records_are_cached_witness :
  reachable (constructor None) /\
  result (validateChainInclusion Scenario.net (Cases.proof_on "eip155:1") (constructor None))
  = Return tt /\
  LRUMap.peek "0xabcd"
    (_transactionCache
       (after (validateChainInclusion Scenario.net (Cases.proof_on "eip155:1") (constructor None))))
  = Some (Some Scenario.transaction) /\
  LRUMap.peek "0xb10c"
    (_blockCache
       (after (validateChainInclusion Scenario.net (Cases.proof_on "eip155:1") (constructor None))))
  = Some (Some Scenario.block).
Proof.
  assert (Hr : reachable (constructor None)) by constructor.
  destruct (loaded_records_are_cached Scenario.net (Cases.proof_on "eip155:1")
              (constructor None) Scenario.transaction Scenario.block Hr eq_refl)
    as (_ & Ht & Hb).
  split; [exact Hr|]. split; [reflexivity|]. split; [exact Ht|exact Hb].
Defined.

(** X9. Once the records of a proof were loaded, validating the same proof
    again gives the same result, acceptance or mismatch error, from the
    caches alone: no provider call is made and nothing is logged, whatever
    the chain would answer by then. *)
Theorem revalidation_is_served_from_the_caches net net' anchorProof this transaction block :
  reachable this ->
  result (_getTransactionAndBlockInfo net (AnchorProof.chainId anchorProof)
            (txHash_of anchorProof) this) = Return (transaction, block) ->
  result (validateChainInclusion net' anchorProof
            (after (validateChainInclusion net anchorProof this)))
  = result (validateChainInclusion net anchorProof this) /\
  trace (validateChainInclusion net' anchorProof
           (after (validateChainInclusion net anchorProof this))) = [].
Proof.
  intros Hreach Hr.
  pose proof (validateChainInclusion_result net anchorProof this) as Hfirst.
  rewrite Hr in Hfirst. rewrite Hfirst.
  destruct (validateChainInclusion_trace net anchorProof this) as [_ ->].
  destruct (returned_records_are_cached net _ _ _ _ _ (reachable_consistent _ Hreach) Hr)
    as (p & _ & _ & Hprov & Hct & Hcb).
  destruct (cached_provider_resolves _ _ _ Hprov) as (s1 & Hhit & _).
  apply (decided_from_the_caches net' anchorProof _ p transaction block);
    [rewrite Hhit; reflexivity|assumption|assumption].
Qed.

Lemma revalidation_is_served_from_the_caches_witness :
  reachable (constructor None) /\
  result (validateChainInclusion Cases.offline (Cases.proof_on "eip155:1")
            (after (validateChainInclusion Scenario.net (Cases.proof_on "eip155:1")
                      (constructor None))))
  = Return tt /\
  trace (validateChainInclusion Cases.offline (Cases.proof_on "eip155:1")
           (after (validateChainInclusion Scenario.net (Cases.proof_on "eip155:1")
                     (constructor None))))
  = [].
Proof.
  assert (Hr : reachable (constructor None)) by constructor.
  destruct (revalidation_is_served_from_the_caches Scenario.net Cases.offline
              (Cases.proof_on "eip155:1") (constructor None)
              Scenario.transaction Scenario.block Hr eq_refl) as [H1 H2].
  split; [exact Hr|]. split; [|exact H2].
  rewrite H1. reflexivity.
Defined.

(** X10. The transaction cache is keyed by the transaction hash alone.
    Once the records for a hash were loaded for one chain, a proof with the
    same hash that names another chain is decided on those records: if a
    provider is resolved for its chain, the result is the verdict on the
    cached transaction and block, and the provider of that chain is not
    asked. *)
Theorem cached_records_serve_every_chain net net' anchorProof anchorProof' this
    transaction block p' :
  reachable this ->
  result (_getTransactionAndBlockInfo net (AnchorProof.chainId anchorProof)
            (txHash_of anchorProof) this) = Return (transaction, block) ->
  txHash_of anchorProof' = txHash_of anchorProof ->
  result (_getEthProvider (AnchorProof.chainId anchorProof')
            (after (validateChainInclusion net anchorProof this))) = Return p' ->
  result (validateChainInclusion net' anchorProof'
            (after (validateChainInclusion net anchorProof this)))
  = verdict anchorProof' transaction block /\
  trace (validateChainInclusion net' anchorProof'
           (after (validateChainInclusion net anchorProof this))) = [].
Proof.
  intros Hreach Hr Hh Hp'.
  destruct (validateChainInclusion_trace net anchorProof this) as [_ Ha].
  rewrite Ha in *.
  destruct (returned_records_are_cached net _ _ _ _ _ (reachable_consistent _ Hreach) Hr)
    as (p & _ & _ & _ & Hct & Hcb).
  apply (decided_from_the_caches net' anchorProof' _ p' transaction block);
    [assumption|rewrite Hh; assumption|assumption].
Qed.

Lemma cached_records_serve_every_chain_witness :
  reachable (constructor None) /\
  AnchorProof.chainId (Cases.proof_on "eip155:3") <> AnchorProof.chainId (Cases.proof_on "eip155:1") /\
  result (validateChainInclusion Cases.offline (Cases.proof_on "eip155:3")
            (after (validateChainInclusion Scenario.net (Cases.proof_on "eip155:1")
                      (constructor None))))
  = Return tt /\
  trace (validateChainInclusion Cases.offline (Cases.proof_on "eip155:3")
           (after (validateChainInclusion Scenario.net (Cases.proof_on "eip155:1")
                     (constructor None))))
  = [].
Proof.
  assert (Hr : reachable (constructor None)) by constructor.
  destruct (cached_records_serve_every_chain Scenario.net Cases.offline
              (Cases.proof_on "eip155:1") (Cases.proof_on "eip155:3") (constructor None)
              Scenario.transaction Scenario.block (DefaultProvider "ropsten")
              Hr eq_refl eq_refl eq_refl) as [H1 H2].
  split; [exact Hr|]. split; [discriminate|]. split; [|exact H2].
  rewrite H1. vm_compute. reflexivity.
Defined.

(** ** The providers that are cached *)

Lemma find_In_entry {V} k (v : V) es : LRUMap.find k es = Some v -> In (k, v) es.
Proof.
  induction es as [|[k0 v0] es IH]; simpl; [discriminate|].
  destruct (String.eqb_spec k k0) as [->|Hne].
  - intros [= ->]. left; reflexivity.
  - intros H. right. auto.
Qed.

Lemma In_remove_entry {V} k (x : string * V) es : In x (LRUMap.remove k es) -> In x es.
Proof.
  induction es as [|[k0 v0] es IH]; simpl; [auto|].
  destruct (String.eqb k k0); simpl; intuition.
Qed.

Lemma In_entries_get {V} k (m : LRUMap.t V) x :
  In x (LRUMap.entries (snd (LRUMap.get k m))) -> In x (LRUMap.entries m).
Proof.
  unfold LRUMap.get. destruct (LRUMap.find k (LRUMap.entries m)) as [v|] eqn:E; simpl; [|auto].
  rewrite in_app_iff. simpl. intros [H|[<-|[]]].
  - eapply In_remove_entry; eassumption.
  - apply find_In_entry; assumption.
Qed.

Lemma In_entries_set {V} k v (m : LRUMap.t V) x :
  In x (LRUMap.entries (LRUMap.set k v m)) -> In x (LRUMap.entries m) \/ x = (k, v).
Proof.
  unfold LRUMap.set. destruct (LRUMap.find k (LRUMap.entries m)) as [v0|] eqn:E; simpl.
  - rewrite in_app_iff. simpl. intros [H|[<-|[]]]; [left|right; reflexivity].
    eapply In_remove_entry; eassumption.
  - assert (Happ : In x (LRUMap.entries m ++ [(k, v)]) -> In x (LRUMap.entries m) \/ x = (k, v)).
    { rewrite in_app_iff. simpl. intuition. }
    destruct (LRUMap.limit m <? _)%nat; simpl; [|exact Happ].
    intros H. apply Happ.
    destruct (LRUMap.entries m ++ [(k, v)])%list; simpl in *; auto.
Qed.

Lemma providers_expected_getEthProvider chain :
  preserves providers_expected (_getEthProvider chain).
Proof.
  intros this H.
  destruct (_getEthProvider_frame chain this) as (_ & He & _).
  unfold providers_expected. rewrite He. intros k p.
  destruct (LRUMap.peek chain (providersCache this)) as [q|] eqn:E.
  - rewrite (_getEthProvider_hit _ _ _ E). simpl. intros Hin.
    apply H. eapply In_entries_get; eassumption.
  - rewrite (_getEthProvider_miss _ _ E).
    destruct (negb (JS.startsWith chain "eip155")); [apply H|].
    destruct (JS.truthy (_chainId this) && _); [apply H|].
    unfold expected_provider.
    destruct (JS.truthy (ethereumRpcEndpoint this)) eqn:Ht.
    + simpl. intros Hin. apply In_entries_set in Hin. destruct Hin as [Hin|[= -> ->]].
      * specialize (H k p Hin). unfold expected_provider in H. rewrite Ht in H. exact H.
      * reflexivity.
    + destruct (ETH_CHAIN_ID_MAPPINGS chain) as [ethNetwork|] eqn:Hm.
      * simpl. intros Hin. apply In_entries_set in Hin. destruct Hin as [Hin|[= -> ->]].
        -- specialize (H k p Hin). unfold expected_provider in H. rewrite Ht in H. exact H.
        -- rewrite Hm. reflexivity.
      * intros Hin. specialize (H k p Hin). unfold expected_provider in H.
        rewrite Ht in H. exact H.
Qed.

Lemma reachable_providers_expected this : reachable this -> providers_expected this.
Proof.
  induction 1 as [endpoint|this net chainId _ IH|this net anchorProof _ IH].
  - intros k p [].
  - revert this IH. unfold init. destruct (negb (JS.truthy chainId)); [apply preserves_ret|].
    apply preserves_bind; [apply providers_expected_getEthProvider|]. intros p.
    apply preserves_bind; [apply preserves_await|]. intros n.
    apply preserves_bind; [apply preserves_this|]. intros this.
    destruct (negb _); [apply preserves_throw|].
    intros this' H. exact H.
  - revert this IH. apply preserves_validateChainInclusion.
    + apply providers_expected_getEthProvider.
    + intros this c H _ _. exact H.
    + intros this c H _ _. exact H.
Qed.

(** Provider resolution on a validator without a configured chain id. *)
Lemma unconfigured_resolution this chain :
  reachable this ->
  _chainId this = None ->
  result (_getEthProvider chain this)
  = if JS.startsWith chain "eip155" then
      match expected_provider (ethereumRpcEndpoint this) chain with
      | Some p => Return p
      | None => Throw (no_provider_message chain)
      end
    else Throw (unsupported_namespace_message chain).
Proof.
  intros Hreach Hc.
  pose proof (reachable_providers_expected _ Hreach) as Hexp.
  destruct (reachable_consistent _ Hreach) as (_ & _ & _ & _ & _ & _ & Hk).
  destruct (LRUMap.peek chain (providersCache this)) as [q|] eqn:E.
  - rewrite (_getEthProvider_hit _ _ _ E).
    destruct (Hk chain (LRUFacts.find_Some_In _ _ _ E)) as [-> _].
    rewrite (Hexp chain q (find_In_entry _ _ _ E)). reflexivity.
  - rewrite (_getEthProvider_miss _ _ E). rewrite Hc. simpl.
    destruct (JS.startsWith chain "eip155"); [|reflexivity]. simpl.
    unfold expected_provider.
    destruct (JS.truthy (ethereumRpcEndpoint this)); [reflexivity|].
    destruct (ETH_CHAIN_ID_MAPPINGS chain); reflexivity.
Qed.

(** X11. The provider that [_getEthProvider] returns for a chain does not
    depend on what the cache holds: on every reachable validator it is the
    provider of the RPC endpoint if the validator has one, and else the
    default provider of the network that [ETH_CHAIN_ID_MAPPINGS] gives for
    the chain; and a chain that gets a provider begins with [eip155]. *)
Theorem resolved_provider_is_the_expected_one this chain p :
  reachable this ->
  result (_getEthProvider chain this) = Return p ->
  expected_provider (ethereumRpcEndpoint this) chain = Some p /\
  JS.startsWith chain "eip155" = true.
Proof.
  intros Hreach Hr.
  pose proof (reachable_providers_expected _ Hreach) as Hexp.
  destruct (reachable_consistent _ Hreach) as (_ & _ & _ & _ & _ & _ & Hk).
  destruct (LRUMap.peek chain (providersCache this)) as [q|] eqn:E.
  - rewrite (_getEthProvider_hit _ _ _ E) in Hr. injection Hr as ->.
    split; [exact (Hexp chain p (find_In_entry _ _ _ E))|].
    exact (proj1 (Hk chain (LRUFacts.find_Some_In _ _ _ E))).
  - rewrite (_getEthProvider_miss _ _ E) in Hr.
    destruct (JS.startsWith chain "eip155"); [|discriminate]. simpl in Hr.
    destruct (JS.truthy (_chainId this) && _); [discriminate|].
    unfold expected_provider.
    destruct (JS.truthy (ethereumRpcEndpoint this)).
    + injection Hr as <-. auto.
    + destruct (ETH_CHAIN_ID_MAPPINGS chain); [|discriminate].
      injection Hr as <-. auto.
Qed.

Lemma resolved_provider_is_the_expected_one_witness :
  let this := after (validateChainInclusion Scenario.net (Cases.proof_on "eip155:3")
                       (after (validateChainInclusion Scenario.net (Cases.proof_on "eip155:1")
                                 (constructor None)))) in
  reachable this /\
  result (_getEthProvider "eip155:1" this) = Return (DefaultProvider "mainnet") /\
  expected_provider (ethereumRpcEndpoint this) "eip155:1" = Some (DefaultProvider "mainnet").
Proof.
  cbv zeta.
  assert (Hr : reachable
                 (after (validateChainInclusion Scenario.net (Cases.proof_on "eip155:3")
                           (after (validateChainInclusion Scenario.net
                                     (Cases.proof_on "eip155:1") (constructor None))))))
    by (do 2 apply reachable_validate; apply reachable_new).
  split; [exact Hr|]. split; [reflexivity|].
  exact (proj1 (resolved_provider_is_the_expected_one _ "eip155:1"
                  (DefaultProvider "mainnet") Hr eq_refl)).
Defined.

(** ** The caches do not change the result *)

Lemma validated_under_reachable net endpoint this :
  validated_under net endpoint this ->
  reachable this /\ ethereumRpcEndpoint this = endpoint /\ _chainId this = None.
Proof.
  induction 1 as [|this anchorProof _ (Hr & He & Hc)].
  - split; [constructor|]. split; reflexivity.
  - split; [apply reachable_validate; assumption|].
    apply (preserves_validateChainInclusion
             (fun this => ethereumRpcEndpoint this = endpoint /\ _chainId this = None)).
    + intros chain this0 [He0 Hc0].
      destruct (_getEthProvider_frame chain this0) as (_ & He1 & Hc1 & _).
      rewrite He1, Hc1. auto.
    + intros this0 c H0 _ _. exact H0.
    + intros this0 c H0 _ _. exact H0.
    + auto.
Qed.

Lemma cached_transaction_In this h t :
  cached_transaction this h = Some t ->
  In (h, Some t) (LRUMap.entries (_transactionCache this)).
Proof.
  unfold cached_transaction, LRUMap.peek.
  destruct (LRUMap.find h _) as [[t'|]|] eqn:E; simpl; try discriminate.
  intros [= ->]. apply find_In_entry; assumption.
Qed.

Lemma cached_block_In this h b :
  cached_block this h = Some b ->
  In (h, Some b) (LRUMap.entries (_blockCache this)).
Proof.
  unfold cached_block, LRUMap.peek.
  destruct (LRUMap.find h _) as [[b'|]|] eqn:E; simpl; try discriminate.
  intros [= ->]. apply find_In_entry; assumption.
Qed.

Ltac fields :=
  unfold after;
  cbn [fst snd ethereumRpcEndpoint _chainId providersCache _transactionCache _blockCache
       with_transactionCache with_blockCache with_providersCache with_chainId].

(** Loading keeps the cached records answers of the chain. *)
Lemma load_transaction_records net p chain h this :
  expected_provider (ethereumRpcEndpoint this) chain = Some p ->
  records_from net this ->
  records_from net (after (load_transaction net p h this)).
Proof.
  intros Hp [Ht Hb]. pose proof (load_transaction_cases net p h this) as L.
  destruct (cached_transaction this h) as [t|].
  - rewrite L. unfold records_from. fields. split; [|exact Hb].
    intros h' t' Hin. apply Ht. eapply In_entries_get; eassumption.
  - destruct (getTransaction net p h) as [t|e] eqn:En; rewrite L;
      unfold records_from; fields; (split; [|exact Hb]); intros h' t' Hin.
    + apply In_entries_set in Hin. destruct Hin as [Hin|[= -> <-]].
      * apply Ht. eapply In_entries_get; eassumption.
      * exists chain, p. auto.
    + apply Ht. eapply In_entries_get; eassumption.
Qed.

Lemma load_block_records net p chain h this :
  expected_provider (ethereumRpcEndpoint this) chain = Some p ->
  records_from net this ->
  records_from net (after (load_block net p h this)).
Proof.
  intros Hp [Ht Hb]. pose proof (load_block_cases net p h this) as L.
  destruct (cached_block this h) as [b|].
  - rewrite L. unfold records_from. fields. split; [exact Ht|].
    intros h' b' Hin. apply Hb. eapply In_entries_get; eassumption.
  - destruct (getBlock net p h) as [b|e] eqn:En; rewrite L;
      unfold records_from; fields; (split; [exact Ht|]); intros h' b' Hin.
    + apply In_entries_set in Hin. destruct Hin as [Hin|[= -> <-]].
      * apply Hb. eapply In_entries_get; eassumption.
      * exists chain, p. auto.
    + apply Hb. eapply In_entries_get; eassumption.
Qed.

Lemma records_from_same net this this' :
  ethereumRpcEndpoint this' = ethereumRpcEndpoint this ->
  _transactionCache this' = _transactionCache this ->
  _blockCache this' = _blockCache this ->
  records_from net this -> records_from net this'.
Proof. unfold records_from. intros -> -> ->. auto. Qed.

(** Where [_getTransactionAndBlockInfo] leaves the validator. *)
Lemma _getTransactionAndBlockInfo_after net chainId txHash this :
  match _getEthProvider chainId this with
  | (Throw _, this1, _) =>
      after (_getTransactionAndBlockInfo net chainId txHash this) = this1
  | (Return p, this1, _) =>
      match load_transaction net p txHash this1 with
      | (Return (Some t), this2, _) =>
          after (_getTransactionAndBlockInfo net chainId txHash this)
          = after (load_block net p (TransactionResponse.blockHash t) this2)
      | (_, this2, _) =>
          after (_getTransactionAndBlockInfo net chainId txHash this) = this2
      end
  end.
Proof.
  pose proof (_getTransactionAndBlockInfo_course net chainId txHash this) as C.
  destruct (_getEthProvider chainId this) as [[[p|e] this1] tr1]; [|rewrite C; reflexivity].
  destruct (load_transaction net p txHash this1) as [[[[t|]|e] this2] tr2];
    try (rewrite C; reflexivity).
  destruct (load_block net p (TransactionResponse.blockHash t) this2)
    as [[[[b|]|e] this3] tr3]; rewrite C; reflexivity.
Qed.

Lemma _getTransactionAndBlockInfo_result net chainId txHash this :
  result (_getTransactionAndBlockInfo net chainId txHash this)
  = match _getEthProvider chainId this with
    | (Throw e, _, _) => Throw e
    | (Return p, this1, _) =>
        match load_transaction net p txHash this1 with
        | (Throw e, _, _) => Throw e
        | (Return None, this2, _) => Throw (transaction_not_found_message this2 txHash)
        | (Return (Some t), this2, _) =>
            match load_block net p (TransactionResponse.blockHash t) this2 with
            | (Throw e, _, _) => Throw e
            | (Return None, _, _) => Throw (block_not_found_message this2 t)
            | (Return (Some b), _, _) => Return (t, b)
            end
        end
    end.
Proof.
  pose proof (_getTransactionAndBlockInfo_course net chainId txHash this) as C.
  destruct (_getEthProvider chainId this) as [[[p|e] this1] tr1]; [|rewrite C; reflexivity].
  destruct (load_transaction net p txHash this1) as [[[[t|]|e] this2] tr2];
    try (rewrite C; reflexivity).
  destruct (load_block net p (TransactionResponse.blockHash t) this2)
    as [[[[b|]|e] this3] tr3]; rewrite C; reflexivity.
Qed.

Lemma records_from_validateChainInclusion net anchorProof this :
  reachable this ->
  records_from net this ->
  records_from net (after (validateChainInclusion net anchorProof this)).
Proof.
  intros Hreach Hrec.
  destruct (validateChainInclusion_trace net anchorProof this) as [_ ->].
  pose proof (_getTransactionAndBlockInfo_after net (AnchorProof.chainId anchorProof)
                (txHash_of anchorProof) this) as A.
  pose proof (reachable_providers_expected _ Hreach) as Hexp.
  destruct (reachable_consistent _ Hreach) as (_ & _ & _ & _ & _ & _ & Hk).
  destruct (_getEthProvider (AnchorProof.chainId anchorProof) this)
    as [[r this1] tr1] eqn:Ep.
  destruct (_getEthProvider_frame_eq _ _ _ _ _ Ep) as (_ & He & _ & Htc & Hbc).
  pose proof (records_from_same net this this1 He Htc Hbc Hrec) as Hrec1.
  destruct r as [p|e]; [|rewrite A; exact Hrec1].
  assert (Hp : expected_provider (ethereumRpcEndpoint this1)
                 (AnchorProof.chainId anchorProof) = Some p).
  { rewrite He.
    destruct (LRUMap.peek (AnchorProof.chainId anchorProof) (providersCache this))
      as [q|] eqn:E.
    - rewrite (_getEthProvider_hit _ _ _ E) in Ep. injection Ep as <- _ _.
      exact (Hexp _ _ (find_In_entry _ _ _ E)).
    - rewrite (_getEthProvider_miss _ _ E) in Ep.
      destruct (negb (JS.startsWith _ "eip155")); [discriminate|].
      destruct (JS.truthy (_chainId this) && _); [discriminate|].
      unfold expected_provider.
      destruct (JS.truthy (ethereumRpcEndpoint this)); [injection Ep as <- _ _; reflexivity|].
      destruct (ETH_CHAIN_ID_MAPPINGS _); [injection Ep as <- _ _; reflexivity|discriminate]. }
  pose proof (load_transaction_records net p _ (txHash_of anchorProof) this1 Hp Hrec1) as Hrec2.
  pose proof (load_transaction_endpoint net p (txHash_of anchorProof) this1) as He2.
  unfold after in Hrec2, He2.
  destruct (load_transaction net p (txHash_of anchorProof) this1) as [[r2 this2] tr2].
  simpl in Hrec2, He2.
  destruct r2 as [[t|]|e]; try (rewrite A; exact Hrec2).
  rewrite A. apply (load_block_records net p (AnchorProof.chainId anchorProof)).
  - rewrite He2. exact Hp.
  - exact Hrec2.
Qed.

Lemma validated_under_records net endpoint this :
  validated_under net endpoint this -> records_from net this.
Proof.
  induction 1 as [|this anchorProof Hv IH].
  - split; intros h x [].
  - apply records_from_validateChainInclusion; [|exact IH].
    exact (proj1 (validated_under_reachable _ _ _ Hv)).
Qed.

(** A cached record that is an answer of the chain is what loading
    returns, cached or not. *)
Lemma load_transaction_result net p h this :
  (forall t, cached_transaction this h = Some t ->
             getTransaction net p h = Resolved (Some t)) ->
  result (load_transaction net p h this)
  = match getTransaction net p h with
    | Resolved t => Return t
    | Rejected e => Throw e
    end.
Proof.
  intros H. pose proof (load_transaction_cases net p h this) as L.
  destruct (cached_transaction this h) as [t|].
  - rewrite L, (H t eq_refl). reflexivity.
  - destruct (getTransaction net p h); rewrite L; reflexivity.
Qed.

Lemma load_block_result net p h this :
  (forall b, cached_block this h = Some b -> getBlock net p h = Resolved (Some b)) ->
  result (load_block net p h this)
  = match getBlock net p h with
    | Resolved b => Return b
    | Rejected e => Throw e
    end.
Proof.
  intros H. pose proof (load_block_cases net p h this) as L.
  destruct (cached_block this h) as [b|].
  - rewrite L, (H b eq_refl). reflexivity.
  - destruct (getBlock net p h); rewrite L; reflexivity.
Qed.

Lemma not_found_messages_same this this' h t :
  ethereumRpcEndpoint this' = ethereumRpcEndpoint this ->
  transaction_not_found_message this' h = transaction_not_found_message this h /\
  block_not_found_message this' t = block_not_found_message this t.
Proof.
  unfold transaction_not_found_message, block_not_found_message. intros ->. auto.
Qed.

Lemma cached_validation_result net anchorProof this :
  reachable this ->
  _chainId this = None ->
  records_from net this ->
  single_view (ethereumRpcEndpoint this) net ->
  result (validateChainInclusion net anchorProof this)
  = uncached_result (ethereumRpcEndpoint this) net anchorProof.
Proof.
  intros Hreach Hc [Hrt Hrb] Hsv.
  rewrite validateChainInclusion_result, _getTransactionAndBlockInfo_result.
  pose proof (unconfigured_resolution this (AnchorProof.chainId anchorProof) Hreach Hc) as R.
  unfold uncached_result. cbv zeta.
  destruct (_getEthProvider (AnchorProof.chainId anchorProof) this)
    as [[r this1] tr1] eqn:Ep.
  destruct (_getEthProvider_frame_eq _ _ _ _ _ Ep) as (_ & He & _ & Htc & Hbc).
  unfold result in R; simpl in R.
  destruct (JS.startsWith (AnchorProof.chainId anchorProof) "eip155"); simpl;
    [|rewrite R; reflexivity].
  destruct (expected_provider (ethereumRpcEndpoint this) (AnchorProof.chainId anchorProof))
    as [p|] eqn:Hp; rewrite R; [|reflexivity].
  assert (Ht : forall t, cached_transaction this1 (txHash_of anchorProof) = Some t ->
                 getTransaction net p (txHash_of anchorProof) = Resolved (Some t)).
  { intros t Hct. apply cached_transaction_In in Hct. rewrite Htc in Hct.
    destruct (Hrt _ _ Hct) as (chain' & p' & Hp' & Hn).
    rewrite (proj1 (Hsv _ _ _ _ Hp Hp')). exact Hn. }
  pose proof (load_transaction_result net p _ this1 Ht) as Lt.
  pose proof (load_transaction_endpoint net p (txHash_of anchorProof) this1) as He2.
  pose proof (load_transaction_cases net p (txHash_of anchorProof) this1) as Lc.
  assert (Hb2 : _blockCache (after (load_transaction net p (txHash_of anchorProof) this1))
                = _blockCache this).
  { destruct (cached_transaction this1 (txHash_of anchorProof)).
    - rewrite Lc. exact Hbc.
    - destruct (getTransaction net p (txHash_of anchorProof)); rewrite Lc; exact Hbc. }
  clear Lc. unfold result, after in Lt, He2, Hb2.
  destruct (load_transaction net p (txHash_of anchorProof) this1) as [[r2 this2] tr2].
  simpl in Lt, He2, Hb2. rewrite He in He2.
  destruct (getTransaction net p (txHash_of anchorProof)) as [[t|]|e]; subst r2.
  - assert (Hb : forall b, cached_block this2 (TransactionResponse.blockHash t) = Some b ->
                   getBlock net p (TransactionResponse.blockHash t) = Resolved (Some b)).
    { intros b Hcb. apply cached_block_In in Hcb. rewrite Hb2 in Hcb.
      destruct (Hrb _ _ Hcb) as (chain' & p' & Hp' & Hn).
      rewrite (proj2 (Hsv _ _ _ _ Hp Hp')). exact Hn. }
    pose proof (load_block_result net p _ this2 Hb) as Lb.
    unfold result in Lb.
    destruct (load_block net p (TransactionResponse.blockHash t) this2) as [[r3 this3] tr3].
    simpl in Lb.
    destruct (getBlock net p (TransactionResponse.blockHash t)) as [[b|]|e]; subst r3.
    + reflexivity.
    + rewrite (proj2 (not_found_messages_same (constructor (ethereumRpcEndpoint this)) this2
                        (txHash_of anchorProof) t He2)).
      reflexivity.
    + reflexivity.
  - rewrite (proj1 (not_found_messages_same (constructor (ethereumRpcEndpoint this)) this2
                      (txHash_of anchorProof) Scenario.transaction He2)).
    reflexivity.
  - reflexivity.
Qed.

Lemma endpoint_single_view endpoint net :
  JS.truthy endpoint = true -> single_view endpoint net.
Proof.
  intros Ht chain chain' p p'. unfold expected_provider. rewrite Ht.
  intros [= <-] [= <-]. auto.
Qed.

(** X12. The caches do not change results.  On a validator that validated
    any number of proofs against a chain, every proof gets the result that
    a fresh validator gives it against that chain, provided that all the
    providers of the validator give the same answers, as they do when the
    validator was built with an RPC endpoint. *)
Theorem caches_do_not_change_results net endpoint this anchorProof :
  validated_under net endpoint this ->
  single_view endpoint net ->
  result (validateChainInclusion net anchorProof this)
  = result (validateChainInclusion net anchorProof (constructor endpoint)).
Proof.
  intros Hv Hsv.
  destruct (validated_under_reachable _ _ _ Hv) as (Hr & He & Hc).
  pose proof (validated_under_records _ _ _ Hv) as Hrec.
  rewrite <- He in Hsv.
  rewrite (cached_validation_result net anchorProof this Hr Hc Hrec Hsv).
  rewrite He in *.
  symmetry.
  apply (cached_validation_result net anchorProof (constructor endpoint)).
  - constructor.
  - reflexivity.
  - split; intros h x [].
  - exact Hsv.
Qed.

Lemma caches_do_not_change_results_witness :
  let this := after (validateChainInclusion Scenario.net (Cases.proof_on "eip155:1")
                       (constructor Scenario.rpc)) in
  validated_under Scenario.net Scenario.rpc this /\
  single_view Scenario.rpc Scenario.net /\
  result (validateChainInclusion Scenario.net (Cases.proof_on "eip155:3") this)
  = result (validateChainInclusion Scenario.net (Cases.proof_on "eip155:3")
              (constructor Scenario.rpc)).
Proof.
  cbv zeta.
  assert (Hv : validated_under Scenario.net Scenario.rpc
                 (after (validateChainInclusion Scenario.net (Cases.proof_on "eip155:1")
                           (constructor Scenario.rpc))))
    by (apply validated_step; apply validated_new).
  assert (Hs : single_view Scenario.rpc Scenario.net)
    by (apply endpoint_single_view; reflexivity).
  split; [exact Hv|]. split; [exact Hs|].
  exact (caches_do_not_change_results Scenario.net Scenario.rpc _
           (Cases.proof_on "eip155:3") Hv Hs).
Defined.

(** Without that proviso the caches show: a transaction that only the
    first chain knows is found for a proof that names the second chain. *)
Example caches_change_results_across_chains :
  let net :=
    {| getNetwork := fun _ => Resolved 1;
       getTransaction := fun p h =>
         match p with
         | DefaultProvider "mainnet" => getTransaction Scenario.net p h
         | _ => Resolved None
         end;
       getBlock := getBlock Scenario.net |} in
  result (validateChainInclusion net (Cases.proof_on "eip155:3") (constructor None))
  = Throw "Failed to load transaction data for transaction 0xabcd. Try providing an ethereum rpc endpoint" /\
  result (validateChainInclusion net (Cases.proof_on "eip155:3")
            (after (validateChainInclusion net (Cases.proof_on "eip155:1") (constructor None))))
  = Return tt.
Proof. vm_compute. split; reflexivity. Qed.



(** ** What a validation leaves untouched *)

Lemma _getEthProvider_limit chain this :
  LRUMap.limit (providersCache (after (_getEthProvider chain this)))
  = LRUMap.limit (providersCache this).
Proof.
  destruct (LRUMap.peek chain (providersCache this)) as [q|] eqn:E.
  - rewrite (_getEthProvider_hit _ _ _ E). apply LRUFacts.get_limit.
  - rewrite (_getEthProvider_miss _ _ E).
    destruct (negb (JS.startsWith chain "eip155")); [reflexivity|].
    destruct (JS.truthy (_chainId this) && _); [reflexivity|].
    destruct (JS.truthy (ethereumRpcEndpoint this)); [apply LRUFacts.set_limit|].
    destruct (ETH_CHAIN_ID_MAPPINGS chain); [apply LRUFacts.set_limit|reflexivity].
Qed.

(** X14. [validateChainInclusion] never reconfigures the validator:
    whatever the proof and the answers of the chain, and whether it returns
    or throws, the configured chain id, the RPC endpoint and the limits of
    the three caches are the ones from before. *)
Theorem validateChainInclusion_keeps_configuration net anchorProof this :
  _chainId (after (validateChainInclusion net anchorProof this)) = _chainId this /\
  ethereumRpcEndpoint (after (validateChainInclusion net anchorProof this))
  = ethereumRpcEndpoint this /\
  LRUMap.limit (providersCache (after (validateChainInclusion net anchorProof this)))
  = LRUMap.limit (providersCache this) /\
  LRUMap.limit (_transactionCache (after (validateChainInclusion net anchorProof this)))
  = LRUMap.limit (_transactionCache this) /\
  LRUMap.limit (_blockCache (after (validateChainInclusion net anchorProof this)))
  = LRUMap.limit (_blockCache this).
Proof.
  apply (preserves_validateChainInclusion
           (fun s =>
              _chainId s = _chainId this /\
              ethereumRpcEndpoint s = ethereumRpcEndpoint this /\
              LRUMap.limit (providersCache s) = LRUMap.limit (providersCache this) /\
              LRUMap.limit (_transactionCache s) = LRUMap.limit (_transactionCache this) /\
              LRUMap.limit (_blockCache s) = LRUMap.limit (_blockCache this))).
  - intros chain s (Hc & He & Hp & Ht & Hb).
    destruct (_getEthProvider_frame chain s) as (_ & He1 & Hc1 & Ht1 & Hb1 & _).
    rewrite Hc1, He1, Ht1, Hb1, _getEthProvider_limit. auto.
  - intros s c (Hc & He & Hp & Ht & Hb) Hl _. simpl. rewrite Hl. auto.
  - intros s c (Hc & He & Hp & Ht & Hb) Hl _. simpl. rewrite Hl. auto.
  - auto.
Qed.

(** ** The transaction hash as a cache key *)

Lemma hex_of_byte_digits b :
  exists c1 c2,
    hex_of_byte b = String c1 (String c2 EmptyString) /\
    exists d1 d2,
      JS.hex_digit c1 = Some d1 /\ JS.hex_digit c2 = Some d2 /\
      16 * d1 + d2 = Z.of_N (Byte.to_N b).
Proof.
  destruct b; do 2 eexists; (split; [reflexivity|]); do 2 eexists; repeat split.
Qed.

Lemma hex_of_byte_injective b b' : hex_of_byte b = hex_of_byte b' -> b = b'.
Proof.
  destruct (hex_of_byte_digits b) as (c1 & c2 & -> & d1 & d2 & H1 & H2 & Hv).
  destruct (hex_of_byte_digits b') as (c1' & c2' & -> & d1' & d2' & H1' & H2' & Hv').
  intros [= <- <-]. rewrite H1 in H1'. rewrite H2 in H2'.
  injection H1' as <-. injection H2' as <-.
  assert (HN : Byte.to_N b = Byte.to_N b') by lia.
  pose proof (Byte.of_to_N b) as Hb. rewrite HN, Byte.of_to_N in Hb. congruence.
Qed.

Lemma uint8arrays_toString_base16_injective bs bs' :
  uint8arrays_toString_base16 bs = uint8arrays_toString_base16 bs' -> bs = bs'.
Proof.
  revert bs'. induction bs as [|b bs IH]; intros [|b' bs']; simpl.
  - reflexivity.
  - destruct (hex_of_byte_digits b') as (c1 & c2 & -> & _). discriminate.
  - destruct (hex_of_byte_digits b) as (c1 & c2 & -> & _). discriminate.
  - intros H.
    assert (Hb : hex_of_byte b = hex_of_byte b' /\
                 uint8arrays_toString_base16 bs = uint8arrays_toString_base16 bs').
    { destruct (hex_of_byte_digits b) as (c1 & c2 & E & _).
      destruct (hex_of_byte_digits b') as (c1' & c2' & E' & _).
      rewrite E, E' in *. simpl in H. injection H as -> -> ->. auto. }
    destruct Hb as [Hb Hrest].
    rewrite (hex_of_byte_injective _ _ Hb), (IH _ Hrest). reflexivity.
Qed.

Lemma uint8arrays_toString_base16_length bs :
  String.length (uint8arrays_toString_base16 bs) = (2 * List.length bs)%nat.
Proof.
  induction bs as [|b bs IH]; simpl; [reflexivity|].
  destruct (hex_of_byte_digits b) as (c1 & c2 & -> & _). simpl. rewrite IH. lia.
Qed.

(** X15. The transaction hash that keys the transaction cache is [0x]
    followed by two hexadecimal digits for every byte of the digest, and it
    determines the digest: proofs whose transaction digests differ never
    share a hash, and so never an entry of the cache. *)
Theorem txHash_of_determines_the_digest anchorProof anchorProof' :
  JS.startsWith (txHash_of anchorProof) "0x" = true /\
  String.length (txHash_of anchorProof)
  = (2 + 2 * List.length (CID.digest (AnchorProof.txHash anchorProof)))%nat /\
  (txHash_of anchorProof = txHash_of anchorProof' ->
   CID.digest (AnchorProof.txHash anchorProof)
   = CID.digest (AnchorProof.txHash anchorProof')).
Proof.
  unfold txHash_of. split.
  { unfold JS.startsWith. simpl.
    destruct (uint8arrays_toString_base16 _); reflexivity. }
  split.
  - simpl. rewrite uint8arrays_toString_base16_length. reflexivity.
  - simpl. intros [= H]. apply uint8arrays_toString_base16_injective. exact H.
Qed.

Lemma txHash_of_determines_the_digest_witness :
  txHash_of (Cases.proof_on "eip155:1") = txHash_of (Cases.proof_on "eip155:3") /\
  CID.digest (AnchorProof.txHash (Cases.proof_on "eip155:1"))
  = CID.digest (AnchorProof.txHash (Cases.proof_on "eip155:3")) /\
  String.length (txHash_of (Cases.proof_on "eip155:1")) = 6%nat.
Proof.
  destruct (txHash_of_determines_the_digest (Cases.proof_on "eip155:1")
              (Cases.proof_on "eip155:3")) as (_ & Hlen & Hinj).
  split; [reflexivity|]. split; [exact (Hinj eq_refl)|exact Hlen].
Defined.

Lemma init_frame_witness :
  result (init Cases.offline (Some "eip155:1") (constructor Scenario.rpc))
  = Throw "could not detect network" /\
  _chainId (after (init Cases.offline (Some "eip155:1") (constructor Scenario.rpc))) = None /\
  _transactionCache (after (init Cases.offline (Some "eip155:1") (constructor Scenario.rpc)))
  = LRUMap.new 50.
Proof.
  destruct (init_frame Cases.offline (Some "eip155:1") (constructor Scenario.rpc))
    as (Ht & _ & _ & _ & Hc).
  split; [reflexivity|]. split; [exact (Hc _ eq_refl)|exact Ht].
Defined.

(** ** What the root error shows *)

Lemma prefix_empty s : String.prefix EmptyString s = true.
Proof. destruct s; reflexivity. Qed.

Lemma includes_first_char hay c rest :
  JS.includes hay (String c rest) = true ->
  JS.includes hay (String c EmptyString) = true.
Proof.
  induction hay as [|b hay IH]; simpl; [discriminate|].
  destruct (ascii_dec c b) as [->|Hne].
  - intros _. rewrite prefix_empty. reflexivity.
  - simpl. exact IH.
Qed.

Lemma includes_char_append a b c :
  JS.includes (a ++ b) (String c EmptyString)
  = JS.includes a (String c EmptyString) || JS.includes b (String c EmptyString).
Proof.
  induction a as [|x a IH]; simpl.
  - destruct b; reflexivity.
  - destruct (ascii_dec c x); [rewrite !prefix_empty; reflexivity|]. simpl. exact IH.
Qed.

Lemma base32_char_is_not_zero i :
  JS.includes (nth_char base32_alphabet i) "0" = false.
Proof.
  unfold nth_char. generalize (Z.to_nat i). intros n.
  do 33 (destruct n as [|n]; [reflexivity|]). reflexivity.
Qed.

Lemma base32_drain_has_no_zero fuel buffer bits out :
  JS.includes out "0" = false ->
  JS.includes (snd (base32_drain fuel buffer bits out)) "0" = false.
Proof.
  revert bits out.
  induction fuel as [|fuel IH]; intros bits out H; cbn [base32_drain]; [exact H|].
  destruct (5 <? bits); [|exact H]. cbv zeta.
  apply IH. rewrite includes_char_append, H, base32_char_is_not_zero. reflexivity.
Qed.

Lemma base32_loop_has_no_zero data buffer bits out :
  JS.includes out "0" = false ->
  JS.includes (base32_loop data buffer bits out) "0" = false.
Proof.
  revert buffer bits out.
  induction data as [|b data IH]; intros buffer bits out H; cbn [base32_loop].
  - destruct (bits =? 0); [exact H|].
    rewrite includes_char_append, H, base32_char_is_not_zero. reflexivity.
  - cbv zeta.
    pose proof (base32_drain_has_no_zero 3
                  (Z.lor (Z.shiftl buffer 8) (Z.of_N (Byte.to_N b))) (bits + 8) out H) as Hd.
    destruct (base32_drain 3 _ (bits + 8) out) as [bits' out']. apply IH. exact Hd.
Qed.

(** X16. The error for a root that is not in the transaction never shows
    the data of the transaction: the message is made of fixed words and of
    the base32 form of the root of the proof, none of which has the digit
    [0] that a [0x] payload begins with. *)
Theorem root_error_never_shows_the_payload anchorProof transaction :
  JS.startsWith (TransactionResponse.data transaction) "0x" = true ->
  JS.includes (root_not_in_transaction_message anchorProof)
    (TransactionResponse.data transaction) = false.
Proof.
  intros Hx.
  destruct (TransactionResponse.data transaction) as [|c rest] eqn:Ed; [discriminate|].
  unfold JS.startsWith in Hx. cbn [String.prefix] in Hx.
  destruct (ascii_dec "0" c) as [<-|]; [clear Hx|discriminate].
  destruct (JS.includes (root_not_in_transaction_message anchorProof) (String "0" rest))
    eqn:E; [|reflexivity].
  apply includes_first_char in E. exfalso. revert E.
  unfold root_not_in_transaction_message, CID.toString.
  rewrite !includes_char_append.
  rewrite (base32_loop_has_no_zero (CID.bytes (AnchorProof.root anchorProof)) 0 0
             EmptyString eq_refl).
  discriminate.
Qed.

Lemma root_error_never_shows_the_payload_witness :
  JS.startsWith (TransactionResponse.data Scenario.transaction) "0x" = true /\
  JS.includes (root_not_in_transaction_message (Cases.proof_on "eip155:1"))
    (TransactionResponse.data Scenario.transaction) = false.
Proof.
  split; [reflexivity|].
  exact (root_error_never_shows_the_payload (Cases.proof_on "eip155:1")
           Scenario.transaction eq_refl).
Defined.

(** ** The providers of a configured validator *)

Lemma init_providersCache net chainId this :
  providersCache (after (init net chainId this))
  = if JS.truthy chainId
    then providersCache (after (_getEthProvider (JS.show_nullable chainId) this))
    else providersCache this.
Proof.
  destruct (JS.truthy chainId) eqn:Ht.
  - destruct chainId as [c|]; [|discriminate]. simpl JS.show_nullable.
    pose proof (init_course net c this Ht) as C.
    destruct (_getEthProvider c this) as [[[p|e] this1] tr1]; [|rewrite C; reflexivity].
    destruct (getNetwork net p) as [n|e]; [|rewrite C; reflexivity].
    destruct (String.eqb c _); rewrite C; reflexivity.
  - unfold init. rewrite Ht. reflexivity.
Qed.

Lemma single_provider_getEthProvider c chain this :
  serves_only c this ->
  LRUMap.keys (providersCache this) = [c] ->
  LRUMap.keys (providersCache (after (_getEthProvider chain this))) = [c].
Proof.
  intros (Hc & Ht & _) Hkeys.
  destruct (LRUMap.peek chain (providersCache this)) as [q|] eqn:E.
  - rewrite (_getEthProvider_hit _ _ _ E). fields.
    unfold LRUMap.peek, LRUMap.keys, LRUMap.get in *.
    destruct (LRUMap.entries (providersCache this)) as [|[k v] [|x es]]; try discriminate.
    injection Hkeys as ->. simpl in E.
    destruct (String.eqb_spec chain c) as [->|Hne]; [|discriminate].
    cbn [LRUMap.find LRUMap.remove]. rewrite !String.eqb_refl. reflexivity.
  - rewrite (_getEthProvider_miss _ _ E). rewrite Hc, Ht. simpl JS.show_nullable.
    destruct (negb (JS.startsWith chain "eip155")); [exact Hkeys|].
    destruct (String.eqb_spec c chain) as [<-|Hne]; simpl; [|exact Hkeys].
    exfalso. unfold LRUMap.peek, LRUMap.keys in *.
    apply LRUFacts.find_None_not_In in E. apply E. rewrite Hkeys. left; reflexivity.
Qed.

(** X17. A validator that [init] configured for a chain when it was fresh
    holds exactly one provider from then on, under the configured chain id:
    validations and further calls of [init] neither add a provider for
    another chain nor drop that one. *)
Theorem configured_validator_holds_one_provider c this :
  configured_for c this ->
  _chainId this = Some c /\
  LRUMap.keys (providersCache this) = [c] /\
  exists p, result (_getEthProvider c this) = Return p.
Proof.
  intros Hconf.
  assert (H : serves_only c this /\ LRUMap.keys (providersCache this) = [c]).
  { induction Hconf as [endpoint net Ht Hr|this net chainId Hconf IH|this net anchorProof Hconf IH].
    - split; [apply configured_for_serves_only; apply configured_init; assumption|].
      rewrite init_providersCache, Ht. simpl JS.show_nullable.
      assert (Hmiss : LRUMap.peek c (providersCache (constructor endpoint)) = None)
        by reflexivity.
      pose proof (init_course net c (constructor endpoint) Ht) as C.
      rewrite (_getEthProvider_miss _ _ Hmiss) in *.
      change (_chainId (constructor endpoint)) with (@None string) in *.
      change (ethereumRpcEndpoint (constructor endpoint)) with endpoint in *.
      destruct (negb (JS.startsWith c "eip155")); [rewrite C in Hr; discriminate|].
      simpl andb in *. cbv iota in *.
      destruct (JS.truthy endpoint); [reflexivity|].
      destruct (ETH_CHAIN_ID_MAPPINGS c); [reflexivity|rewrite C in Hr; discriminate].
    - destruct IH as [Hs Hk]. split; [apply serves_only_init; assumption|].
      rewrite init_providersCache. destruct (JS.truthy chainId); [|exact Hk].
      apply single_provider_getEthProvider; assumption.
    - destruct IH as [Hs Hk].
      apply (preserves_validateChainInclusion
               (fun s => serves_only c s /\ LRUMap.keys (providersCache s) = [c])).
      + intros chain s [Hs0 Hk0]. split;
          [apply serves_only_getEthProvider; assumption
          |apply single_provider_getEthProvider; assumption].
      + intros s x H0 _ _. exact H0.
      + intros s x H0 _ _. exact H0.
      + auto. }
  destruct H as [(Hc & Ht & Hk) Hkeys].
  split; [exact Hc|]. split; [exact Hkeys|].
  destruct (LRUMap.peek c (providersCache this)) as [p|] eqn:E.
  - exists p. rewrite (_getEthProvider_hit _ _ _ E). reflexivity.
  - exfalso. apply LRUFacts.find_None_not_In in E. apply E.
    unfold LRUMap.keys in Hkeys. rewrite Hkeys. left; reflexivity.
Qed.

Lemma configured_validator_holds_one_provider_witness :
  let this :=
    after (validateChainInclusion Scenario.net (Cases.proof_on "eip155:3")
             (after (init Scenario.net (Some "eip155:1") (constructor Scenario.rpc)))) in
  configured_for "eip155:1" this /\
  LRUMap.keys (providersCache this) = ["eip155:1"].
Proof.
  cbv zeta.
  assert (Hc : configured_for "eip155:1"
                 (after (validateChainInclusion Scenario.net (Cases.proof_on "eip155:3")
                           (after (init Scenario.net (Some "eip155:1")
                                     (constructor Scenario.rpc))))))
    by (apply configured_validate; apply configured_init; reflexivity).
  split; [exact Hc|].
  exact (proj1 (proj2 (configured_validator_holds_one_provider "eip155:1" _ Hc))).
Defined.

(** ** The order of eviction is the order of the last touches *)

Module LRUHistoryFacts.

Import LRUMap LRUHistory.
Local Open Scope list_scope.
Local Open Scope nat_scope.

Section WithValues.

Context {V : Type}.
Implicit Types (m : LRUMap.t V) (es : list (string * V)) (k : string) (v : V).
Implicit Types (T : string -> option nat) (ks : list string) (o : op V).

Lemma order_ext T T' ks :
  (forall k, In k ks -> T' k = T k) -> in_touch_order T ks -> in_touch_order T' ks.
Proof.
  induction ks as [|k ks IH]; simpl; [auto|].
  intros He [Hk Hrest]. split.
  - intros k' Hin. rewrite (He k (or_introl eq_refl)), (He k' (or_intror Hin)). auto.
  - apply IH; auto.
Qed.

Lemma order_remove T k es :
  in_touch_order T (map fst es) -> in_touch_order T (map fst (remove k es)).
Proof.
  induction es as [|[k0 v0] es IH]; simpl; [auto|].
  intros [Hk Hrest]. destruct (String.eqb k k0); [auto|].
  simpl. split; [|auto]. intros k' Hin. apply Hk.
  apply LRUFacts.In_remove in Hin. tauto.
Qed.

Lemma order_snoc T ks k :
  in_touch_order T ks ->
  (forall k', In k' ks -> earlier (T k') (T k)) ->
  in_touch_order T (ks ++ [k]).
Proof.
  induction ks as [|k0 ks IH]; simpl.
  - intros _ _. split; [intros k' []|exact I].
  - intros [Hk Hrest] Hlast. split.
    + intros k' Hin. apply in_app_iff in Hin. destruct Hin as [Hin|[<-|[]]]; auto.
    + apply IH; auto.
Qed.

Lemma invariant_ext T T' i ks :
  (forall k, T' k = T k) -> touch_invariant T i ks -> touch_invariant T' i ks.
Proof.
  intros He (Hnd & Hord & Hb). split; [assumption|]. split.
  - apply (order_ext T); auto.
  - intros k Hin. rewrite He. auto.
Qed.

Lemma invariant_later T i ks : touch_invariant T i ks -> touch_invariant T (S i) ks.
Proof.
  intros (Hnd & Hord & Hb). split; [assumption|]. split; [assumption|].
  intros k Hin. destruct (Hb k Hin) as (t & Ht & Hlt). exists t. split; [assumption|lia].
Qed.

Lemma invariant_tl T i ks : touch_invariant T i ks -> touch_invariant T i (tl ks).
Proof.
  intros (Hnd & Hord & Hb). destruct ks as [|k ks]; simpl; [repeat split; assumption|].
  split; [inversion Hnd; assumption|]. split; [apply Hord|].
  intros k' Hin. apply Hb. right. assumption.
Qed.

(** Moving a key to the end of the list, or adding it there, is what a
    touch at position [i] does to the order. *)
Lemma invariant_touch T i es k v :
  touch_invariant T i (map fst es) ->
  touch_invariant (fun x => if String.eqb x k then Some i else T x) (S i)
    (map fst (remove k es ++ [(k, v)])).
Proof.
  intros (Hnd & Hord & Hb).
  assert (Hother : forall x, In x (map fst (remove k es)) -> String.eqb x k = false).
  { intros x Hin. apply LRUFacts.In_remove in Hin. apply String.eqb_neq. tauto. }
  split; [|split].
  - apply LRUFacts.NoDup_snoc; [apply LRUFacts.NoDup_remove; assumption|].
    rewrite LRUFacts.In_remove. tauto.
  - rewrite map_app. simpl. apply order_snoc.
    + apply (order_ext T); [|apply order_remove; assumption].
      intros x Hin. rewrite (Hother x Hin). reflexivity.
    + intros x Hin. rewrite (Hother x Hin), String.eqb_refl.
      apply LRUFacts.In_remove in Hin. destruct (Hb x (proj2 Hin)) as (t & -> & Hlt).
      exact Hlt.
  - intros x Hin. rewrite map_app, in_app_iff in Hin. simpl in Hin.
    destruct Hin as [Hin|[<-|[]]].
    + rewrite (Hother x Hin). apply LRUFacts.In_remove in Hin.
      destruct (Hb x (proj2 Hin)) as (t & Ht & Hlt). exists t. split; [assumption|lia].
    + rewrite String.eqb_refl. exists i. split; [reflexivity|lia].
Qed.

(** One operation keeps the keys in the order of their last touches. *)
Lemma invariant_apply T i m o :
  touch_invariant T i (keys m) ->
  touch_invariant (fun k => if touches m o k then Some i else T k) (S i) (keys (apply o m)).
Proof.
  intros H. destruct o as [k|k v]; unfold apply, touches, get, set, peek, keys in *.
  - destruct (find k (entries m)) as [v|] eqn:E; simpl.
    + apply (invariant_ext (fun x => if String.eqb x k then Some i else T x)).
      * intros x. rewrite andb_true_r. reflexivity.
      * apply invariant_touch. assumption.
    + apply (invariant_ext T).
      * intros x. rewrite andb_false_r. reflexivity.
      * apply invariant_later. assumption.
  - destruct (find k (entries m)) as [v0|] eqn:E; simpl.
    + apply invariant_touch. assumption.
    + pose proof (invariant_touch T i (entries m) k v H) as H'.
      rewrite (LRUFacts.length_remove_absent _ _ E) in H'.
      destruct (limit m <? _); simpl; [|exact H'].
      replace (map fst (tl (entries m ++ [(k, v)])))
        with (tl (map fst (entries m ++ [(k, v)])))
        by (destruct (entries m ++ [(k, v)]); reflexivity).
      apply invariant_tl. exact H'.
Qed.

Lemma invariant_run ops : forall m T i,
  touch_invariant T i (keys m) ->
  touch_invariant (fun k => last_touch_from ops m i (T k) k) (i + List.length ops)
    (keys (run ops m)).
Proof.
  induction ops as [|o ops IH]; intros m T i H; simpl.
  - rewrite Nat.add_0_r. exact H.
  - rewrite Nat.add_succ_r.
    exact (IH (apply o m) (fun k => if touches m o k then Some i else T k) (S i)
              (invariant_apply T i m o H)).
Qed.

(** The keys of a cache with a history are listed once each, from the one
    touched least recently to the one touched most recently. *)
Lemma history_order limit ops :
  touch_invariant (last_touch limit ops) (List.length ops)
    (keys (run ops (@new V limit))).
Proof.
  apply (invariant_run ops (new limit) (fun _ => None) 0).
  split; [constructor|]. split; [exact I|]. intros k [].
Qed.

Lemma run_app ops ops' m : run (ops ++ ops') m = run ops' (run ops m).
Proof. unfold run. apply fold_left_app. Qed.

Lemma run_wf ops : forall m, wf m -> wf (run ops m) /\ limit (run ops m) = limit m.
Proof.
  induction ops as [|o ops IH]; intros m Hwf; simpl; [auto|].
  assert (H : wf (apply o m) /\ limit (apply o m) = limit m).
  { destruct o as [k|k v]; simpl.
    - split; [apply LRUFacts.wf_get; assumption|apply LRUFacts.get_limit].
    - split; [apply LRUFacts.wf_set; assumption|apply LRUFacts.set_limit]. }
  destruct H as [Hwf' Hl]. destruct (IH _ Hwf') as [Hw Hl']. split; [assumption|congruence].
Qed.

Lemma built_new limit : built limit (@new V limit).
Proof. exists []. reflexivity. Qed.

Lemma built_get limit k m : built limit m -> built limit (snd (get k m)).
Proof. intros [ops ->]. exists (ops ++ [Lookup k]). rewrite run_app. reflexivity. Qed.

Lemma built_set limit k v m : built limit m -> built limit (set k v m).
Proof. intros [ops ->]. exists (ops ++ [Store k v]). rewrite run_app. reflexivity. Qed.

(** The head of the list is the key that was touched least recently. *)
Lemma oldest_least_recent limit ops k0 v0 k :
  oldest (run ops (@new V limit)) = Some (k0, v0) ->
  In k (keys (run ops (@new V limit))) ->
  k <> k0 ->
  earlier (last_touch limit ops k0) (last_touch limit ops k).
Proof.
  intros Hold Hin Hne.
  destruct (history_order limit ops) as (_ & Hord & _).
  unfold oldest, keys in *.
  destruct (entries (run ops (new limit))) as [|[k1 v1] es]; [discriminate|].
  injection Hold as -> ->. simpl in *.
  destruct Hin as [Hin|Hin]; [congruence|]. apply (proj1 Hord). assumption.
Qed.

End WithValues.

End LRUHistoryFacts.

(** ** The caches of a validator have a history *)

Lemma caches_built_new endpoint : caches_built (constructor endpoint).
Proof. repeat split; apply LRUHistoryFacts.built_new. Qed.

Lemma caches_built_getEthProvider chain : preserves caches_built (_getEthProvider chain).
Proof.
  intros this (Hp & Ht & Hb).
  destruct (LRUMap.peek chain (providersCache this)) as [q|] eqn:E.
  - rewrite (_getEthProvider_hit _ _ _ E). unfold caches_built. fields.
    split; [apply LRUHistoryFacts.built_get; assumption|split; assumption].
  - rewrite (_getEthProvider_miss _ _ E).
    destruct (negb (JS.startsWith chain "eip155")); [repeat split; assumption|].
    destruct (JS.truthy (_chainId this) && _); [repeat split; assumption|].
    destruct (JS.truthy (ethereumRpcEndpoint this)).
    + unfold caches_built. fields.
      split; [apply LRUHistoryFacts.built_set; assumption|split; assumption].
    + destruct (ETH_CHAIN_ID_MAPPINGS chain); [|repeat split; assumption].
      unfold caches_built. fields.
      split; [apply LRUHistoryFacts.built_set; assumption|split; assumption].
Qed.

Lemma caches_built_load_transaction net p h :
  preserves caches_built (load_transaction net p h).
Proof.
  intros this (Hp & Ht & Hb). pose proof (load_transaction_cases net p h this) as L.
  destruct (cached_transaction this h); [|destruct (getTransaction net p h)];
    rewrite L; unfold caches_built; fields;
    (split; [assumption|split; [|assumption]]);
    auto using LRUHistoryFacts.built_get, LRUHistoryFacts.built_set.
Qed.

Lemma caches_built_load_block net p h : preserves caches_built (load_block net p h).
Proof.
  intros this (Hp & Ht & Hb). pose proof (load_block_cases net p h this) as L.
  destruct (cached_block this h); [|destruct (getBlock net p h)];
    rewrite L; unfold caches_built; fields;
    (split; [assumption|split; [assumption|]]);
    auto using LRUHistoryFacts.built_get, LRUHistoryFacts.built_set.
Qed.

Lemma caches_built_getTransactionAndBlockInfo net chainId txHash :
  preserves caches_built (_getTransactionAndBlockInfo net chainId txHash).
Proof.
  intros this H.
  pose proof (_getTransactionAndBlockInfo_after net chainId txHash this) as A.
  pose proof (caches_built_getEthProvider chainId this H) as H1. unfold after in H1.
  destruct (_getEthProvider chainId this) as [[[p|e] this1] tr1]; simpl in H1;
    [|rewrite A; exact H1].
  pose proof (caches_built_load_transaction net p txHash this1 H1) as H2. unfold after in H2.
  destruct (load_transaction net p txHash this1) as [[[[t|]|e] this2] tr2]; simpl in H2;
    try (rewrite A; exact H2).
  rewrite A. apply caches_built_load_block. exact H2.
Qed.

Lemma caches_built_init net chainId : preserves caches_built (init net chainId).
Proof.
  intros this H. destruct (JS.truthy chainId) eqn:Ht.
  - destruct chainId as [c|]; [|discriminate].
    pose proof (init_course net c this Ht) as C.
    pose proof (caches_built_getEthProvider c this H) as H1. unfold after in H1.
    destruct (_getEthProvider c this) as [[[p|e] this1] tr1]; simpl in H1;
      [|rewrite C; exact H1].
    destruct (getNetwork net p) as [n|e]; [|rewrite C; exact H1].
    destruct (String.eqb c _); rewrite C; exact H1.
  - unfold init. rewrite Ht. exact H.
Qed.

Lemma reachable_caches_built this : reachable this -> caches_built this.
Proof.
  induction 1 as [endpoint|this net chainId _ IH|this net anchorProof _ IH].
  - apply caches_built_new.
  - apply caches_built_init. exact IH.
  - rewrite (proj2 (validateChainInclusion_trace net anchorProof this)).
    apply caches_built_getTransactionAndBlockInfo. exact IH.
Qed.

(** C8. The three caches of a validator have the limits 100, 50 and 50,
    never hold more entries than that, and are what lookups and stores
    made of an empty cache.  A lookup that finds its key and a store touch
    the key.  In a cache of capacity N that holds N entries, storing a
    value under a new key drops exactly the entry whose last touch is the
    earliest: that key is no longer found, every other key is found with
    its value, the new key is found, and the cache holds N entries as
    before.  The dropped entry is the one at the head of the list of
    entries. *)
Theorem caches_bounded_and_lru :
  (forall this,
     reachable this ->
     LRUMap.limit (providersCache this) = 100%nat /\
     (LRUMap.size (providersCache this) <= 100)%nat /\
     LRUMap.limit (_transactionCache this) = 50%nat /\
     (LRUMap.size (_transactionCache this) <= 50)%nat /\
     LRUMap.limit (_blockCache this) = 50%nat /\
     (LRUMap.size (_blockCache this) <= 50)%nat /\
     LRUHistory.built 100 (providersCache this) /\
     LRUHistory.built 50 (_transactionCache this) /\
     LRUHistory.built 50 (_blockCache this)) /\
  (forall (V : Type) (N : nat) (ops : list (LRUHistory.op V)) k v,
     let m := LRUHistory.run ops (LRUMap.new N) in
     (0 < N)%nat ->
     LRUMap.size m = N ->
     LRUMap.peek k m = None ->
     exists k0,
       In k0 (LRUMap.keys m) /\
       (forall k', In k' (LRUMap.keys m) -> k' <> k0 ->
          LRUHistory.earlier (LRUHistory.last_touch N ops k0)
            (LRUHistory.last_touch N ops k')) /\
       fst (LRUMap.get k0 (LRUMap.set k v m)) = None /\
       fst (LRUMap.get k (LRUMap.set k v m)) = Some v /\
       (forall k' v',
          k' <> k0 ->
          fst (LRUMap.get k' m) = Some v' ->
          fst (LRUMap.get k' (LRUMap.set k v m)) = Some v') /\
       LRUMap.size (LRUMap.set k v m) = N) /\
  (forall (V : Type) (m : LRUMap.t V) k v k0 v0,
     LRUMap.wf m ->
     LRUMap.size m = LRUMap.limit m ->
     LRUMap.oldest m = Some (k0, v0) ->
     LRUMap.peek k m = None ->
     LRUMap.size (LRUMap.set k v m) = LRUMap.limit m /\
     LRUMap.keys (LRUMap.set k v m) = (tl (LRUMap.keys m) ++ [k])%list /\
     fst (LRUMap.get k0 (LRUMap.set k v m)) = None /\
     fst (LRUMap.get k (LRUMap.set k v m)) = Some v /\
     (forall k' v',
        k' <> k0 ->
        fst (LRUMap.get k' m) = Some v' ->
        fst (LRUMap.get k' (LRUMap.set k v m)) = Some v')).
Proof.
  split; [|split].
  - intros this Hr.
    destruct (reachable_caches_bounded this Hr) as (H1 & H2 & H3 & H4 & H5 & H6).
    destruct (reachable_caches_built this Hr) as (B1 & B2 & B3).
    repeat match goal with |- _ /\ _ => split end; assumption.
  - intros V N ops k v m Hpos Hfull Hnew.
    destruct (LRUHistoryFacts.run_wf ops (LRUMap.new N) (LRUFacts.wf_new N)) as [Hwf Hlim].
    fold m in Hwf, Hlim. simpl in Hlim.
    destruct (LRUMap.oldest m) as [[k0 v0]|] eqn:Hold.
    + exists k0.
      assert (Hfull' : LRUMap.size m = LRUMap.limit m) by congruence.
      destruct (full_cache_eviction m k v k0 v0 Hwf Hfull' Hold Hnew)
        as (Hsize & _ & Hgone & Hfound & Hkept).
      repeat match goal with |- _ /\ _ => split end.
      * unfold LRUMap.oldest, LRUMap.keys in *.
        destruct (LRUMap.entries m) as [|[k1 v1] es]; [discriminate|].
        injection Hold as -> ->. left. reflexivity.
      * intros k' Hin Hne.
        exact (LRUHistoryFacts.oldest_least_recent N ops k0 v0 k' Hold Hin Hne).
      * exact Hgone.
      * exact Hfound.
      * exact Hkept.
      * congruence.
    + exfalso. unfold LRUMap.oldest, LRUMap.size in *.
      destruct (LRUMap.entries m); [simpl in Hfull; lia|discriminate].
  - intros V m k v k0 v0. apply full_cache_eviction.
Qed.

(** The first key stored is looked up before the cache overflows: the key
    that is dropped is the second one. *)
Lemma caches_bounded_and_lru_witness :
  let ops := [LRUHistory.Store "0xa" 1; LRUHistory.Store "0xb" 2;
              LRUHistory.Store "0xc" 3; LRUHistory.Lookup "0xa"] in
  let m := LRUHistory.run ops (LRUMap.new 3) in
  (0 < 3)%nat /\
  LRUMap.size m = 3%nat /\
  LRUMap.peek "0xd" m = None /\
  LRUHistory.last_touch 3 ops "0xb" = Some 1%nat /\
  LRUHistory.last_touch 3 ops "0xc" = Some 2%nat /\
  LRUHistory.last_touch 3 ops "0xa" = Some 3%nat /\
  fst (LRUMap.get "0xb" (LRUMap.set "0xd" 4 m)) = None /\
  fst (LRUMap.get "0xa" (LRUMap.set "0xd" 4 m)) = Some 1 /\
  reachable (constructor None) /\
  (LRUMap.size (providersCache (constructor None)) <= 100)%nat.
Proof.
  cbv zeta.
  destruct caches_bounded_and_lru as (Hbound & Hlru & _).
  destruct (Hlru Z 3%nat
              [LRUHistory.Store "0xa" 1; LRUHistory.Store "0xb" 2;
               LRUHistory.Store "0xc" 3; LRUHistory.Lookup "0xa"]
              "0xd" 4 (Nat.lt_0_succ 2) eq_refl eq_refl)
    as (k0 & Hin & Hleast & Hgone & _ & Hkept & _).
  destruct (Hbound (constructor None) (reachable_new None)) as (_ & Hsize & _).
  assert (Hk0 : k0 = "0xb").
  { cbv in Hin. destruct Hin as [H|[H|[H|[]]]]; subst k0; [reflexivity| |];
      exfalso;
      (assert (X := Hleast "0xb" (or_introl eq_refl) ltac:(discriminate));
       vm_compute in X; lia). }
  subst k0.
  split; [lia|]. split; [reflexivity|]. split; [reflexivity|].
  split; [reflexivity|]. split; [reflexivity|]. split; [reflexivity|].
  split; [exact Hgone|].
  split; [apply Hkept; [discriminate|reflexivity]|].
  split; [exact (reachable_new None)|exact Hsize].
Defined.

(** ** Validation against the served records *)

Lemma hex_digit_nonneg c d : JS.hex_digit c = Some d -> 0 <= d.
Proof.
  unfold JS.hex_digit. cbv zeta. intros H.
  repeat match type of H with
         | context [if ?b then _ else _] => destruct b eqn:?
         end; try discriminate; injection H as <-;
    repeat match goal with
           | E : (_ && _) = true |- _ => apply andb_prop in E; destruct E
           end;
    repeat match goal with
           | E : (_ <=? _) = true |- _ => apply Z.leb_le in E
           end; lia.
Qed.

Lemma digits16_nonneg s : forall acc seen m,
  0 <= acc -> JS.digits16 s acc seen = Some m -> 0 <= m.
Proof.
  induction s as [|c s IH]; simpl; intros acc seen m Hacc H.
  - destruct seen; [injection H as <-; assumption|discriminate].
  - destruct (JS.hex_digit c) as [d|] eqn:E.
    + apply (IH (16 * acc + d) true m); [|assumption].
      apply hex_digit_nonneg in E. lia.
    + destruct seen; [injection H as <-; assumption|discriminate].
Qed.

(** Strings that denote the same hexadecimal integer have the same
    reading. *)
Lemma parseInt16_mathInt16 a b : mathInt16 a = mathInt16 b -> JS.parseInt16 a = JS.parseInt16 b.
Proof.
  unfold mathInt16, JS.parseInt16.
  destruct (JS.strip_sign (JS.trim_start a)) as [na sa].
  destruct (JS.strip_sign (JS.trim_start b)) as [nb sb].
  destruct (JS.digits16 (JS.strip_0x sa) 0 false) as [ma|] eqn:Ea;
    destruct (JS.digits16 (JS.strip_0x sb) 0 false) as [mb|] eqn:Eb;
    try discriminate; [|reflexivity].
  apply digits16_nonneg in Ea; [|lia]. apply digits16_nonneg in Eb; [|lia].
  intros [= H].
  destruct na, nb.
  - assert (ma = mb) by lia. subst. reflexivity.
  - assert (ma = 0) by lia. assert (mb = 0) by lia. subst. reflexivity.
  - assert (ma = 0) by lia. assert (mb = 0) by lia. subst. reflexivity.
  - subst. reflexivity.
Qed.

Lemma verdict_returns anchorProof transaction block :
  verdict anchorProof transaction block = Return tt <->
  rootValueHexNumber anchorProof = txValueHexNumber transaction /\
  AnchorProof.blockNumber anchorProof = TransactionResponse.blockNumber transaction /\
  AnchorProof.blockTimestamp anchorProof = Block.timestamp block.
Proof.
  unfold verdict.
  pose proof (strict_neq_false (txValueHexNumber transaction)
                (rootValueHexNumber anchorProof)
                (rootValueHexNumber_not_NaN anchorProof)) as Hroot.
  destruct (JS.strict_neq _ _).
  - split; [discriminate|]. intros (Hr & _). apply Hroot in Hr. discriminate.
  - destruct (Z.eqb_spec (AnchorProof.blockNumber anchorProof)
                (TransactionResponse.blockNumber transaction)) as [Hn|Hn]; simpl.
    + destruct (Z.eqb_spec (AnchorProof.blockTimestamp anchorProof)
                  (Block.timestamp block)) as [Ht|Ht]; simpl.
      * split; [|reflexivity]. intros _. split; [apply Hroot; reflexivity|]. split; assumption.
      * split; [discriminate|]. intros (_ & _ & H). contradiction.
    + split; [discriminate|]. intros (_ & H & _). contradiction.
Qed.

(** Loading returns a record exactly when that record is served. *)
Lemma load_transaction_serves net p h this t :
  result (load_transaction net p h this) = Return (Some t) <->
  served_transaction net p h this t.
Proof.
  pose proof (load_transaction_cases net p h this) as L.
  unfold served_transaction. unfold cached_transaction in L.
  destruct (nullable (LRUMap.peek h (_transactionCache this))) as [t0|].
  - rewrite L. unfold result; simpl. split.
    + intros [= ->]. left. reflexivity.
    + intros [[= ->]|[H _]]; [reflexivity|discriminate].
  - destruct (getTransaction net p h) as [r|e]; rewrite L; unfold result; simpl; split.
    + intros [= ->]. right. split; reflexivity.
    + intros [H|[_ [= ->]]]; [discriminate|reflexivity].
    + discriminate.
    + intros [H|[_ H]]; discriminate.
Qed.

Lemma load_block_serves net p h this b :
  result (load_block net p h this) = Return (Some b) <-> served_block net p h this b.
Proof.
  pose proof (load_block_cases net p h this) as L.
  unfold served_block.
  destruct (cached_block this h) as [b0|].
  - rewrite L. unfold result; simpl. split.
    + intros [= ->]. left. reflexivity.
    + intros [[= ->]|[H _]]; [reflexivity|discriminate].
  - destruct (getBlock net p h) as [r|e]; rewrite L; unfold result; simpl; split.
    + intros [= ->]. right. split; reflexivity.
    + intros [H|[_ [= ->]]]; [discriminate|reflexivity].
    + discriminate.
    + intros [H|[_ H]]; discriminate.
Qed.

Lemma load_transaction_blockCache net p h this :
  _blockCache (after (load_transaction net p h this)) = _blockCache this.
Proof.
  pose proof (load_transaction_cases net p h this) as L.
  destruct (cached_transaction this h); [|destruct (getTransaction net p h)];
    rewrite L; reflexivity.
Qed.

(** [_getTransactionAndBlockInfo] returns a transaction and a block exactly
    when a provider is resolved for the chain id and these are the records
    served for the transaction hash and for the block hash of the
    transaction. *)
Lemma _getTransactionAndBlockInfo_serves net chain h this t b :
  result (_getTransactionAndBlockInfo net chain h this) = Return (t, b) <->
  exists p,
    result (_getEthProvider chain this) = Return p /\
    served_transaction net p h this t /\
    served_block net p (TransactionResponse.blockHash t) this b.
Proof.
  rewrite _getTransactionAndBlockInfo_result.
  destruct (_getEthProvider chain this) as [[[p|e] this1] tr1] eqn:Ep.
  2: { split; [discriminate|]. intros (p & Hp & _). discriminate. }
  destruct (_getEthProvider_frame_eq _ _ _ _ _ Ep) as (_ & _ & _ & Htc & Hbc).
  assert (St : forall t', result (load_transaction net p h this1) = Return (Some t') <->
                          served_transaction net p h this t').
  { intros t'. rewrite load_transaction_serves. unfold served_transaction.
    rewrite Htc. tauto. }
  pose proof (load_transaction_blockCache net p h this1) as Fb.
  destruct (load_transaction net p h this1) as [[[[t0|]|e] this2] tr2];
    unfold result, after in St, Fb; simpl in St, Fb.
  - assert (Sb : forall b', result (load_block net p (TransactionResponse.blockHash t0) this2)
                            = Return (Some b') <->
                            served_block net p (TransactionResponse.blockHash t0) this b').
    { intros b'. rewrite load_block_serves. unfold served_block, cached_block.
      rewrite Fb, Hbc. tauto. }
    destruct (load_block net p (TransactionResponse.blockHash t0) this2)
      as [[[[b0|]|e] this3] tr3]; unfold result in Sb; simpl in Sb.
    + split.
      * intros [= <- <-]. exists p. split; [reflexivity|].
        split; [apply St; reflexivity|apply Sb; reflexivity].
      * intros (p' & [= <-] & Ht & Hb). apply St in Ht. injection Ht as <-.
        apply Sb in Hb. injection Hb as <-. reflexivity.
    + split; [discriminate|].
      intros (p' & [= <-] & Ht & Hb). apply St in Ht. injection Ht as <-.
      apply Sb in Hb. discriminate.
    + split; [discriminate|].
      intros (p' & [= <-] & Ht & Hb). apply St in Ht. injection Ht as <-.
      apply Sb in Hb. discriminate.
  - split; [discriminate|]. intros (p' & [= <-] & Ht & _). apply St in Ht. discriminate.
  - split; [discriminate|]. intros (p' & [= <-] & Ht & _). apply St in Ht. discriminate.
Qed.

(** The provider that is resolved for a chain is the provider of the
    endpoint, or else the default provider of the network of the chain. *)
Lemma resolution_expected this chain p :
  reachable this ->
  result (_getEthProvider chain this) = Return p ->
  expected_provider (ethereumRpcEndpoint this) chain = Some p.
Proof.
  intros Hreach Hr.
  pose proof (reachable_providers_expected _ Hreach) as Hexp.
  destruct (LRUMap.peek chain (providersCache this)) as [q|] eqn:E.
  - rewrite (_getEthProvider_hit _ _ _ E) in Hr. injection Hr as ->.
    exact (Hexp chain p (find_In_entry _ _ _ E)).
  - rewrite (_getEthProvider_miss _ _ E) in Hr.
    destruct (JS.startsWith chain "eip155"); [|discriminate]. simpl in Hr.
    destruct (JS.truthy (_chainId this) && _); [discriminate|].
    unfold expected_provider.
    destruct (JS.truthy (ethereumRpcEndpoint this)).
    + injection Hr as <-. reflexivity.
    + destruct (ETH_CHAIN_ID_MAPPINGS chain); [|discriminate].
      injection Hr as <-. reflexivity.
Qed.

(** C1. For a proof whose root is a version 1 CID, on a validator that a
    program can hold.  The records that [validateChainInclusion] checks
    are the transaction served for the transaction hash of the proof and
    the block served for the block hash of that transaction: the record
    cached under the hash if there is one, and else the record that the
    provider resolved for the chain id of the proof answers.  The call
    returns only if a provider is resolved for the chain id, both records
    are served, the root and the data of the transaction have the same
    reading as Numbers, the block number of the proof is that of the
    transaction and the block timestamp of the proof is that of the block.
    It returns whenever both records are served, the data of the
    transaction and the base16 form of the root denote the same
    hexadecimal integer, and the block number and the timestamp agree.  It
    throws whenever the served records differ from the proof in the
    reading, the block number or the timestamp. *)
Theorem validateChainInclusion_checks_the_served_records net anchorProof this :
  reachable this ->
  is_version_1 (AnchorProof.root anchorProof) = true ->
  (result (validateChainInclusion net anchorProof this) = Return tt ->
   exists p transaction block,
     result (_getEthProvider (AnchorProof.chainId anchorProof) this) = Return p /\
     expected_provider (ethereumRpcEndpoint this) (AnchorProof.chainId anchorProof) = Some p /\
     served_transaction net p (txHash_of anchorProof) this transaction /\
     served_block net p (TransactionResponse.blockHash transaction) this block /\
     rootValueHexNumber anchorProof = txValueHexNumber transaction /\
     AnchorProof.blockNumber anchorProof = TransactionResponse.blockNumber transaction /\
     AnchorProof.blockTimestamp anchorProof = Block.timestamp block) /\
  (forall p transaction block,
     result (_getEthProvider (AnchorProof.chainId anchorProof) this) = Return p ->
     served_transaction net p (txHash_of anchorProof) this transaction ->
     served_block net p (TransactionResponse.blockHash transaction) this block ->
     (mathInt16 (TransactionResponse.data transaction)
      = mathInt16 ("0x" ++ CID.toString_base16 (AnchorProof.root anchorProof)) ->
      AnchorProof.blockNumber anchorProof = TransactionResponse.blockNumber transaction ->
      AnchorProof.blockTimestamp anchorProof = Block.timestamp block ->
      result (validateChainInclusion net anchorProof this) = Return tt) /\
     (rootValueHexNumber anchorProof <> txValueHexNumber transaction \/
      AnchorProof.blockNumber anchorProof <> TransactionResponse.blockNumber transaction \/
      AnchorProof.blockTimestamp anchorProof <> Block.timestamp block ->
      exists e, result (validateChainInclusion net anchorProof this) = Throw e)).
Proof.
  intros Hreach _.
  pose proof (validateChainInclusion_result net anchorProof this) as R.
  split.
  - intros Hret. rewrite R in Hret.
    destruct (result (_getTransactionAndBlockInfo net _ _ this)) as [[t b]|e] eqn:Ei;
      [|discriminate].
    apply _getTransactionAndBlockInfo_serves in Ei. destruct Ei as (p & Hp & Ht & Hb).
    apply verdict_returns in Hret.
    exists p, t, b. split; [exact Hp|].
    split; [exact (resolution_expected _ _ _ Hreach Hp)|]. tauto.
  - intros p t b Hp Ht Hb.
    assert (Ei : result (_getTransactionAndBlockInfo net (AnchorProof.chainId anchorProof)
                           (txHash_of anchorProof) this) = Return (t, b))
      by (apply _getTransactionAndBlockInfo_serves; eauto).
    rewrite R, Ei. split.
    + intros Hm Hn Hts. apply verdict_returns. split; [|split; assumption].
      unfold rootValueHexNumber, txValueHexNumber. symmetry.
      apply parseInt16_mathInt16. exact Hm.
    + intros Hmis. destruct (verdict anchorProof t b) as [[]|e] eqn:Ev; [|eauto].
      apply verdict_returns in Ev. exfalso. tauto.
Qed.

Lemma validateChainInclusion_checks_the_served_records_witness :
  reachable (constructor None) /\
  is_version_1 (AnchorProof.root Scenario.proof) = true /\
  served_transaction Scenario.net (DefaultProvider "mainnet") (txHash_of Scenario.proof)
    (constructor None) Scenario.transaction /\
  served_block Scenario.net (DefaultProvider "mainnet") "0xb10c" (constructor None)
    Scenario.block /\
  result (validateChainInclusion Scenario.net Scenario.proof (constructor None)) = Return tt.
Proof.
  assert (Ht : served_transaction Scenario.net (DefaultProvider "mainnet")
                 (txHash_of Scenario.proof) (constructor None) Scenario.transaction)
    by (right; split; reflexivity).
  assert (Hb : served_block Scenario.net (DefaultProvider "mainnet") "0xb10c"
                 (constructor None) Scenario.block)
    by (right; split; reflexivity).
  split; [exact (reachable_new None)|]. split; [reflexivity|].
  split; [exact Ht|]. split; [exact Hb|].
  exact (proj1 (proj2 (validateChainInclusion_checks_the_served_records
                         Scenario.net Scenario.proof (constructor None)
                         (reachable_new None) eq_refl)
                  (DefaultProvider "mainnet") Scenario.transaction Scenario.block
                  eq_refl Ht Hb)
           eq_refl eq_refl eq_refl).
Defined.

(** C1 as stated does not hold, in two ways.  A validator that has
    validated a proof on the mainnet returns for the same proof with the
    ropsten chain id, although the provider resolved for that chain knows
    no such transaction: the records come from the caches, which are keyed
    by the hash alone.  And a transaction that carries another CID than
    the root, so that the two denote different integers, is accepted when
    the readings as Numbers agree. *)
Lemma validateChainInclusion_accepts_other_records :
  (let this := after (validateChainInclusion Forged.mainnet_only (Cases.proof_on "eip155:1")
                        (constructor None)) in
   result (_getEthProvider "eip155:3" this) = Return (DefaultProvider "ropsten") /\
   getTransaction Forged.mainnet_only (DefaultProvider "ropsten")
     (txHash_of (Cases.proof_on "eip155:3")) = Resolved None /\
   result (validateChainInclusion Forged.mainnet_only (Cases.proof_on "eip155:3") this)
   = Return tt) /\
  (getTransaction Forged.net (DefaultProvider "mainnet") (txHash_of Forged.proof)
   = Resolved (Some Forged.transaction) /\
   is_version_1 (AnchorProof.root Forged.proof) = true /\
   mathInt16 (TransactionResponse.data Forged.transaction)
   <> mathInt16 ("0x" ++ CID.toString_base16 (AnchorProof.root Forged.proof)) /\
   result (validateChainInclusion Forged.net Forged.proof (constructor None)) = Return tt).
Proof.
  split.
  - vm_compute. repeat split; reflexivity.
  - split; [reflexivity|]. split; [reflexivity|]. split; [|vm_compute; reflexivity].
    vm_compute. discriminate.
Qed.
